(** * Portfolio site: modal visibility, navigation routing, event bus, logger

    A shallow embedding of the client-side scripts of the portfolio page
    (the listeners of [main.js], the inline script of [index.html], the
    components of [UIComponents.js] as [app.js] would wire them, the
    [EventBus], the [Logger], the queue and retries of the [ErrorHandler],
    the data attributes of [BaseComponent] and the scroll spy of
    [Navigation]) together with the properties the specification states
    about them. *)

From Stdlib Require Import Ascii String Lia ZArith.
From stdpp Require Import base strings list gmap pretty.

Open Scope string_scope.
Open Scope list_scope.

(** ** JavaScript objects used as maps *)

Module JS.

(** Property names that every object literal [{}] inherits from
    [Object.prototype]; reading one of them yields a function (or, for
    [__proto__], the prototype object itself): a truthy value that is
    neither a string, a number nor an array. *)
Definition object_prototype : list string :=
  [ "constructor"; "__defineGetter__"; "__defineSetter__"; "hasOwnProperty";
    "__lookupGetter__"; "__lookupSetter__"; "isPrototypeOf";
    "propertyIsEnumerable"; "toString"; "valueOf"; "__proto__";
    "toLocaleString" ].

(** Result of [obj[key]] on an object literal whose own properties are
    the finite map [own]. *)
Inductive lookup (A : Type) : Type :=
| Own (a : A)
| Inherited (name : string)
| Undefined.
Arguments Own {A} a.
Arguments Inherited {A} name.
Arguments Undefined {A}.

Definition get {A : Type} (own : gmap string A) (key : string) : lookup A :=
  match own !! key with
  | Some a => Own a
  | None =>
      if bool_decide (key ∈ object_prototype) then Inherited key
      else Undefined
  end.

(** [arr.slice(-n)]: the last [n] elements; [-0] is [0], so [slice(-0)]
    is the whole array. *)
Definition slice_from_end {A : Type} (n : nat) (l : list A) : list A :=
  match n with
  | 0 => l
  | _ => drop (length l - n) l
  end.

(** [s.toLowerCase()] on ASCII text. *)
Definition lower_ascii (c : ascii) : ascii :=
  let n := Ascii.nat_of_ascii c in
  if (65 <=? n)%nat && (n <=? 90)%nat then Ascii.ascii_of_nat (n + 32) else c.

Fixpoint toLowerCase (s : string) : string :=
  match s with
  | EmptyString => EmptyString
  | String c s' => String (lower_ascii c) (toLowerCase s')
  end.

(** [s.startsWith(p)]. *)
Definition startsWith (p s : string) : bool := String.prefix p s.

(** [s.includes(sub)]; also the attribute selector [[attr*="sub"]]. *)
Fixpoint includes (sub s : string) : bool :=
  String.prefix sub s ||
  match s with
  | EmptyString => false
  | String _ s' => includes sub s'
  end.

Fixpoint skip (n : nat) (s : string) : string :=
  match n, s with
  | S n', String _ s' => skip n' s'
  | _, _ => s
  end.

(** [s.replace(pat, '')] with a string pattern: the first occurrence of
    [pat] is removed. *)
Fixpoint replace_first (pat s : string) : string :=
  if String.prefix pat s then skip (String.length pat) s
  else match s with
       | EmptyString => EmptyString
       | String c s' => String c (replace_first pat s')
       end.

(** [String(v)] of the value inherited under [name]: native functions
    print as below, [__proto__] is the prototype object. *)
Definition inherited_to_string (name : string) : string :=
  if bool_decide (name = "__proto__") then "[object Object]"
  else if bool_decide (name = "constructor")
       then "function Object() { [native code] }"
       else "function " +:+ name +:+ "() { [native code] }".

End JS.

(** ** Logger (core/Logger.js) *)

Module Logger.

Record entry := Entry {
  timestamp : string;
  level : string;
  message : string;
  data : option string;          (* [None] is [null] *)
  stack : option string
}.

(** What the runtime supplies to one call: [new Date().toISOString()] and
    [new Error().stack]. *)
Record env := Env { iso_now : string; error_stack : string }.

(** A value held by [currentLevel]: a number, or the value [setLevel]
    read under a name inherited from [Object.prototype] (a native
    function, or the prototype object for [__proto__]). *)
Inductive level_value :=
| Number (n : nat)
| InheritedValue (name : string).

(** How a call ends. *)
Inductive outcome :=
| Returned
| Threw (err : string).

Record t := Logger {
  currentLevel : level_value;
  logs : list entry;
  maxLogs : nat;
  console : list (string * string * string)   (* method, text, data *)
}.

Definition levels : gmap string nat :=
  list_to_map [("ERROR", 0); ("WARN", 1); ("INFO", 2); ("DEBUG", 3)].

Definition constructor : t :=
  {| currentLevel := Number 2; logs := []; maxLogs := 1000; console := [] |}.

(** [setLevel(level)]: [this.levels[level] !== undefined] also holds for
    an inherited name, whose value is then stored as the level. *)
Definition setLevel (lvl : string) (s : t) : t :=
  match JS.get levels lvl with
  | JS.Own n =>
      {| currentLevel := Number n; logs := logs s; maxLogs := maxLogs s;
         console := console s |}
  | JS.Inherited name =>
      {| currentLevel := InheritedValue name; logs := logs s;
         maxLogs := maxLogs s; console := console s |}
  | JS.Undefined => s
  end.

(** [this.levels[level] <= this.currentLevel].  Two numbers are compared
    as numbers.  Two inherited values are objects: both are converted to
    their string forms and compared as strings, code unit by code unit.
    A number against an inherited value converts the latter to NaN, and
    [undefined] converts to NaN: the comparison is then false. *)
Definition enabled (lvl : string) (s : t) : bool :=
  match JS.get levels lvl, currentLevel s with
  | JS.Own n, Number cur => (n <=? cur)%nat
  | JS.Inherited a, InheritedValue b =>
      String.leb (JS.inherited_to_string a) (JS.inherited_to_string b)
  | _, _ => false
  end.

Definition logEntry (e : env) (lvl msg : string) (d : option string) : entry :=
  {| timestamp := iso_now e; level := lvl; message := msg; data := d;
     stack := if bool_decide (lvl = "ERROR") then Some (error_stack e) else None |}.

Definition console_line (e : env) (lvl msg : string) (d : option string)
  : string * string * string :=
  (JS.toLowerCase lvl,
   "[" +:+ iso_now e +:+ "] " +:+ lvl +:+ ": " +:+ msg,
   default EmptyString d).

(** [console[level.toLowerCase()]] for a level that passed the
    comparison, which is a level name or a name inherited from
    [Object.prototype]: the level names give the four printing methods;
    [constructor] gives the function [Object], which the console
    inherits and which returns without printing; [__proto__] gives the
    prototype object of the console, truthy and not callable; the other
    inherited names have an upper-case letter and, lower-cased, name no
    property of the console. *)
Inductive console_member :=
| Prints
| ObjectFunction
| NotCallable
| Missing.

Definition console_member_of (lvl : string) : console_member :=
  if bool_decide (lvl ∈ ["ERROR"; "WARN"; "INFO"; "DEBUG"]) then Prints
  else if bool_decide (lvl = "constructor") then ObjectFunction
  else if bool_decide (lvl = "__proto__") then NotCallable
  else Missing.

(** The entries after [push] and the cap. *)
Definition push_capped (s : t) (x : entry) : list entry :=
  let pushed := logs s ++ [x] in
  if (maxLogs s <? length pushed)%nat
  then JS.slice_from_end (maxLogs s) pushed
  else pushed.

Definition log (e : env) (lvl msg : string) (d : option string) (s : t)
  : t * outcome :=
  if enabled lvl s then
    let kept := push_capped s (logEntry e lvl msg d) in
    let stored :=
      {| currentLevel := currentLevel s; logs := kept; maxLogs := maxLogs s;
         console := console s |} in
    match console_member_of lvl with
    | Prints =>
        ({| currentLevel := currentLevel s; logs := kept;
            maxLogs := maxLogs s;
            console := console s ++ [console_line e lvl msg d] |}, Returned)
    | ObjectFunction | Missing => (stored, Returned)
    | NotCallable =>
        (stored, Threw "TypeError: console[consoleMethod] is not a function")
    end
  else (s, Returned).

Definition error (e : env) (msg : string) (d : option string)
  : t -> t * outcome := log e "ERROR" msg d.
Definition warn (e : env) (msg : string) (d : option string)
  : t -> t * outcome := log e "WARN" msg d.
Definition info (e : env) (msg : string) (d : option string)
  : t -> t * outcome := log e "INFO" msg d.
Definition debug (e : env) (msg : string) (d : option string)
  : t -> t * outcome := log e "DEBUG" msg d.

Definition clear (s : t) : t :=
  {| currentLevel := currentLevel s; logs := []; maxLogs := maxLogs s;
     console := console s |}.

(** One call on the logger. *)
Inductive call :=
| CError (e : env) (msg : string) (d : option string)
| CWarn (e : env) (msg : string) (d : option string)
| CInfo (e : env) (msg : string) (d : option string)
| CDebug (e : env) (msg : string) (d : option string)
| CLog (e : env) (lvl msg : string) (d : option string)
| CClear
| CSetLevel (lvl : string).

(** The logger after the call, and how the call ended. *)
Definition step (s : t) (c : call) : t * outcome :=
  match c with
  | CError e msg d => error e msg d s
  | CWarn e msg d => warn e msg d s
  | CInfo e msg d => info e msg d s
  | CDebug e msg d => debug e msg d s
  | CLog e lvl msg d => log e lvl msg d s
  | CClear => (clear s, Returned)
  | CSetLevel lvl => (setLevel lvl s, Returned)
  end.

(** A sequence of calls on the one logger object: a call that throws has
    stored its entry before, and the next call finds the logger so. *)
Definition run (cs : list call) (s : t) : t :=
  foldl (fun s c => (step s c).1) s cs.

(** The outcomes of the calls of a sequence, in order. *)
Fixpoint outcomes (cs : list call) (s : t) : list outcome :=
  match cs with
  | [] => []
  | c :: cs' => (step s c).2 :: outcomes cs' (step s c).1
  end.

(** The entries a logger without a cap would hold: every accepted entry
    since the last [clear], oldest first.  The level threshold is the one
    the capped logger has at that point. *)
Definition accepted_by (s : t) (c : call) : list entry :=
  match c with
  | CError e msg d =>
      if enabled "ERROR" s then [logEntry e "ERROR" msg d] else []
  | CWarn e msg d =>
      if enabled "WARN" s then [logEntry e "WARN" msg d] else []
  | CInfo e msg d =>
      if enabled "INFO" s then [logEntry e "INFO" msg d] else []
  | CDebug e msg d =>
      if enabled "DEBUG" s then [logEntry e "DEBUG" msg d] else []
  | CLog e lvl msg d =>
      if enabled lvl s then [logEntry e lvl msg d] else []
  | CClear | CSetLevel _ => []
  end.

Fixpoint uncapped (cs : list call) (s : t) (acc : list entry) : list entry :=
  match cs with
  | [] => acc
  | c :: cs' =>
      let acc' := match c with
                  | CClear => []
                  | _ => acc ++ accepted_by s c
                  end in
      uncapped cs' (step s c).1 acc'
  end.

(** The most recent [n] elements of a history. *)
Definition most_recent {A : Type} (n : nat) (h : list A) : list A :=
  drop (length h - n) h.

End Logger.

(** ** EventBus (core/EventBus.js) *)

Module EventBus.

Section bus.

(** [D] is the type of event data, [W] the state of the rest of the
    application that subscribers may change. *)
Context {D W : Type}.

(** A callback is a function object, compared by identity ([cb !== callback]);
    a number stands for that identity. *)
Definition callback := nat.

Inductive outcome :=
| Returned
| Threw (err : string).

Record state := State {
  events : gmap string (list callback);   (* own properties of [this.events] *)
  console : list (string * string);       (* [console.error] text and error *)
  calls : list callback;                  (* callbacks invoked so far, in order *)
  world : W
}.

(** What calling a function object does: it may change the bus and the
    world before it returns or throws. *)
Variable behaviour : callback -> D -> state -> state * outcome.

Definition constructor (w : W) : state :=
  {| events := ∅; console := []; calls := []; world := w |}.

Definition set_events (ev : gmap string (list callback)) (s : state) : state :=
  {| events := ev; console := console s; calls := calls s; world := world s |}.

Definition console_error (text err : string) (s : state) : state :=
  {| events := events s; console := console s ++ [(text, err)];
     calls := calls s; world := world s |}.

(** Calling [callback(data)]: the call is recorded, whatever the function
    does to the rest of the state. *)
Definition invoke (cb : callback) (d : D) (s : state) : state * outcome :=
  let '(s', o) := behaviour cb d s in
  ({| events := events s'; console := console s';
      calls := calls s ++ [cb]; world := world s' |}, o).

(** [subscribe(event, callback)]. *)
Definition subscribe (event : string) (cb : callback) (s : state)
  : state * outcome :=
  match JS.get (events s) event with
  | JS.Undefined => (set_events (<[event := [cb]]> (events s)) s, Returned)
  | JS.Own cbs => (set_events (<[event := cbs ++ [cb]]> (events s)) s, Returned)
  | JS.Inherited _ =>
      (s, Threw "TypeError: this.events[event].push is not a function")
  end.


(** [try { block } catch (error) { handler(error) }]. *)
Definition try_catch (block : state -> state * outcome)
    (handler : string -> state -> state * outcome) (s : state)
  : state * outcome :=
  match block s with
  | (s', Returned) => (s', Returned)
  | (s', Threw err) => handler err s'
  end.

(** [array.forEach(body)]: stops at the first iteration that throws. *)
Fixpoint forEach (body : callback -> state -> state * outcome)
    (cbs : list callback) (s : state) : state * outcome :=
  match cbs with
  | [] => (s, Returned)
  | cb :: rest =>
      match body cb s with
      | (s', Returned) => forEach body rest s'
      | (s', Threw err) => (s', Threw err)
      end
  end.

(** The arrow function that [publish] hands to [forEach]: the callback is
    called inside [try], and what it throws is logged. *)
Definition guarded_call (event : string) (d : D) (cb : callback)
  : state -> state * outcome :=
  try_catch (invoke cb d)
    (fun err s' =>
       (console_error ("Error in event handler for " +:+ event +:+ ":") err s',
        Returned)).

(** [publish(event, data)]. *)
Definition publish (event : string) (d : D) (s : state) : state * outcome :=
  match JS.get (events s) event with
  | JS.Undefined => (s, Returned)
  | JS.Inherited _ =>
      (s, Threw "TypeError: this.events[event].forEach is not a function")
  | JS.Own cbs => forEach (guarded_call event d) cbs s
  end.

End bus.

Arguments state W : clear implicits.

(** A bus with three subscribers of ['modal:open'], the second of which
    throws; the others append to the world. *)
Definition sample_behaviour (cb : callback) (d : nat) (s : state (list nat))
  : state (list nat) * outcome :=
  if bool_decide (cb = 1) then (s, Threw "boom")
  else ({| events := events s; console := console s; calls := calls s;
           world := world s ++ [cb + d] |}, Returned).

Definition sample_bus : state (list nat) :=
  (subscribe "modal:open" 2
     (subscribe "modal:open" 1
        (subscribe "modal:open" 0 (constructor [])).1).1).1.

End EventBus.

(** ** The page: elements, focus, timers *)

Module Dom.

(** Nodes that can hold the focus or be the target of an event. *)
Inductive node :=
| Body
| NavLink (n : nat)        (* the [n]-th [nav a] link, in document order *)
| Element (i : nat)        (* the [i]-th element of [elements] *)
| Inside (i k : nat)       (* the [k]-th descendant of element [i] *)
| Elsewhere (n : nat).     (* any other node of the page *)

#[export] Instance node_eq_dec : EqDecision node.
Proof. solve_decision. Defined.

(** A descendant of a modal matched by the selector
    [button, [href], input, select, textarea, [tabindex]:not([tabindex="-1"])]. *)
Record focus_target := FocusTarget {
  ft_index : nat;          (* which descendant *)
  ft_disabled : bool;      (* [el.disabled] *)
  ft_laid_out : bool       (* [el.offsetParent !== null] while the modal is shown *)
}.

(** An element that carries an id or the class [modal].  [display], [opacity]
    and [zIndex] are the properties of [element.style] (the empty string when unset);
    [markup_style] is the rest of the [style] attribute. *)
Record element := Elem {
  id : string;
  is_modal : bool;
  markup_style : string;
  display : string;
  opacity : string;
  zIndex : string;
  aria_hidden : option string;
  role : option string;
  aria_modal : option string;
  panel : option (list string);     (* class list of its [.modal-content] *)
  focusables : list focus_target    (* in document order *)
}.

(** A [.close] control: its [data-modal] attribute and the result of
    [closest('.modal')]. *)
Record close_button := CloseButton {
  data_modal : option string;
  closest_modal : option nat
}.

(** What a handler does to the browser besides changing the document.
    [Console]: the method and the label followed by the string arguments;
    arguments that are DOM objects or computed styles are not rendered. *)
Inductive effect :=
| Console (method text : string)
| PreventDefault
| StopPropagation
| StopImmediatePropagation
| ScrollTo (top : nat) (behavior : string)
| ScrollIntoView (target : nat) (behavior : string)
| Uncaught (err : string)
| LoggerCall (method text : string)
| Published (event payload : string).

(** Callbacks handed to [setTimeout]. *)
Inductive task :=
| FocusFirstFocusable (i : nat)     (* main.js, after opening element [i] *)
| FocusFirstElement (c : nat)       (* [Modal.focusFirstElement] of component [c] *)
| AnimationEnd (c : nat) (cls : string) (finish_close : bool).
                                    (* [applyAnimation]: remove the class,
                                       then run the callback of [close] *)

(** A [Modal] component: its element, its options and the field
    [previouslyFocused] ([None] is [undefined]). *)
Record component := Component {
  element_of : nat;
  closeOnEscape : bool;
  closeOnBackdrop : bool;
  focusTrap : bool;
  animation : string;
  animationDuration : nat;
  previouslyFocused : option node
}.

Record world := World {
  elements : list element;              (* document order *)
  nav : list (option string);           (* [href] of each [nav a] *)
  close_buttons : list close_button;
  overflow : string;                    (* [document.body.style.overflow] *)
  focused : node;                       (* [document.activeElement] *)
  detached : list node;                 (* nodes removed from the document *)
  trace : list effect;
  now : nat;                            (* milliseconds *)
  timers : list (nat * task);           (* due time and callback *)
  enhanced_loaded : bool;               (* [import('./app.js')] succeeded *)
  components : list component;          (* Modal components, creation order *)
  registry : list (string * nat);       (* [PortfolioApp.components] *)
  activeModal : option string;          (* [AppState.state.activeModal] *)
  currentSection : string               (* [AppState.state.navigation.currentSection] *)
}.

(** *** Field updates *)

Definition set_display (v : string) (e : element) : element :=
  {| id := id e; is_modal := is_modal e; markup_style := markup_style e;
     display := v; opacity := opacity e; zIndex := zIndex e;
     aria_hidden := aria_hidden e; role := role e; aria_modal := aria_modal e;
     panel := panel e; focusables := focusables e |}.

Definition set_opacity (v : string) (e : element) : element :=
  {| id := id e; is_modal := is_modal e; markup_style := markup_style e;
     display := display e; opacity := v; zIndex := zIndex e;
     aria_hidden := aria_hidden e; role := role e; aria_modal := aria_modal e;
     panel := panel e; focusables := focusables e |}.

Definition set_zIndex (v : string) (e : element) : element :=
  {| id := id e; is_modal := is_modal e; markup_style := markup_style e;
     display := display e; opacity := opacity e; zIndex := v;
     aria_hidden := aria_hidden e; role := role e; aria_modal := aria_modal e;
     panel := panel e; focusables := focusables e |}.

Definition set_aria_hidden (v : string) (e : element) : element :=
  {| id := id e; is_modal := is_modal e; markup_style := markup_style e;
     display := display e; opacity := opacity e; zIndex := zIndex e;
     aria_hidden := Some v; role := role e; aria_modal := aria_modal e;
     panel := panel e; focusables := focusables e |}.

Definition set_role (v : string) (e : element) : element :=
  {| id := id e; is_modal := is_modal e; markup_style := markup_style e;
     display := display e; opacity := opacity e; zIndex := zIndex e;
     aria_hidden := aria_hidden e; role := Some v; aria_modal := aria_modal e;
     panel := panel e; focusables := focusables e |}.

Definition set_aria_modal (v : string) (e : element) : element :=
  {| id := id e; is_modal := is_modal e; markup_style := markup_style e;
     display := display e; opacity := opacity e; zIndex := zIndex e;
     aria_hidden := aria_hidden e; role := role e; aria_modal := Some v;
     panel := panel e; focusables := focusables e |}.

Definition set_panel (v : option (list string)) (e : element) : element :=
  {| id := id e; is_modal := is_modal e; markup_style := markup_style e;
     display := display e; opacity := opacity e; zIndex := zIndex e;
     aria_hidden := aria_hidden e; role := role e; aria_modal := aria_modal e;
     panel := v; focusables := focusables e |}.

Definition set_elements (v : list element) (w : world) : world :=
  {| elements := v; nav := nav w; close_buttons := close_buttons w;
     overflow := overflow w; focused := focused w; detached := detached w;
     trace := trace w; now := now w; timers := timers w;
     enhanced_loaded := enhanced_loaded w; components := components w;
     registry := registry w; activeModal := activeModal w;
     currentSection := currentSection w |}.

Definition set_overflow (v : string) (w : world) : world :=
  {| elements := elements w; nav := nav w; close_buttons := close_buttons w;
     overflow := v; focused := focused w; detached := detached w;
     trace := trace w; now := now w; timers := timers w;
     enhanced_loaded := enhanced_loaded w; components := components w;
     registry := registry w; activeModal := activeModal w;
     currentSection := currentSection w |}.

Definition set_focused (v : node) (w : world) : world :=
  {| elements := elements w; nav := nav w; close_buttons := close_buttons w;
     overflow := overflow w; focused := v; detached := detached w;
     trace := trace w; now := now w; timers := timers w;
     enhanced_loaded := enhanced_loaded w; components := components w;
     registry := registry w; activeModal := activeModal w;
     currentSection := currentSection w |}.

Definition set_detached (v : list node) (w : world) : world :=
  {| elements := elements w; nav := nav w; close_buttons := close_buttons w;
     overflow := overflow w; focused := focused w; detached := v;
     trace := trace w; now := now w; timers := timers w;
     enhanced_loaded := enhanced_loaded w; components := components w;
     registry := registry w; activeModal := activeModal w;
     currentSection := currentSection w |}.

Definition set_trace (v : list effect) (w : world) : world :=
  {| elements := elements w; nav := nav w; close_buttons := close_buttons w;
     overflow := overflow w; focused := focused w; detached := detached w;
     trace := v; now := now w; timers := timers w;
     enhanced_loaded := enhanced_loaded w; components := components w;
     registry := registry w; activeModal := activeModal w;
     currentSection := currentSection w |}.

Definition set_now (v : nat) (w : world) : world :=
  {| elements := elements w; nav := nav w; close_buttons := close_buttons w;
     overflow := overflow w; focused := focused w; detached := detached w;
     trace := trace w; now := v; timers := timers w;
     enhanced_loaded := enhanced_loaded w; components := components w;
     registry := registry w; activeModal := activeModal w;
     currentSection := currentSection w |}.

Definition set_timers (v : list (nat * task)) (w : world) : world :=
  {| elements := elements w; nav := nav w; close_buttons := close_buttons w;
     overflow := overflow w; focused := focused w; detached := detached w;
     trace := trace w; now := now w; timers := v;
     enhanced_loaded := enhanced_loaded w; components := components w;
     registry := registry w; activeModal := activeModal w;
     currentSection := currentSection w |}.

Definition set_components (v : list component) (w : world) : world :=
  {| elements := elements w; nav := nav w; close_buttons := close_buttons w;
     overflow := overflow w; focused := focused w; detached := detached w;
     trace := trace w; now := now w; timers := timers w;
     enhanced_loaded := enhanced_loaded w; components := v;
     registry := registry w; activeModal := activeModal w;
     currentSection := currentSection w |}.

Definition set_activeModal (v : option string) (w : world) : world :=
  {| elements := elements w; nav := nav w; close_buttons := close_buttons w;
     overflow := overflow w; focused := focused w; detached := detached w;
     trace := trace w; now := now w; timers := timers w;
     enhanced_loaded := enhanced_loaded w; components := components w;
     registry := registry w; activeModal := v;
     currentSection := currentSection w |}.

Definition set_currentSection (v : string) (w : world) : world :=
  {| elements := elements w; nav := nav w; close_buttons := close_buttons w;
     overflow := overflow w; focused := focused w; detached := detached w;
     trace := trace w; now := now w; timers := timers w;
     enhanced_loaded := enhanced_loaded w; components := components w;
     registry := registry w; activeModal := activeModal w;
     currentSection := v |}.

Definition set_previouslyFocused (v : option node) (c : component) : component :=
  {| element_of := element_of c; closeOnEscape := closeOnEscape c;
     closeOnBackdrop := closeOnBackdrop c; focusTrap := focusTrap c;
     animation := animation c; animationDuration := animationDuration c;
     previouslyFocused := v |}.

(** *** Document operations *)

Definition update_element (i : nat) (f : element -> element) (w : world) : world :=
  set_elements (alter f i (elements w)) w.

(** [document.getElementById(s)]: the first element with that id; the empty
    string matches nothing. *)
Definition getElementById (s : string) (w : world) : option nat :=
  if bool_decide (s = EmptyString) then None
  else fst <$> list_find (fun e => id e = s) (elements w).

Definition emit (x : effect) (w : world) : world :=
  set_trace (trace w ++ [x]) w.

Definition console_log (text : string) : world -> world :=
  emit (Console "log" text).

Definition console_error (text : string) : world -> world :=
  emit (Console "error" text).

Definition element_id (i : nat) (w : world) : string :=
  match elements w !! i with
  | Some e => id e
  | None => EmptyString
  end.

(** The Open state of the specification: [style.display === 'flex'], the
    test of [Modal.isOpen]. *)
Definition is_open (e : element) : bool := bool_decide (display e = "flex").

(** Whether the element generates a box.  An element without an inline
    [display] follows the style sheet, whose rule for [.modal] is
    [display: none]. *)
Definition rendered (e : element) : bool :=
  if bool_decide (display e = "none") then false
  else if bool_decide (display e = EmptyString) then negb (is_modal e)
  else true.

Definition element_rendered (i : nat) (w : world) : bool :=
  match elements w !! i with
  | Some e => rendered e
  | None => false
  end.

Definition descendant_disabled (i k : nat) (w : world) : bool :=
  match elements w !! i with
  | Some e =>
      bool_decide (Exists (fun t => ft_index t = k /\ ft_disabled t = true)
                     (focusables e))
  | None => false
  end.

(** Whether [n.focus()] moves the focus: the node must be in the document,
    rendered, and not disabled; [document.body] is not focusable. *)
Definition can_focus (w : world) (n : node) : bool :=
  bool_decide (n ∉ detached w) &&
  match n with
  | Body => false
  | NavLink k =>
      match nav w !! k with
      | Some (Some _) => true
      | _ => false
      end
  | Element i => element_rendered i w
  | Inside i k => element_rendered i w && negb (descendant_disabled i k w)
  | Elsewhere _ => true
  end.

Definition focus (n : node) (w : world) : world :=
  if can_focus w n then set_focused n w else w.

(** The browser's focus fixup: when the focused node stops being focusable
    (its modal was hidden), [document.activeElement] falls back to the body. *)
Definition fixup (w : world) : world :=
  match focused w with
  | Body => w
  | n => if can_focus w n then w else set_focused Body w
  end.

Definition setTimeout (t : task) (delay : nat) (w : world) : world :=
  set_timers (timers w ++ [(now w + delay, t)]) w.

(** [classList.add] and [classList.remove]. *)
Definition classList_add (cls : string) (classes : list string) : list string :=
  if bool_decide (cls ∈ classes) then classes else classes ++ [cls].

Definition classList_remove (cls : string) (classes : list string) : list string :=
  filter (fun c => c <> cls) classes.

(** Timers ordered by due time, ties in the order of the [setTimeout] calls. *)
Fixpoint insert_by_due (p : nat * task) (l : list (nat * task))
  : list (nat * task) :=
  match l with
  | [] => [p]
  | q :: l' => if (p.1 <? q.1)%nat then p :: q :: l' else q :: insert_by_due p l'
  end.

Definition order_by_due (l : list (nat * task)) : list (nat * task) :=
  foldl (fun acc p => insert_by_due p acc) [] l.

End Dom.

(** ** The basic layer (main.js, [initBasicPortfolio]) *)

Module Basic.
Import Dom.

Definition navMap : gmap string string :=
  list_to_map
    [ ("experience", "modal-experience"); ("education", "modal-education");
      ("projects", "modal-projects"); ("skills", "modal-skills");
      ("contact", "modal-contact") ].

(** [navMap[hash]] when it is truthy, as the string that
    [document.getElementById] receives. *)
Definition navMap_get (hash : string) : option string :=
  match JS.get navMap hash with
  | JS.Own target => Some target
  | JS.Inherited name => Some (JS.inherited_to_string name)
  | JS.Undefined => None
  end.

(** [emergencyBtn.style.display = v] when [#emergency-close] exists. *)
Definition emergency_button (v : string) (w : world) : world :=
  match getElementById "emergency-close" w with
  | Some j => update_element j (set_display v) w
  | None => w
  end.

(** [window.closeAllModals]. *)
Definition closeAllModals (w : world) : world :=
  let w := console_log "Emergency close all modals" w in
  let w := set_elements
             ((fun e => if is_modal e
                        then set_aria_hidden "true" (set_display "none" e)
                        else e) <$> elements w) w in
  let w := set_overflow EmptyString w in
  let w := emergency_button "none" w in
  console_log "All modals closed" w.

(** [document.querySelector('nav a[href="#key"]')]. *)
Definition trigger_link (key : string) (w : world) : option nat :=
  fst <$> list_find (fun h => h = Some ("#" +:+ key)) (nav w).

(** [closeModal(modal)] for the element [i]. *)
Definition closeModal (i : nat) (w : world) : world :=
  let name := element_id i w in
  let w := console_log ("closeModal called for: " +:+ name) w in
  let w := update_element i (set_display "none") w in
  let w := update_element i (set_aria_hidden "true") w in
  let w := set_overflow EmptyString w in
  let w := emergency_button "none" w in
  let w := match trigger_link (JS.replace_first "modal-" name) w with
           | Some n => focus (NavLink n) w
           | None => w
           end in
  console_log ("Modal closed successfully: " +:+ name) w.

(** The click listener of a navigation link whose [href] starts with [#]. *)
Definition nav_click (href : option string) (w : world) : world :=
  match href with
  | None => w
  | Some h =>
      if negb (JS.startsWith "#" h) then w
      else
        let hash := JS.replace_first "#" h in
        let w := console_log ("Navigation clicked: " +:+ hash) w in
        match navMap_get hash with
        | Some target =>
            let w := emit PreventDefault w in
            match getElementById target w with
            | Some i =>
                let w := console_log ("Opening modal: " +:+ target) w in
                let w := console_log "Modal element:" w in
                let w := console_log "Modal computed style before:" w in
                let w := update_element i (set_display "flex") w in
                let w := update_element i (set_opacity "1") w in
                let w := update_element i (set_zIndex "10000") w in
                let w := console_log "Modal style after: flex" w in
                let w := console_log "Modal computed style after:" w in
                let w := emergency_button "flex" w in
                let w := update_element i (set_aria_hidden "false") w in
                let w := set_overflow "hidden" w in
                setTimeout (FocusFirstFocusable i) 100 w
            | None => console_error ("Modal not found: " +:+ target) w
            end
        | None =>
            if bool_decide (hash = "hero") then
              let w := emit PreventDefault w in
              emit (ScrollTo 0 "smooth") w
            else w
        end
  end.

(** The [setTimeout] callback of [nav_click]. *)
Definition focus_first_focusable (i : nat) (w : world) : world :=
  match elements w !! i with
  | Some e =>
      match focusables e with
      | t :: _ => focus (Inside i (ft_index t)) w
      | [] => w
      end
  | None => w
  end.

(** The inline [style] attribute contains [sub]. *)
Definition style_attribute_has (sub : string) (e : element) : bool :=
  JS.includes sub (markup_style e) || JS.includes sub (display e)
  || JS.includes sub (opacity e) || JS.includes sub (zIndex e).

(** [document.querySelector('.modal[style*="flex"]')]. *)
Definition open_modal_by_style (w : world) : option nat :=
  fst <$> list_find
            (fun e => is_modal e = true /\ style_attribute_has "flex" e = true)
            (elements w).

(** The click listener of a [.close] control. *)
Definition close_click (b : close_button) (w : world) : world :=
  let w := emit PreventDefault w in
  let w := emit StopPropagation w in
  let w := emit StopImmediatePropagation w in
  let w := console_log "Close button clicked" w in
  let w := console_log "Event target:" w in
  let w := console_log "Button element:" w in
  let by_closest w :=
    match closest_modal b with
    | Some i =>
        closeModal i
          (console_log ("Closing modal by closest: " +:+ element_id i w) w)
    | None =>
        closeAllModals
          (console_error
             "Could not find modal to close - using emergency close" w)
    end in
  match open_modal_by_style w with
  | Some i =>
      closeModal i
        (console_log ("Force closing open modal: " +:+ element_id i w) w)
  | None =>
      match data_modal b with
      | Some modalId =>
          match getElementById modalId w with
          | Some i =>
              closeModal i
                (console_log ("Closing modal by data-modal: " +:+ modalId) w)
          | None => by_closest w
          end
      | None => by_closest w
      end
  end.

(** The click listener of the modal [i]; [target] is [e.target]. *)
Definition modal_click (i : nat) (target : node) (w : world) : world :=
  let w := console_log "Modal clicked, target:" w in
  if bool_decide (target = Element i) then
    closeModal i
      (console_log ("Backdrop clicked, closing modal: " +:+ element_id i w) w)
  else w.

(** The [keydown] listener of the document. *)
Definition keydown (key : string) (w : world) : world :=
  let w := console_log ("Key pressed: " +:+ key) w in
  if bool_decide (key = "Escape") then
    closeAllModals (console_log "Escape key pressed - emergency close" w)
  else w.

End Basic.

(** ** The inline script of index.html *)

Module Inline.
Import Dom.

Definition navMap : gmap string string :=
  list_to_map
    [ ("experience", "modal-experience"); ("education", "modal-education");
      ("projects", "modal-projects"); ("skills", "modal-skills");
      ("contact", "modal-contact") ].

Definition navMap_get (hash : string) : option string :=
  match JS.get navMap hash with
  | JS.Own target => Some target
  | JS.Inherited name => Some (JS.inherited_to_string name)
  | JS.Undefined => None
  end.

(** The click listener of every [nav a]. *)
Definition nav_click (href : option string) (w : world) : world :=
  match href with
  | None =>
      emit (Uncaught "TypeError: Cannot read properties of null (reading 'replace')") w
  | Some h =>
      match navMap_get (JS.replace_first "#" h) with
      | Some target =>
          let w := emit PreventDefault w in
          match getElementById target w with
          | Some i => update_element i (set_display "flex") w
          | None =>
              emit (Uncaught "TypeError: Cannot read properties of null (reading 'style')") w
          end
      | None => w
      end
  end.

(** The click listener of a [.close] control; a missing [data-modal] is
    looked up as the id ["undefined"]. *)
Definition close_click (b : close_button) (w : world) : world :=
  match getElementById (default "undefined" (data_modal b)) w with
  | Some i => update_element i (set_display "none") w
  | None =>
      emit (Uncaught "TypeError: Cannot read properties of null (reading 'style')") w
  end.

(** The click listener of the modal [i]. *)
Definition modal_click (i : nat) (target : node) (w : world) : world :=
  if bool_decide (target = Element i) then update_element i (set_display "none") w
  else w.

End Inline.

(** ** The enhanced layer (UIComponents.js wired by app.js) *)

Module Enhanced.
Import Dom.

(** [getDefaultOptions()] of [Modal], for the element [i]. *)
Definition new_Modal (i : nat) : component :=
  {| element_of := i; closeOnEscape := true; closeOnBackdrop := true;
     focusTrap := true; animation := "fade"; animationDuration := 300;
     previouslyFocused := None |}.

Definition update_component (ci : nat) (f : component -> component) (w : world)
  : world :=
  set_components (alter f ci (components w)) w.

(** [Modal.isOpen()] of the component [ci]. *)
Definition isOpen (ci : nat) (w : world) : bool :=
  match components w !! ci with
  | Some c =>
      match elements w !! element_of c with
      | Some e => is_open e
      | None => false
      end
  | None => false
  end.

(** [Modal.render()]. *)
Definition render (ci : nat) (w : world) : world :=
  match components w !! ci with
  | Some c =>
      let i := element_of c in
      let w := update_element i (set_role "dialog") w in
      let w := update_element i (set_aria_modal "true") w in
      let w := update_element i (set_aria_hidden "true") w in
      update_element i (set_display "none") w
  | None => w
  end.

(** [Modal.applyAnimation(direction, callback)]; [finish_close] tells
    whether the callback of [close] was passed. *)
Definition applyAnimation (ci : nat) (direction : string) (finish_close : bool)
    (w : world) : world :=
  match components w !! ci with
  | Some c =>
      match elements w !! element_of c with
      | Some e =>
          match panel e with
          | Some classes =>
              let cls := "modal-" +:+ animation c +:+ "-" +:+ direction in
              let w := update_element (element_of c)
                         (set_panel (Some (classList_add cls classes))) w in
              setTimeout (AnimationEnd ci cls finish_close) (animationDuration c) w
          | None => w
          end
      | None => w
      end
  | None => w
  end.

(** [Modal.close()]. *)
Definition close (ci : nat) (w : world) : world :=
  if isOpen ci w then applyAnimation ci "out" true w else w.

(** The callback that [close] passes to [applyAnimation]. *)
Definition close_finish (ci : nat) (w : world) : world :=
  match components w !! ci with
  | Some c =>
      let i := element_of c in
      let w := update_element i (set_display "none") w in
      let w := update_element i (set_aria_hidden "true") w in
      let w := match previouslyFocused c with
               | Some n => focus n w
               | None => w
               end in
      let w := set_overflow EmptyString w in
      let w := set_activeModal None w in
      emit (Published "modal:closed" (element_id i w)) w
  | None => w
  end.

(** The [setTimeout] callback of [applyAnimation]. *)
Definition animation_end (ci : nat) (cls : string) (finish_close : bool)
    (w : world) : world :=
  match components w !! ci with
  | Some c =>
      let w := update_element (element_of c)
                 (fun e => set_panel (classList_remove cls <$> panel e) e) w in
      if finish_close then close_finish ci w else w
  | None => w
  end.

(** [PortfolioApp.components.get(key)]. *)
Definition registry_get (key : string) (w : world) : option nat :=
  snd <$> find (fun p => bool_decide (p.1 = key)) (registry w).

(** The subscriber of ['modal:close-all'] installed by
    [PortfolioApp.setupEventSystem]. *)
Definition close_all_subscriber (w : world) : world :=
  foldl (fun w p =>
           if JS.startsWith "modal-" p.1 && isOpen p.2 w then close p.2 w else w)
        w (registry w).

(** The subscriber of ['modal:opened'] installed by
    [PortfolioApp.setupModalHandlers]. *)
Definition trackModalUsage (modalId : string) (w : world) : world :=
  let w := emit (LoggerCall "info" ("Modal opened: " +:+ modalId)) w in
  emit (Published "analytics:modal-opened" modalId) w.

(** [Modal.getFocusableElements()]. *)
Definition getFocusableElements (i : nat) (w : world) : list focus_target :=
  match elements w !! i with
  | Some e =>
      filter (fun t => ft_disabled t = false /\
                       (rendered e && ft_laid_out t) = true)
             (focusables e)
  | None => []
  end.

(** [Modal.focusFirstElement()]. *)
Definition focusFirstElement (ci : nat) (w : world) : world :=
  match components w !! ci with
  | Some c =>
      match getFocusableElements (element_of c) w with
      | t :: _ => focus (Inside (element_of c) (ft_index t)) w
      | [] => w
      end
  | None => w
  end.

(** [Modal.open()]. *)
Definition open (ci : nat) (w : world) : world :=
  match components w !! ci with
  | Some c =>
      if isOpen ci w then w
      else
        let i := element_of c in
        let w := emit (Published "modal:close-all" EmptyString) w in
        let w := close_all_subscriber w in
        let w := update_component ci (set_previouslyFocused (Some (focused w))) w in
        let w := update_element i (set_display "flex") w in
        let w := update_element i (set_aria_hidden "false") w in
        let w := applyAnimation ci "in" false w in
        let w := setTimeout (FocusFirstElement ci) 50 w in
        let w := set_activeModal (Some (element_id i w)) w in
        let w := set_overflow "hidden" w in
        let w := emit (Published "modal:opened" (element_id i w)) w in
        trackModalUsage (element_id i w) w
  | None => w
  end.

(** The subscriber of ['modal:open'] installed by
    [PortfolioApp.setupEventSystem]. *)
Definition open_subscriber (modalId : string) (w : world) : world :=
  match registry_get modalId w with
  | Some ci => open ci w
  | None => w
  end.

Definition modalMap : gmap string string :=
  list_to_map
    [ ("experience", "modal-experience"); ("education", "modal-education");
      ("projects", "modal-projects"); ("skills", "modal-skills");
      ("contact", "modal-contact") ].

(** [Navigation.handleNavigation(link)] behind the click listener of a
    link whose [href] starts with [#].  [document.querySelector(href)] is an
    id lookup for a fragment that is a CSS identifier, which is the case of
    every link of the page; the bare [#] is not a selector, and the
    exception is caught and logged by the listener wrapper. *)
Definition handleNavigation (href : string) (w : world) : world :=
  let w := emit PreventDefault w in
  let section := JS.replace_first "#" href in
  match JS.get modalMap section with
  | JS.Own modalId =>
      open_subscriber modalId (emit (Published "modal:open" modalId) w)
  | JS.Inherited name =>
      emit (Published "modal:open" (JS.inherited_to_string name)) w
  | JS.Undefined =>
      if bool_decide (section = EmptyString) then
        emit (LoggerCall "error" "Error in event handler for click") w
      else
        match getElementById section w with
        | Some j =>
            set_currentSection section (emit (ScrollIntoView j "smooth") w)
        | None => w
        end
  end.

(** The [keydown] listener that the component [ci] puts on the document. *)
Definition keydown (ci : nat) (key : string) (w : world) : world :=
  match components w !! ci with
  | Some c =>
      if closeOnEscape c && bool_decide (key = "Escape") && isOpen ci w
      then close ci w else w
  | None => w
  end.

(** The click listener that the component [ci] puts on its element. *)
Definition backdrop_click (ci : nat) (target : node) (w : world) : world :=
  match components w !! ci with
  | Some c =>
      if closeOnBackdrop c && bool_decide (target = Element (element_of c))
      then close ci w else w
  | None => w
  end.

(** [map.set(key, v)] on an insertion-ordered [Map]. *)
Fixpoint map_set (key : string) (v : nat) (m : list (string * nat))
  : list (string * nat) :=
  match m with
  | [] => [(key, v)]
  | p :: m' =>
      if bool_decide (p.1 = key) then (key, v) :: m' else p :: map_set key v m'
  end.

(** [PortfolioApp.setupComponents]: one [Modal] per [.modal] element, in
    document order, rendered and registered under its id (or under a
    generated key that starts with [component-]). *)
Definition discover (w : world) : list nat :=
  fst <$> filter (fun p => is_modal p.2 = true) (imap pair (elements w)).

Definition setupComponents (w : world) : world :=
  let found := discover w in
  let w := set_components (new_Modal <$> found) w in
  let w := foldl (fun w ci => render ci w) w (seq 0 (length found)) in
  {| elements := elements w; nav := nav w; close_buttons := close_buttons w;
     overflow := overflow w; focused := focused w; detached := detached w;
     trace := trace w; now := now w; timers := timers w;
     enhanced_loaded := true; components := components w;
     registry :=
       foldl (fun m p =>
                let key := element_id p.2 w in
                map_set (if bool_decide (key = EmptyString)
                         then "component-" +:+ pretty p.1 else key) p.1 m)
             [] (imap pair found);
     activeModal := activeModal w; currentSection := currentSection w |}.

End Enhanced.

(** ** The page: every attached layer reacts to an event *)

Module Page.
Import Dom.

Definition run_task (t : task) (w : world) : world :=
  match t with
  | FocusFirstFocusable i => Basic.focus_first_focusable i w
  | FocusFirstElement ci => Enhanced.focusFirstElement ci w
  | AnimationEnd ci cls finish_close => Enhanced.animation_end ci cls finish_close w
  end.

(** [dt] milliseconds pass: the timers that are due run in the order of
    their due times, each as a task of its own. *)
Definition advance (dt : nat) (w : world) : world :=
  let t := now w + dt in
  let due := filter (fun p => p.1 <= t) (timers w) in
  let later := filter (fun p => ~ p.1 <= t) (timers w) in
  foldl (fun w p => fixup (run_task p.2 w))
        (set_now t (set_timers later w)) (order_by_due due).

Inductive event :=
| ClickNav (n : nat)                    (* activate the [n]-th [nav a] *)
| ClickClose (b : nat)                  (* click the [b]-th [.close] control *)
| ClickModal (i : nat) (target : node)  (* click in the modal [i], on its root
                                           or on a descendant other than a
                                           [.close] control *)
| KeyDown (key : string)
| UserFocus (n : node)                  (* the user moves the focus *)
| Detach (n : node)                     (* a node leaves the document *)
| Elapse (dt : nat).

(** The listeners of one target run in the order of their registration:
    main.js first, then the inline script, then the components of app.js
    once it is loaded. *)
Definition handle (ev : event) (w : world) : world :=
  match ev with
  | ClickNav n =>
      match nav w !! n with
      | Some href =>
          let hash_link := match href with
                           | Some h => JS.startsWith "#" h
                           | None => false
                           end in
          let w := if hash_link then Basic.nav_click href w else w in
          let w := Inline.nav_click href w in
          if enhanced_loaded w && hash_link
          then Enhanced.handleNavigation (default EmptyString href) w
          else w
      | None => w
      end
  | ClickClose b =>
      (* [stopImmediatePropagation] of main.js: no later listener runs *)
      match close_buttons w !! b with
      | Some btn => Basic.close_click btn w
      | None => w
      end
  | ClickModal i target =>
      match elements w !! i with
      | Some e =>
          if is_modal e then
            let w := Basic.modal_click i target w in
            let w := Inline.modal_click i target w in
            if enhanced_loaded w then
              foldl (fun w ci =>
                       match components w !! ci with
                       | Some c => if bool_decide (element_of c = i)
                                   then Enhanced.backdrop_click ci target w
                                   else w
                       | None => w
                       end)
                    w (seq 0 (length (components w)))
            else w
          else w
      | None => w
      end
  | KeyDown key =>
      let w := Basic.keydown key w in
      if enhanced_loaded w then
        foldl (fun w ci => Enhanced.keydown ci key w)
              w (seq 0 (length (components w)))
      else w
  | UserFocus n => focus n w
  | Detach n => set_detached (n :: detached w) w
  | Elapse dt => advance dt w
  end.

Definition step (w : world) (ev : event) : world := fixup (handle ev w).

Definition run (evs : list event) (w : world) : world := foldl step w evs.

(** The modals in the Open state. *)
Definition open_modals (w : world) : list nat :=
  fst <$> filter (fun p => is_modal p.2 = true /\ is_open p.2 = true)
                 (imap pair (elements w)).

(** *** The document of index.html *)

Definition section_element (name style disp : string) : element :=
  {| id := name; is_modal := false; markup_style := style; display := disp;
     opacity := EmptyString; zIndex := EmptyString; aria_hidden := None;
     role := None; aria_modal := None; panel := None; focusables := [] |}.

Definition modal_element (name style : string) (links : list focus_target)
  : element :=
  {| id := name; is_modal := true; markup_style := style;
     display := EmptyString; opacity := EmptyString; zIndex := EmptyString;
     aria_hidden := None; role := None; aria_modal := None;
     panel := Some ["modal-content"]; focusables := links |}.

Definition index_html : world :=
  {| elements :=
       [ section_element "hero" "text-align:center; margin-bottom:2.5rem;"
           EmptyString;
         section_element "about" EmptyString EmptyString;
         section_element "resume" "text-align:center; margin:2.5rem 0;" "none";
         modal_element "modal-experience" EmptyString [];
         modal_element "modal-education" EmptyString [];
         modal_element "modal-projects" "align-items: flex-start;" [];
         modal_element "modal-skills" EmptyString [];
         modal_element "modal-contact" EmptyString
           [ FocusTarget 3 false true; FocusTarget 6 false true;
             FocusTarget 8 false true ] ];
     nav := [ Some "#hero"; Some "#experience"; Some "#education";
              Some "#projects"; Some "#skills"; Some "#contact"; Some "#";
              Some "assets/resume.pdf"; Some "assets/resume.pdf" ];
     close_buttons :=
       [ CloseButton (Some "modal-experience") (Some 3);
         CloseButton (Some "modal-education") (Some 4);
         CloseButton (Some "modal-projects") (Some 5);
         CloseButton (Some "modal-skills") (Some 6);
         CloseButton (Some "modal-contact") (Some 7) ];
     overflow := EmptyString;
     focused := Body;
     detached := [];
     trace := [];
     now := 0;
     timers := [];
     enhanced_loaded := false;
     components := [];
     registry := [];
     activeModal := None;
     currentSection := "hero" |}.

(** The page as it would be once [import('./app.js')] had succeeded and
    [PortfolioApp.setupComponents] had run.  With the files as they are the
    import is rejected (portfolioConfig.js exports [portfolioConfig] twice,
    and ComponentFactory.js in scripts/factories imports [./UIComponents.js],
    a file of scripts/components); [loadAdvancedModules] catches the
    rejection with a warning and the page stays [index_html]. *)
Definition index_html_enhanced : world := Enhanced.setupComponents index_html.

End Page.

(** ** The statements of the specification *)

Module Spec.
Import Dom.

(** At most one modal is in the Open state. *)
Definition at_most_one_open (w : world) : Prop :=
  length (Page.open_modals w) <= 1.

Definition none_open (w : world) : bool :=
  bool_decide (Page.open_modals w = []).

(** The element [#emergency-close], when the page has one, is not a modal. *)
Definition emergency_not_modal (w : world) : bool :=
  match getElementById "emergency-close" w with
  | Some j =>
      match elements w !! j with
      | Some e => negb (is_modal e)
      | None => true
      end
  | None => true
  end.

(** Every key of [PortfolioApp.components] is the id by which the document
    finds the element of the registered component. *)
Definition registry_consistent (w : world) : bool :=
  forallb (fun p => match components w !! p.2 with
                    | Some c =>
                        bool_decide (getElementById p.1 w = Some (element_of c))
                    | None => true
                    end)
          (registry w).

Definition well_formed (w : world) : bool :=
  emergency_not_modal w && registry_consistent w.

(** The element that activating the [n]-th navigation link shows. *)
Definition target_index (w : world) (n : nat) : option nat :=
  match nav w !! n with
  | Some (Some h) =>
      match Basic.navMap_get (JS.replace_first "#" h) with
      | Some target => getElementById target w
      | None => None
      end
  | _ => None
  end.

(** Activating the [n]-th link cannot show a second modal: the link
    stands for no element, or every Open modal is the element it stands
    for. *)
Definition link_keeps_one (w : world) (n : nat) : bool :=
  match target_index w n with
  | Some k => forallb (fun i => bool_decide (i = k)) (Page.open_modals w)
  | None => true
  end.

(** A sequence of events in which a navigation link that stands for a
    modal is only activated while no other modal is Open. *)
Fixpoint guarded (evs : list Page.event) (w : world) : bool :=
  match evs with
  | [] => true
  | ev :: evs' =>
      match ev with
      | Page.ClickNav n => link_keeps_one w n
      | _ => true
      end && guarded evs' (Page.step w ev)
  end.

(** An event of the given name was published on the event bus. *)
Definition published (event : string) (w : world) : bool :=
  existsb (fun x => match x with
                    | Published ev _ => bool_decide (ev = event)
                    | _ => false
                    end)
          (trace w).

(** An element keeps its id and its class, and a modal enters the Open
    state only at a position that [allowed] names. *)
Definition grows (allowed : nat -> Prop) (k : nat) (e e' : element) : Prop :=
  id e' = id e /\ is_modal e' = is_modal e /\
  (is_modal e = true -> is_open e' = true -> is_open e = true \/ allowed k).

(** What no handler changes: the links, the registry of the application
    and the element of each component. *)
Definition static_eq (w w' : world) : Prop :=
  nav w' = nav w /\ registry w' = registry w /\
  enhanced_loaded w' = enhanced_loaded w /\
  element_of <$> components w' = element_of <$> components w.

(** [rel R w w']: the two documents have the same number of elements, each
    element of [w'] is related by [R] to the element of [w] at the same
    position, and the static part is the same. *)
Definition rel (R : nat -> element -> element -> Prop) (w w' : world) : Prop :=
  (forall k, match elements w !! k, elements w' !! k with
             | Some e, Some e' => R k e e'
             | None, None => True
             | _, _ => False
             end) /\
  static_eq w w'.

(** A relation on elements that tolerates what opening a modal at an
    allowed position does to the document. *)
Class Shows (R : nat -> element -> element -> Prop) (allowed : nat -> Prop) := {
  shows_refl : forall k e, R k e e;
  shows_trans : forall k e1 e2 e3, R k e1 e2 -> R k e2 e3 -> R k e1 e3;
  shows_panel : forall k e v, R k e (set_panel v e);
  shows_display : forall k e, allowed k -> R k e (set_display "flex" e);
  shows_aria : forall k e, allowed k -> R k e (set_aria_hidden "false" e)
}.

(** The target of a link is allowed. *)
Definition links_allowed (allowed : nat -> Prop) (href : option string)
    (w : world) : Prop :=
  forall h t k, href = Some h ->
    Basic.navMap_get (JS.replace_first "#" h) = Some t ->
    getElementById t w = Some k -> allowed k.

(** The element of the component registered for a link is allowed. *)
Definition registry_allowed (allowed : nat -> Prop) (h : string) (w : world)
  : Prop :=
  forall key ci c,
    JS.get Enhanced.modalMap (JS.replace_first "#" h) = JS.Own key ->
    Enhanced.registry_get key w = Some ci ->
    components w !! ci = Some c -> allowed (element_of c).

(** An element that is shown stays shown, one that is hidden stays hidden. *)
Definition stays_shown (k : nat) (e e' : element) : Prop :=
  (display e = "flex" -> display e' = "flex") /\
  (aria_hidden e = Some "false" -> aria_hidden e' = Some "false").

Definition stays_hidden (k : nat) (e e' : element) : Prop :=
  (display e = "none" -> display e' = "none") /\
  (aria_hidden e = Some "true" -> aria_hidden e' = Some "true").

(** The element [i] is shown, or hidden, with the matching ARIA state. *)
Definition shown (i : nat) (w : world) : Prop :=
  exists e, elements w !! i = Some e /\ display e = "flex" /\
            aria_hidden e = Some "false".

Definition hidden (i : nat) (w : world) : Prop :=
  exists e, elements w !! i = Some e /\ display e = "none" /\
            aria_hidden e = Some "true".

(** Between [Modal.open] and the end of [Modal.close]: the component [ci],
    made as [c0], remembers [prev], and its element is shown and has its
    content panel. *)
Definition opened (ci : nat) (c0 : component) (prev : node) (w : world) : Prop :=
  components w !! ci = Some (set_previouslyFocused (Some prev) c0) /\
  exists e, elements w !! element_of c0 = Some e /\ display e = "flex" /\
            is_Some (panel e).

(** Timers other than the end of a closing animation. *)
Definition calm_task (t : task) : Prop :=
  match t with
  | AnimationEnd _ _ true => False
  | _ => True
  end.

Definition calm (w : world) : Prop := Forall (fun p => calm_task p.2) (timers w).

(** What holds from [Modal.open] until the closing animation ends; [D] and
    [N] are the detached nodes and the links of the page. *)
Definition steady (ci : nat) (c0 : component) (prev : node) (D : list node)
    (N : list (option string)) (w : world) : Prop :=
  opened ci c0 prev w /\ detached w = D /\ nav w = N.

(** What a handler added to the trace. *)
Definition added (before after : world) : list effect :=
  drop (length (trace before)) (trace after).

(** The viewport is sent to the top and no element is scrolled into view. *)
Definition scrolls_to_top_only (before after : world) : Prop :=
  ScrollTo 0 "smooth" ∈ added before after /\
  forall j b, ScrollIntoView j b ∉ added before after.

End Spec.

(** ** Logger: the reports ([getLogs], [getStats]) *)

Module LoggerQueries.
Import Logger.

(** [Object.keys(this.levels)], in insertion order. *)
Definition level_names : list string := ["ERROR"; "WARN"; "INFO"; "DEBUG"].

(** [getLogs(level)]; [None] is [null], and the empty string is falsy too. *)
Definition getLogs (lvl : option string) (s : t) : list entry :=
  match lvl with
  | Some l =>
      if bool_decide (l = EmptyString) then logs s
      else filter (fun e => level e = l) (logs s)
  | None => logs s
  end.

Record stats := Stats {
  total : nat;
  byLevel : list (string * nat)     (* one property per level name *)
}.

(** [getStats()]. *)
Definition getStats (s : t) : stats :=
  {| total := length (logs s);
     byLevel :=
       (fun l => (l, length (filter (fun e => level e = l) (logs s))))
         <$> level_names |}.

(** The level is a number. *)
Definition is_number (v : level_value) : bool :=
  match v with
  | Number _ => true
  | InheritedValue _ => false
  end.

(** A call that does not set the level to a value inherited from
    [Object.prototype]. *)
Definition numeric_level (c : call) : bool :=
  match c with
  | CSetLevel lvl => negb (bool_decide (lvl ∈ JS.object_prototype))
  | _ => true
  end.

(** A call of [error], [warn], [info], [debug] or [clear]. *)
Definition level_method_or_clear (c : call) : bool :=
  match c with
  | CError _ _ _ | CWarn _ _ _ | CInfo _ _ _ | CDebug _ _ _ | CClear => true
  | CLog _ _ _ _ | CSetLevel _ => false
  end.

Definition is_clear (c : call) : bool :=
  match c with
  | CClear => true
  | _ => false
  end.

End LoggerQueries.

(** ** EventBus: [listenerCount] *)

Module EventBusQueries.
Import EventBus.



End EventBusQueries.

(** ** ErrorHandler (utils/ErrorHandler.js): queue, handlers, retries *)

Module ErrorHandler.

(** A [PortfolioError] as the handler reads it: its [code] and the text
    [JSON.stringify(error.context)]. *)
Record error := Error {
  code : string;
  context_json : string;
  message : string
}.

(** A handler is a function object, found by identity ([indexOf]). *)
Definition handler := nat.

Record t := ErrorHandler {
  handlers : gmap string (list handler);     (* a [Map] *)
  errorQueue : list error;
  maxQueueSize : nat;
  retryAttempts : gmap string nat            (* a [Map] *)
}.

Definition constructor : t :=
  {| handlers := ∅; errorQueue := []; maxQueueSize := 100; retryAttempts := ∅ |}.

Definition set_handlers (v : gmap string (list handler)) (s : t) : t :=
  {| handlers := v; errorQueue := errorQueue s; maxQueueSize := maxQueueSize s;
     retryAttempts := retryAttempts s |}.

Definition set_errorQueue (v : list error) (s : t) : t :=
  {| handlers := handlers s; errorQueue := v; maxQueueSize := maxQueueSize s;
     retryAttempts := retryAttempts s |}.

Definition set_retryAttempts (v : gmap string nat) (s : t) : t :=
  {| handlers := handlers s; errorQueue := errorQueue s;
     maxQueueSize := maxQueueSize s; retryAttempts := v |}.

(** [registerHandler(errorCode, handler)]. *)
Definition registerHandler (errorCode : string) (h : handler) (s : t) : t :=
  set_handlers
    (<[errorCode := default [] (handlers s !! errorCode) ++ [h]]> (handlers s)) s.

(** [handlers.indexOf(h)] followed by [handlers.splice(index, 1)]: the first
    occurrence is removed. *)
Fixpoint remove_first (h : handler) (l : list handler) : list handler :=
  match l with
  | [] => []
  | x :: l' => if bool_decide (x = h) then l' else x :: remove_first h l'
  end.

(** [unregisterHandler(errorCode, handler)]. *)
Definition unregisterHandler (errorCode : string) (h : handler) (s : t) : t :=
  match handlers s !! errorCode with
  | Some l => set_handlers (<[errorCode := remove_first h l]> (handlers s)) s
  | None => s
  end.

(** [addToQueue(error)]: [push], then one [shift] when the queue is too long. *)
Definition addToQueue (e : error) (s : t) : t :=
  let pushed := errorQueue s ++ [e] in
  set_errorQueue
    (if (maxQueueSize s <? length pushed)%nat then tail pushed else pushed) s.

(** [clearQueue()]. *)
Definition clearQueue (s : t) : t :=
  set_retryAttempts ∅ (set_errorQueue [] s).




(** A delay in milliseconds; [Math.pow(2, attempts) * 1000] is exact up to
    [attempts = 1014] and [Infinity] beyond. *)
Inductive delay :=
| Millis (n : N)
| Infinity.




End ErrorHandler.

(** ** BaseComponent: the names of data attributes ([getData], [setData]) *)

Module BaseComponent.

Definition is_upper (c : ascii) : bool :=
  let n := Ascii.nat_of_ascii c in (65 <=? n)%nat && (n <=? 90)%nat.

Definition is_lower (c : ascii) : bool :=
  let n := Ascii.nat_of_ascii c in (97 <=? n)%nat && (n <=? 122)%nat.

(** [c.toUpperCase()] on an ASCII character. *)
Definition upper_ascii (c : ascii) : ascii :=
  if is_lower c then Ascii.ascii_of_nat (Ascii.nat_of_ascii c - 32) else c.

(** [key.replace(/([A-Z])/g, '-$1')]. *)
Fixpoint dash_upper (key : string) : string :=
  match key with
  | EmptyString => EmptyString
  | String c key' =>
      if is_upper c then String "-" (String c (dash_upper key'))
      else String c (dash_upper key')
  end.

(** The attribute that [setData(key, value)] sets. *)
Definition data_attribute (key : string) : string :=
  "data-" +:+ JS.toLowerCase (dash_upper key).

(** [s.replace(/-([a-z])/g, (g) => g[1].toUpperCase())]. *)
Fixpoint camel (s : string) : string :=
  match s with
  | EmptyString => EmptyString
  | String c s' =>
      if bool_decide (c = "-"%char) then
        match s' with
        | String d s'' =>
            if is_lower d then String (upper_ascii d) (camel s'')
            else String c (camel s')
        | EmptyString => String c EmptyString
        end
      else String c (camel s')
  end.

(** The key under which [getData()] reports the attribute [name], when it
    reports it. *)
Definition data_key (name : string) : option string :=
  if JS.startsWith "data-" name then Some (camel (JS.skip 5 name)) else None.

(** [getData()] on the attributes of the element, in their order; the
    assignment [data['__proto__'] = value] of a string leaves no property. *)
Definition getData (attributes : list (string * string)) : gmap string string :=
  foldl (fun data attr =>
           match data_key attr.1 with
           | Some key =>
               if bool_decide (key = "__proto__") then data
               else <[key := attr.2]> data
           | None => data
           end)
        ∅ attributes.

(** [element.setAttribute(name, value)] on the attributes of the element:
    the value of the attribute of that name is replaced, or a new attribute
    is appended. *)
Definition setAttribute (name value : string)
    (attributes : list (string * string)) : list (string * string) :=
  if bool_decide (name ∈ attributes.*1)
  then (fun a => if bool_decide (a.1 = name) then (name, value) else a)
         <$> attributes
  else attributes ++ [(name, value)].

(** [setData(key, value)]. *)
Definition setData (key value : string) (attributes : list (string * string))
  : list (string * string) :=
  setAttribute (data_attribute key) value attributes.

Definition is_digit (c : ascii) : bool :=
  let n := Ascii.nat_of_ascii c in (48 <=? n)%nat && (n <=? 57)%nat.

(** A key made of ASCII letters and digits, as the camel-case keys are;
    the attribute name made from it is one [setAttribute] accepts. *)
Fixpoint alphanumeric (s : string) : bool :=
  match s with
  | EmptyString => true
  | String c s' => (is_upper c || is_lower c || is_digit c) && alphanumeric s'
  end.

(** Text made of ASCII characters. *)
Fixpoint ascii_only (s : string) : bool :=
  match s with
  | EmptyString => true
  | String c s' => (Ascii.nat_of_ascii c <? 128)%nat && ascii_only s'
  end.

(** No hyphen is followed by a lower-case letter. *)
Fixpoint no_dash_lower (s : string) : bool :=
  match s with
  | EmptyString => true
  | String c s' =>
      match s' with
      | String d _ => negb (bool_decide (c = "-"%char) && is_lower d)
      | EmptyString => true
      end && no_dash_lower s'
  end.

(** No upper-case letter: the names of the attributes of an HTML element. *)
Fixpoint no_upper (s : string) : bool :=
  match s with
  | EmptyString => true
  | String c s' => negb (is_upper c) && no_upper s'
  end.

End BaseComponent.

(** ** Navigation: scroll spy and the highlighted link *)

Module Navigation.

Local Open Scope Z_scope.


(** An [a] element of the navigation: its [href] attribute and its class
    list. *)
Record link := Link {
  href : option string;
  classes : list string
}.

Record t := Navigation {
  links : list link;
  currentSection : string       (* [AppState.state.navigation.currentSection] *)
}.



(** Whether [a[href^="#"]] selects the link. *)
Definition hash_link (l : link) : bool :=
  match href l with
  | Some h => JS.startsWith "#" h
  | None => false
  end.

(** [updateActiveNavigation(activeSection)]. *)
Definition updateActiveNavigation (active : string) (ls : list link) : list link :=
  (fun l =>
     if hash_link l then
       if bool_decide (JS.skip 1 (default EmptyString (href l)) = active)
       then {| href := href l; classes := Dom.classList_add "active" (classes l) |}
       else {| href := href l; classes := Dom.classList_remove "active" (classes l) |}
     else l) <$> ls.



End Navigation.


(** ** The focus trap of the enhanced modal ([Modal.handleFocusTrap]) *)

Module FocusTrap.
Import Dom.

(** [Modal.handleFocusTrap(e)] of the component [ci], for [e.key] and
    [e.shiftKey]. *)
Definition handleFocusTrap (ci : nat) (key : string) (shiftKey : bool)
    (w : world) : world :=
  match components w !! ci with
  | Some c =>
      if bool_decide (key = "Tab") then
        let i := element_of c in
        match Enhanced.getFocusableElements i w with
        | [] => w
        | firstElement :: rest =>
            let lastElement := default firstElement (last rest) in
            if shiftKey then
              if bool_decide (focused w = Inside i (ft_index firstElement))
              then focus (Inside i (ft_index lastElement)) (emit PreventDefault w)
              else w
            else
              if bool_decide (focused w = Inside i (ft_index lastElement))
              then focus (Inside i (ft_index firstElement)) (emit PreventDefault w)
              else w
        end
      else w
  | None => w
  end.

(** The [keydown] listener that [setupEventListeners] puts on the element
    when the option [focusTrap] is set. *)
Definition keydown (ci : nat) (key : string) (shiftKey : bool) (w : world)
  : world :=
  match components w !! ci with
  | Some c => if focusTrap c then handleFocusTrap ci key shiftKey w else w
  | None => w
  end.

(** The descendants of the element [i] that match the selector of
    [getFocusableElements] are in the document and are distinct nodes. *)
Definition descendants_attached (i : nat) (w : world) : Prop :=
  match elements w !! i with
  | Some e =>
      NoDup (ft_index <$> focusables e) /\
      Forall (fun t => Inside i (ft_index t) ∉ detached w) (focusables e)
  | None => True
  end.

End FocusTrap.

(** * Properties *)

(** ** The definitions on small inputs *)

Module Examples.
Import Dom.

Example replace_first_hash : JS.replace_first "#" "#projects" = "projects".
Proof. reflexivity. Qed.

Example replace_first_prefix :
  JS.replace_first "modal-" "modal-projects" = "projects".
Proof. reflexivity. Qed.

Example includes_flex_start : JS.includes "flex" "align-items: flex-start;" = true.
Proof. reflexivity. Qed.

Example get_own : JS.get Basic.navMap "skills" = JS.Own "modal-skills".
Proof. vm_compute. reflexivity. Qed.

Example get_inherited : JS.get Basic.navMap "toString" = JS.Inherited "toString".
Proof. vm_compute. reflexivity. Qed.

Example get_undefined : JS.get Basic.navMap "hero" = @JS.Undefined string.
Proof. vm_compute. reflexivity. Qed.

Example slice_last_two : JS.slice_from_end 2 [1; 2; 3; 4] = [3; 4].
Proof. reflexivity. Qed.

(** A fresh logger takes [info] and [error], not [debug]; only the error
    carries a stack. *)
Example logger_three_calls :
  let e := Logger.Env "2025-01-01T00:00:00.000Z" "Error at main" in
  Logger.logs
    (Logger.run [ Logger.CInfo e "ready" None; Logger.CDebug e "noise" None;
                  Logger.CError e "failed" (Some "why") ] Logger.constructor)
  = [ Logger.Entry "2025-01-01T00:00:00.000Z" "INFO" "ready" None None;
      Logger.Entry "2025-01-01T00:00:00.000Z" "ERROR" "failed" (Some "why")
        (Some "Error at main") ].
Proof. vm_compute. reflexivity. Qed.

(** The timers of [open] fire in the order of their due times. *)
Example order_by_due_sample :
  order_by_due [ (300, AnimationEnd 0 "modal-fade-in" false);
                 (50, FocusFirstElement 0); (300, FocusFirstFocusable 1) ]
  = [ (50, FocusFirstElement 0); (300, AnimationEnd 0 "modal-fade-in" false);
      (300, FocusFirstFocusable 1) ].
Proof. reflexivity. Qed.

(** index.html: the link to the projects opens the sixth element. *)
Example click_projects :
  let w := Page.step Page.index_html (Page.ClickNav 3) in
  Page.open_modals w = [5] /\ overflow w = "hidden" /\
  timers w = [(100, FocusFirstFocusable 5)].
Proof. vm_compute. done. Qed.

(** The enhanced components register the five modals under their ids. *)
Example enhanced_registry :
  registry Page.index_html_enhanced
  = [ ("modal-experience", 0); ("modal-education", 1); ("modal-projects", 2);
      ("modal-skills", 3); ("modal-contact", 4) ].
Proof. vm_compute. reflexivity. Qed.

(** The contact modal takes the focus on its first link after 100 ms, and
    Escape gives the page back. *)
Example open_contact_then_escape :
  let w1 := Page.run [Page.UserFocus (NavLink 5); Page.ClickNav 5;
                      Page.Elapse 100] Page.index_html in
  let w2 := Page.step w1 (Page.KeyDown "Escape") in
  focused w1 = Inside 7 3 /\ Page.open_modals w1 = [7] /\
  Page.open_modals w2 = [] /\ overflow w2 = EmptyString /\ focused w2 = Body.
Proof. vm_compute. done. Qed.

End Examples.

Module LoggerProps.
Import Logger.

Lemma most_recent_length {A : Type} (n : nat) (h : list A) :
  length (most_recent n h) = n `min` length h.
Proof. unfold most_recent. rewrite length_drop. lia. Qed.

Lemma most_recent_snoc {A : Type} (n : nat) (h : list A) (x : A) :
  0 < n ->
  most_recent n (most_recent n h ++ [x]) = most_recent n (h ++ [x]).
Proof.
  intros Hn. unfold most_recent.
  rewrite !length_app, length_drop. simpl.
  destruct (decide (length h <= n)) as [Hle | Hgt].
  - replace (length h - n) with 0 by lia. rewrite drop_0.
    replace (length h - 0 + 1 - n) with (length h + 1 - n) by lia. done.
  - replace (length h - (length h - n) + 1 - n) with 1 by lia.
    rewrite (drop_app_le h [x] (length h + 1 - n)) by lia.
    rewrite (drop_app_le (drop _ h) [x] 1) by (rewrite length_drop; lia).
    rewrite drop_drop. f_equal. f_equal. lia.
Qed.

Lemma push_capped_recent (s : t) (x : entry) :
  0 < maxLogs s ->
  push_capped s x = most_recent (maxLogs s) (logs s ++ [x]).
Proof.
  intros Hm. unfold push_capped.
  destruct (Nat.ltb_spec (maxLogs s) (length (logs s ++ [x]))) as [Hlt | Hge].
  - unfold JS.slice_from_end, most_recent.
    destruct (maxLogs s) eqn:E; [lia | done].
  - unfold most_recent.
    replace (length (logs s ++ [x]) - maxLogs s) with 0 by lia.
    by rewrite drop_0.
Qed.

Lemma log_accepted (e : env) (lvl msg : string) (d : option string) (s : t) :
  0 < maxLogs s -> enabled lvl s = true ->
  logs (log e lvl msg d s).1
  = most_recent (maxLogs s) (logs s ++ [logEntry e lvl msg d]).
Proof.
  intros Hm He. unfold log. rewrite He.
  rewrite <- push_capped_recent by done.
  by destruct (console_member_of lvl).
Qed.

Lemma log_rejected (e : env) (lvl msg : string) (d : option string) (s : t) :
  enabled lvl s = false -> log e lvl msg d s = (s, Returned).
Proof. intros He. unfold log. by rewrite He. Qed.

Lemma log_maxLogs (e : env) (lvl msg : string) (d : option string) (s : t) :
  maxLogs (log e lvl msg d s).1 = maxLogs s.
Proof.
  unfold log. destruct (enabled lvl s); [| done].
  by destruct (console_member_of lvl).
Qed.

Lemma step_maxLogs (s : t) (c : call) : maxLogs (step s c).1 = maxLogs s.
Proof.
  destruct c; cbn [step fst]; unfold error, warn, info, debug;
    try apply log_maxLogs; [done |].
  unfold setLevel. by repeat case_match.
Qed.

Lemma step_refines (M : nat) (s : t) (c : call) (h : list entry) :
  0 < M -> maxLogs s = M -> logs s = most_recent M h ->
  logs (step s c).1
  = most_recent M (match c with CClear => [] | _ => h ++ accepted_by s c end).
Proof.
  intros HM Hs Hl.
  assert (Hlog : forall e lvl msg d,
    logs (log e lvl msg d s).1
    = most_recent M (h ++ (if enabled lvl s then [logEntry e lvl msg d] else []))).
  { intros e lvl msg d. destruct (enabled lvl s) eqn:He.
    - rewrite log_accepted by (done || lia).
      rewrite Hs, Hl. by apply most_recent_snoc.
    - rewrite log_rejected by done. by rewrite app_nil_r. }
  destruct c; cbn [step accepted_by fst]; unfold error, warn, info, debug;
    try apply Hlog.
  - done.
  - rewrite app_nil_r. unfold setLevel. by repeat case_match.
Qed.

Lemma run_refines (M : nat) (cs : list call) (s : t) (h : list entry) :
  0 < M -> maxLogs s = M -> logs s = most_recent M h ->
  maxLogs (run cs s) = M /\
  logs (run cs s) = most_recent M (uncapped cs s h).
Proof.
  intros HM. revert s h.
  induction cs as [| c cs IH]; intros s h Hs Hl; [done |].
  cbn [run foldl uncapped]. apply IH.
  - by rewrite step_maxLogs.
  - by apply step_refines.
Qed.

(** A call throws only as [log('__proto__', ...)], after its entry has
    been stored; the four level methods and [clear] always return. *)
Lemma step_throws (s : t) (c : call) (err : string) :
  (step s c).2 = Threw err ->
  exists e msg d, c = CLog e "__proto__" msg d /\ enabled "__proto__" s = true
    /\ logs (step s c).1 = push_capped s (logEntry e "__proto__" msg d).
Proof.
  assert (Hlog : forall e lvl msg d,
    (log e lvl msg d s).2 = Threw err ->
    lvl = "__proto__" /\ enabled lvl s = true /\
    logs (log e lvl msg d s).1 = push_capped s (logEntry e lvl msg d)).
  { intros e lvl msg d. unfold log, console_member_of.
    destruct (enabled lvl s); [| done].
    repeat case_bool_decide; done. }
  destruct c; cbn [step snd fst]; unfold error, warn, info, debug;
    try done; intros H; apply Hlog in H as (Hl & He & Hp);
    try discriminate.
  subst lvl. by exists e, msg, d.
Qed.

(** With the level set to an inherited value the comparison is one of
    strings: [log('hasOwnProperty', ...)] is stored without console
    output, and [log('__proto__', ...)] is stored and then throws. *)
Example inherited_level_accepts :
  let e := Env "2025-01-01T00:00:00.000Z" "Error at main" in
  let cs := [ CSetLevel "toString"; CInfo e "ready" None;
              CLog e "hasOwnProperty" "a" None; CLog e "__proto__" "b" None ] in
  logs (run cs constructor)
  = [ Entry "2025-01-01T00:00:00.000Z" "hasOwnProperty" "a" None None;
      Entry "2025-01-01T00:00:00.000Z" "__proto__" "b" None None ] /\
  console (run cs constructor) = [] /\
  outcomes cs constructor
  = [ Returned; Returned; Returned;
      Threw "TypeError: console[consoleMethod] is not a function" ].
Proof. vm_compute. done. Qed.

(** C10.  After any sequence of calls of [error], [warn], [info], [debug],
    [log], [clear] (and [setLevel]) on a fresh logger, whether the calls
    return or throw, [maxLogs] is still 1000, the [logs] array holds at
    most 1000 entries, and it holds exactly the most recent 1000 of the
    entries accepted since the last [clear]: the oldest ones are the ones
    dropped. *)
Theorem logs_capped_oldest_first (cs : list call) :
  maxLogs (run cs constructor) = 1000 /\
  length (logs (run cs constructor)) <= maxLogs (run cs constructor) /\
  logs (run cs constructor) = most_recent 1000 (uncapped cs constructor []).
Proof.
  destruct (run_refines 1000 cs constructor []) as [Hm Hl]; [lia | done | done |].
  split; [done |]. split; [| done].
  rewrite Hm, Hl, most_recent_length. lia.
Qed.

End LoggerProps.

Module EventBusProps.
Import EventBus.

Section bus.

Context {D W : Type}.
Variable behaviour : callback -> D -> state W -> state W * outcome.

Local Abbreviation guarded_call := (guarded_call behaviour).

Lemma guarded_call_returns (event : string) (d : D) (cb : callback) (s : state W) :
  (guarded_call event d cb s).2 = Returned /\
  calls (guarded_call event d cb s).1 = calls s ++ [cb].
Proof.
  unfold guarded_call, try_catch, invoke.
  destruct (behaviour cb d s) as [s1 [| err]]; done.
Qed.

Lemma forEach_guarded (event : string) (d : D) (cbs : list callback) (s : state W) :
  (forEach (guarded_call event d) cbs s).2 = Returned /\
  calls (forEach (guarded_call event d) cbs s).1 = calls s ++ cbs.
Proof.
  revert s. induction cbs as [| cb rest IH]; intros s; cbn [forEach].
  - by rewrite app_nil_r.
  - destruct (guarded_call_returns event d cb s) as [Ho Hc].
    destruct (guarded_call event d cb s) as [s1 o]. cbn in Ho, Hc. subst o.
    destruct (IH s1) as [Ho' Hc']. split; [done |].
    rewrite Hc', Hc. by rewrite <- app_assoc.
Qed.

(** An event name that nobody subscribed to and that [Object.prototype]
    does not define: [publish] returns and the state is the same. *)
Lemma publish_no_subscribers (event : string) (d : D) (s : state W) :
  events s !! event = None -> event ∉ JS.object_prototype ->
  publish behaviour event d s = (s, Returned).
Proof.
  intros Hnone Hproto. unfold publish, JS.get. rewrite Hnone.
  by rewrite bool_decide_eq_false_2.
Qed.

(** Every subscriber of the event is invoked, in subscription order,
    whether or not earlier ones threw, and [publish] itself returns. *)
Lemma publish_invokes_all (event : string) (d : D) (cbs : list callback)
    (s : state W) :
  events s !! event = Some cbs ->
  (publish behaviour event d s).2 = Returned /\
  calls (publish behaviour event d s).1 = calls s ++ cbs.
Proof.
  intros Hsome. unfold publish, JS.get. rewrite Hsome.
  apply (forEach_guarded event d cbs s).
Qed.

(** A callback that throws leaves a line on the console and nothing else
    of the exception. *)
Lemma guarded_call_logs (event : string) (d : D) (cb : callback) (s s1 : state W)
    (err : string) :
  behaviour cb d s = (s1, Threw err) ->
  console (guarded_call event d cb s).1
  = console s1 ++ [("Error in event handler for " +:+ event +:+ ":", err)].
Proof.
  intros Hb. unfold guarded_call, try_catch, invoke. by rewrite Hb.
Qed.

(** C9 (the part the code misses).  On a bus that nobody subscribed to,
    publishing the event name ["constructor"] does not return normally:
    [this.events["constructor"]] is the inherited [Object] function, the guard
    [!this.events[event]] lets it through and calling its missing [forEach]
    throws a [TypeError]. *)
Theorem publish_inherited_name_throws (d : D) (w : W) :
  publish behaviour "constructor" d (constructor w)
  = (constructor w,
     Threw "TypeError: this.events[event].forEach is not a function").
Proof. reflexivity. Qed.

End bus.

(** Three subscribers, the second of which throws: all three are invoked
    and the error is logged once. *)
Example publish_sample :
  let r := publish sample_behaviour "modal:open" 10 sample_bus in
  r.2 = Returned /\ calls r.1 = [0; 1; 2] /\ world r.1 = [10; 12] /\
  console r.1 = [("Error in event handler for modal:open:", "boom")].
Proof. vm_compute. done. Qed.

End EventBusProps.


(** ** Frame lemmas of the document operations *)

Module DomProps.
Import Dom Spec.

Lemma elements_focus (n : node) (w : world) : elements (focus n w) = elements w.
Proof. unfold focus. by destruct (can_focus w n). Qed.

Lemma overflow_focus (n : node) (w : world) : overflow (focus n w) = overflow w.
Proof. unfold focus. by destruct (can_focus w n). Qed.

Lemma trace_focus (n : node) (w : world) : trace (focus n w) = trace w.
Proof. unfold focus. by destruct (can_focus w n). Qed.

Lemma elements_fixup (w : world) : elements (fixup w) = elements w.
Proof. unfold fixup. destruct (focused w); try done; by destruct (can_focus w _). Qed.

Lemma overflow_fixup (w : world) : overflow (fixup w) = overflow w.
Proof. unfold fixup. destruct (focused w); try done; by destruct (can_focus w _). Qed.

Lemma trace_fixup (w : world) : trace (fixup w) = trace w.
Proof. unfold fixup. destruct (focused w); try done; by destruct (can_focus w _). Qed.

Lemma components_fixup (w : world) : components (fixup w) = components w.
Proof. unfold fixup. destruct (focused w); try done; by destruct (can_focus w _). Qed.

Lemma detached_fixup (w : world) : detached (fixup w) = detached w.
Proof. unfold fixup. destruct (focused w); try done; by destruct (can_focus w _). Qed.

Lemma nav_fixup (w : world) : nav (fixup w) = nav w.
Proof. unfold fixup. destruct (focused w); try done; by destruct (can_focus w _). Qed.

Lemma getElementById_elements (s : string) (w w' : world) :
  id <$> elements w' = id <$> elements w ->
  getElementById s w' = getElementById s w.
Proof.
  intros H. unfold getElementById. case_bool_decide; [done |].
  assert (G : forall (l l' : list element), id <$> l' = id <$> l ->
            fst <$> list_find (fun e => id e = s) l'
            = fst <$> list_find (fun e => id e = s) l).
  { clear. intros l. induction l as [| e l IH]; intros [| e' l'] Hl;
      try done.
    cbn in Hl. injection Hl as He Hl.
    cbn. rewrite He. case_decide; [done |].
    specialize (IH l' Hl).
    destruct (list_find _ l') as [[? ?] |], (list_find _ l) as [[? ?] |];
      cbn in *; congruence. }
  apply G, H.
Qed.

Lemma getElementById_Some (s : string) (w : world) (i : nat) :
  getElementById s w = Some i ->
  exists e, elements w !! i = Some e /\ id e = s.
Proof.
  unfold getElementById. case_bool_decide; [done |].
  destruct (list_find _ _) as [[j e] |] eqn:E; [| done].
  cbn. intros [= ->]. apply list_find_Some in E as (? & ? & _). eauto.
Qed.

(** *** Element-wise evolution of the document *)

Section elementwise.

Variable R : nat -> element -> element -> Prop.
Hypothesis R_refl : forall k e, R k e e.
Hypothesis R_trans : forall k e1 e2 e3, R k e1 e2 -> R k e2 e3 -> R k e1 e3.

Local Abbreviation rel := (Spec.rel R).

Lemma static_eq_refl (w : world) : static_eq w w.
Proof. by repeat split. Qed.

Lemma static_eq_trans (w1 w2 w3 : world) :
  static_eq w1 w2 -> static_eq w2 w3 -> static_eq w1 w3.
Proof. unfold static_eq. intros (? & ? & ? & ?) (? & ? & ? & ?). repeat split; congruence. Qed.

Lemma rel_same (w w' : world) :
  elements w' = elements w -> static_eq w w' -> rel w w'.
Proof.
  intros H Hs. split; [| done]. intros k. rewrite H.
  destruct (elements w !! k); auto.
Qed.

Lemma rel_refl (w : world) : rel w w.
Proof. apply rel_same; [done | apply static_eq_refl]. Qed.

Lemma rel_trans (w1 w2 w3 : world) : rel w1 w2 -> rel w2 w3 -> rel w1 w3.
Proof.
  intros [H12 S12] [H23 S23]. split; [| by eapply static_eq_trans].
  intros k. specialize (H12 k). specialize (H23 k).
  destruct (elements w1 !! k), (elements w2 !! k), (elements w3 !! k);
    try done. eauto.
Qed.

Lemma rel_update (i : nat) (f : element -> element) (w : world) :
  (forall e, elements w !! i = Some e -> R i e (f e)) ->
  rel w (update_element i f w).
Proof.
  intros Hf. split; [| by repeat split].
  intros k. cbn. destruct (decide (k = i)) as [-> | Hne].
  - rewrite list_lookup_alter_eq. destruct (elements w !! i); cbn; auto.
  - rewrite list_lookup_alter_ne by done. destruct (elements w !! k); auto.
Qed.

Lemma rel_fmap (f : element -> element) (w : world) :
  (forall k e, elements w !! k = Some e -> R k e (f e)) ->
  rel w (set_elements (f <$> elements w) w).
Proof.
  intros Hf. split; [| by repeat split].
  intros k. cbn. rewrite list_lookup_fmap.
  destruct (elements w !! k) eqn:E; cbn; auto.
Qed.

Lemma static_eq_focus (n : node) (w : world) : static_eq w (focus n w).
Proof. unfold focus. by destruct (can_focus w n). Qed.

Lemma static_eq_fixup (w : world) : static_eq w (fixup w).
Proof.
  unfold fixup. destruct (focused w); try done; by destruct (can_focus w _).
Qed.

Lemma rel_focus (n : node) (w : world) : rel w (focus n w).
Proof. apply rel_same; [apply elements_focus | apply static_eq_focus]. Qed.

Lemma rel_fixup (w : world) : rel w (fixup w).
Proof. apply rel_same; [apply elements_fixup | apply static_eq_fixup]. Qed.

Lemma rel_emit (x : effect) (w : world) : rel w (emit x w).
Proof. by apply rel_same. Qed.

Lemma rel_console_log (text : string) (w : world) : rel w (console_log text w).
Proof. by apply rel_same. Qed.

Lemma rel_console_error (text : string) (w : world) :
  rel w (console_error text w).
Proof. by apply rel_same. Qed.

Lemma rel_set_overflow (v : string) (w : world) : rel w (set_overflow v w).
Proof. by apply rel_same. Qed.

Lemma rel_setTimeout (t : task) (d : nat) (w : world) : rel w (setTimeout t d w).
Proof. by apply rel_same. Qed.

Lemma rel_set_activeModal (v : option string) (w : world) :
  rel w (set_activeModal v w).
Proof. by apply rel_same. Qed.

Lemma rel_set_currentSection (v : string) (w : world) :
  rel w (set_currentSection v w).
Proof. by apply rel_same. Qed.

Lemma rel_update_component (ci : nat) (v : option node) (w : world) :
  rel w (Enhanced.update_component ci (set_previouslyFocused v) w).
Proof.
  apply rel_same; [done |]. repeat split. cbn.
  apply list_eq. intros k. rewrite !list_lookup_fmap.
  destruct (decide (k = ci)) as [-> | Hne].
  - rewrite list_lookup_alter_eq. by destruct (components w !! ci).
  - by rewrite list_lookup_alter_ne.
Qed.

Lemma rel_lookup (w w' : world) (k : nat) (e : element) :
  rel w w' -> elements w !! k = Some e ->
  exists e', elements w' !! k = Some e' /\ R k e e'.
Proof.
  intros [H _] E. specialize (H k). rewrite E in H.
  destruct (elements w' !! k); [eauto | done].
Qed.

Lemma rel_lookup_inv (w w' : world) (k : nat) (e' : element) :
  rel w w' -> elements w' !! k = Some e' ->
  exists e, elements w !! k = Some e /\ R k e e'.
Proof.
  intros [H _] E. specialize (H k). rewrite E in H.
  destruct (elements w !! k); [eauto | done].
Qed.

Lemma rel_foldl {A : Type} (f : world -> A -> world) (l : list A) (w : world) :
  (forall w a, rel w (f w a)) -> rel w (foldl f w l).
Proof.
  intros Hf. revert w. induction l as [| a l IH]; intros w; cbn.
  - apply rel_refl.
  - eapply rel_trans; [apply Hf | apply IH].
Qed.

End elementwise.

(** Peel the outermost operation off [rel R w (op (... w))]: operations
    that leave the elements alone are discharged, the others are handed to
    [leaf]. *)
Ltac peel_gen R_refl R_trans leaf :=
  cbv zeta;
  lazymatch goal with
  | |- rel _ ?w ?w' =>
      tryif constr_eq w w' then apply (rel_refl _ R_refl)
      else
        lazymatch w' with
        | ?F ?w1 =>
            apply (rel_trans _ R_trans w w1 (F w1));
            [ peel_gen R_refl R_trans leaf
            | lazymatch F with
              | emit _ => apply (rel_emit _ R_refl)
              | console_log _ => apply (rel_console_log _ R_refl)
              | console_error _ => apply (rel_console_error _ R_refl)
              | set_overflow _ => apply (rel_set_overflow _ R_refl)
              | setTimeout _ _ => apply (rel_setTimeout _ R_refl)
              | set_activeModal _ => apply (rel_set_activeModal _ R_refl)
              | set_currentSection _ => apply (rel_set_currentSection _ R_refl)
              | focus _ => apply (rel_focus _ R_refl)
              | Enhanced.update_component _ (set_previouslyFocused _) =>
                  apply (rel_update_component _ R_refl)
              | _ => leaf
              end ]
        | _ => idtac
        end
  | |- _ => idtac
  end.

End DomProps.

(** ** Operations that never show an element *)

Module QuietProps.
Import Dom DomProps Spec.

Section quiet.

Variable R : nat -> element -> element -> Prop.
Hypothesis R_refl : forall k e, R k e e.
Hypothesis R_trans : forall k e1 e2 e3, R k e1 e2 -> R k e2 e3 -> R k e1 e3.
Hypothesis R_panel : forall k e v, R k e (set_panel v e).
Hypothesis R_hide : forall k e, R k e (set_display "none" e).
Hypothesis R_aria_true : forall k e, R k e (set_aria_hidden "true" e).

Local Notation "w ~> w'" := (rel R w w') (at level 70).

Create HintDb rel.
Local Hint Resolve rel_refl rel_focus rel_fixup : rel.

Ltac rel_peel :=
  peel_gen R_refl R_trans
    ltac:(first [ solve [auto with rel]
                | apply (rel_update R R_refl); solve [auto]
                | idtac ]).

Lemma rel_emergency_none (w : world) : w ~> Basic.emergency_button "none" w.
Proof. unfold Basic.emergency_button. case_match; rel_peel. Qed.
Local Hint Resolve rel_emergency_none : rel.

Lemma rel_closeAllModals (w : world) : w ~> Basic.closeAllModals w.
Proof.
  unfold Basic.closeAllModals. rel_peel.
  apply (rel_fmap R). intros k e _. destruct (is_modal e); eauto.
Qed.
Local Hint Resolve rel_closeAllModals : rel.

Lemma rel_closeModal (i : nat) (w : world) : w ~> Basic.closeModal i w.
Proof. unfold Basic.closeModal. rel_peel. case_match; rel_peel. Qed.
Local Hint Resolve rel_closeModal : rel.

Lemma rel_close_click (b : close_button) (w : world) : w ~> Basic.close_click b w.
Proof. unfold Basic.close_click. repeat case_match; rel_peel. Qed.

Lemma rel_modal_click (i : nat) (target : node) (w : world) :
  w ~> Basic.modal_click i target w.
Proof. unfold Basic.modal_click. case_match; rel_peel. Qed.

Lemma rel_keydown (key : string) (w : world) : w ~> Basic.keydown key w.
Proof. unfold Basic.keydown. case_match; rel_peel. Qed.

Lemma rel_focus_first_focusable (i : nat) (w : world) :
  w ~> Basic.focus_first_focusable i w.
Proof. unfold Basic.focus_first_focusable. repeat case_match; rel_peel. Qed.

Lemma rel_inline_modal_click (i : nat) (target : node) (w : world) :
  w ~> Inline.modal_click i target w.
Proof. unfold Inline.modal_click. case_match; rel_peel. Qed.

Lemma rel_applyAnimation (ci : nat) (dir : string) (b : bool) (w : world) :
  w ~> Enhanced.applyAnimation ci dir b w.
Proof. unfold Enhanced.applyAnimation. repeat case_match; rel_peel. Qed.
Local Hint Resolve rel_applyAnimation : rel.

Lemma rel_close (ci : nat) (w : world) : w ~> Enhanced.close ci w.
Proof. unfold Enhanced.close. case_match; rel_peel. Qed.
Local Hint Resolve rel_close : rel.

Lemma rel_close_finish (ci : nat) (w : world) : w ~> Enhanced.close_finish ci w.
Proof. unfold Enhanced.close_finish. repeat case_match; rel_peel. Qed.
Local Hint Resolve rel_close_finish : rel.

Lemma rel_animation_end (ci : nat) (cls : string) (b : bool) (w : world) :
  w ~> Enhanced.animation_end ci cls b w.
Proof. unfold Enhanced.animation_end. repeat case_match; rel_peel. Qed.

Lemma rel_close_all_subscriber (w : world) : w ~> Enhanced.close_all_subscriber w.
Proof.
  unfold Enhanced.close_all_subscriber. apply (rel_foldl R R_refl R_trans).
  intros w' p. case_match; rel_peel.
Qed.

Lemma rel_focusFirstElement (ci : nat) (w : world) :
  w ~> Enhanced.focusFirstElement ci w.
Proof. unfold Enhanced.focusFirstElement. repeat case_match; rel_peel. Qed.

Lemma rel_enhanced_keydown (ci : nat) (key : string) (w : world) :
  w ~> Enhanced.keydown ci key w.
Proof. unfold Enhanced.keydown. repeat case_match; rel_peel. Qed.

Lemma rel_backdrop_click (ci : nat) (target : node) (w : world) :
  w ~> Enhanced.backdrop_click ci target w.
Proof. unfold Enhanced.backdrop_click. repeat case_match; rel_peel. Qed.

Lemma rel_run_task (t : task) (w : world) : w ~> Page.run_task t w.
Proof.
  destruct t; cbn [Page.run_task];
    auto using rel_focus_first_focusable, rel_focusFirstElement, rel_animation_end.
Qed.

Lemma rel_advance (dt : nat) (w : world) : w ~> Page.advance dt w.
Proof.
  unfold Page.advance.
  eapply (rel_trans R R_trans); [| apply (rel_foldl R R_refl R_trans)].
  - apply (rel_same R R_refl); [reflexivity | by repeat split].
  - intros w' p. eapply (rel_trans R R_trans);
      [apply rel_run_task | apply (rel_fixup R R_refl)].
Qed.

(** Every event other than the activation of a navigation link. *)
Lemma rel_handle_quiet (ev : Page.event) (w : world) :
  (forall n, ev <> Page.ClickNav n) -> w ~> Page.handle ev w.
Proof.
  intros Hev. destruct ev as [n | b | i target | key | n | n | dt];
    cbn [Page.handle].
  - by destruct (Hev n).
  - case_match; [apply rel_close_click | apply (rel_refl R R_refl)].
  - repeat case_match; try apply (rel_refl R R_refl).
    + eapply (rel_trans R R_trans); [| apply (rel_foldl R R_refl R_trans)].
      * eapply (rel_trans R R_trans);
          [apply rel_modal_click | apply rel_inline_modal_click].
      * intros w' ci. repeat case_match; try apply (rel_refl R R_refl).
        apply rel_backdrop_click.
    + eapply (rel_trans R R_trans);
        [apply rel_modal_click | apply rel_inline_modal_click].
  - case_match.
    + eapply (rel_trans R R_trans); [| apply (rel_foldl R R_refl R_trans)].
      * apply rel_keydown.
      * intros w' ci. apply rel_enhanced_keydown.
    + apply rel_keydown.
  - apply (rel_focus R R_refl).
  - apply (rel_same R R_refl); [reflexivity | by repeat split].
  - apply rel_advance.
Qed.

Lemma rel_step_quiet (ev : Page.event) (w : world) :
  (forall n, ev <> Page.ClickNav n) -> w ~> Page.step w ev.
Proof.
  intros Hev. unfold Page.step.
  eapply (rel_trans R R_trans);
    [by apply rel_handle_quiet | apply (rel_fixup R R_refl)].
Qed.

End quiet.

End QuietProps.

(** ** Operations that show an element *)

Module ShowProps.
Import Dom DomProps QuietProps Spec.

Section shows.

Context {R : nat -> element -> element -> Prop} {allowed : nat -> Prop}.
Context `{!Shows R allowed}.

Local Notation "w ~> w'" := (rel R w w') (at level 70).

Lemma sh_refl (k : nat) (e : element) : R k e e.
Proof. apply shows_refl. Qed.

Lemma sh_trans (k : nat) (e1 e2 e3 : element) : R k e1 e2 -> R k e2 e3 -> R k e1 e3.
Proof. apply shows_trans. Qed.

Lemma sh_panel (k : nat) (e : element) (v : option (list string)) :
  R k e (set_panel v e).
Proof. apply shows_panel. Qed.

Ltac shows_leaf :=
  idtac;
  lazymatch goal with
  | |- rel _ _ (Enhanced.close_all_subscriber _) =>
      apply (rel_close_all_subscriber _ sh_refl sh_trans sh_panel)
  | |- rel _ _ (Enhanced.applyAnimation _ _ _ _) =>
      apply (rel_applyAnimation _ sh_refl sh_trans sh_panel)
  | |- _ => idtac
  end.

Ltac shows_peel := peel_gen sh_refl sh_trans ltac:(shows_leaf).

Local Abbreviation links_allowed := (links_allowed allowed).
Local Abbreviation registry_allowed := (registry_allowed allowed).

Lemma rel_inline_nav_click (href : option string) (w : world) :
  links_allowed href w -> w ~> Inline.nav_click href w.
Proof.
  intros Hl. unfold Inline.nav_click.
  destruct href as [h |]; [| shows_peel].
  change Inline.navMap_get with Basic.navMap_get.
  destruct (Basic.navMap_get _) as [t |] eqn:Et; [| apply (rel_refl _ sh_refl)].
  cbv zeta.
  destruct (getElementById t _) as [i |] eqn:Ei; [| shows_peel].
  shows_peel. apply (rel_update _ sh_refl). intros.
  apply shows_display. eapply Hl; eauto.
Qed.

Lemma rel_open (ci : nat) (w : world) :
  (forall c, components w !! ci = Some c -> allowed (element_of c)) ->
  w ~> Enhanced.open ci w.
Proof.
  intros Ha. unfold Enhanced.open, Enhanced.trackModalUsage.
  destruct (components w !! ci) as [c |]; [| apply (rel_refl _ sh_refl)].
  destruct (Enhanced.isOpen ci w); [apply (rel_refl _ sh_refl) |].
  shows_peel; apply (rel_update _ sh_refl); intros;
    [apply shows_display | apply shows_aria]; by apply Ha.
Qed.

Lemma rel_handleNavigation (h : string) (w : world) :
  registry_allowed h w -> w ~> Enhanced.handleNavigation h w.
Proof.
  intros Hr. unfold Enhanced.handleNavigation. cbv zeta.
  destruct (JS.get Enhanced.modalMap _) as [modalId | name |] eqn:Eg.
  - unfold Enhanced.open_subscriber.
    destruct (Enhanced.registry_get _ _) as [ci |] eqn:Ec; [| shows_peel].
    shows_peel. apply rel_open. intros c Hc.
    exact (Hr modalId ci c Eg Ec Hc).
  - shows_peel.
  - repeat case_match; shows_peel.
Qed.

End shows.

End ShowProps.

(** ** At most one modal is Open *)

Module InvariantProps.
Import Dom DomProps QuietProps ShowProps Spec.

Lemma elem_of_open_modals (w : world) (i : nat) :
  i ∈ Page.open_modals w <->
  exists e, elements w !! i = Some e /\ is_modal e = true /\ is_open e = true.
Proof.
  unfold Page.open_modals. rewrite list_elem_of_fmap. split.
  - intros ([j e] & -> & Hin). apply list_elem_of_filter in Hin as [[Hm Ho] Hin].
    apply elem_of_lookup_imap in Hin as (k & y & [= -> ->] & Hk). eauto.
  - intros (e & Hk & Hm & Ho). exists (i, e). split; [done |].
    apply list_elem_of_filter. split; [done |].
    apply elem_of_lookup_imap. eauto.
Qed.

Lemma NoDup_open_modals (w : world) : NoDup (Page.open_modals w).
Proof.
  unfold Page.open_modals.
  eapply sublist_NoDup; [| apply fmap_sublist, sublist_filter].
  rewrite fmap_imap.
  replace (imap (fun n : nat => fst ∘ pair n) (elements w))
    with ((fun j : nat => j) <$> seq 0 (length (elements w)))
    by (symmetry; apply (imap_seq_0 (elements w) (fun j => j))).
  rewrite list_fmap_id. apply NoDup_seq.
Qed.

Lemma at_most_one_open_spec (w : world) :
  at_most_one_open w <->
  forall i j, i ∈ Page.open_modals w -> j ∈ Page.open_modals w -> i = j.
Proof.
  unfold at_most_one_open. pose proof (NoDup_open_modals w) as Hnd.
  destruct (Page.open_modals w) as [| a [| b l]]; cbn.
  - split; [| lia]. intros _ i j Hi. by apply elem_of_nil in Hi.
  - split; [| lia]. intros _ i j Hi Hj.
    apply list_elem_of_singleton in Hi, Hj. congruence.
  - split; [lia |]. intros H. exfalso.
    assert (a = b) as -> by (apply H; set_solver).
    apply NoDup_cons in Hnd as [Hnotin _]. set_solver.
Qed.

Lemma none_open_spec (w : world) :
  none_open w = true <-> forall i, i ∉ Page.open_modals w.
Proof.
  unfold none_open. rewrite bool_decide_eq_true. split.
  - intros -> i. apply not_elem_of_nil.
  - intros H. destruct (Page.open_modals w) as [| a l]; [done |].
    destruct (H a). set_solver.
Qed.

Section grows.

Variable allowed : nat -> Prop.

Lemma grows_refl (k : nat) (e : element) : grows allowed k e e.
Proof. unfold grows. auto. Qed.

Lemma grows_trans (k : nat) (e1 e2 e3 : element) :
  grows allowed k e1 e2 -> grows allowed k e2 e3 -> grows allowed k e1 e3.
Proof.
  unfold grows. intros (Hi1 & Hm1 & Ho1) (Hi2 & Hm2 & Ho2).
  repeat split; [congruence | congruence |].
  intros Hm Ho. destruct Ho2 as [Ho2 | Ha]; [congruence | done | auto | auto].
Qed.

Lemma grows_panel (k : nat) (e : element) (v : option (list string)) :
  grows allowed k e (set_panel v e).
Proof. unfold grows. auto. Qed.

Lemma grows_hide (k : nat) (e : element) : grows allowed k e (set_display "none" e).
Proof. unfold grows. repeat split; done. Qed.

Lemma grows_aria (k : nat) (e : element) (v : string) :
  grows allowed k e (set_aria_hidden v e).
Proof. unfold grows. auto. Qed.

Lemma grows_opacity (k : nat) (e : element) (v : string) :
  grows allowed k e (set_opacity v e).
Proof. unfold grows. auto. Qed.

Lemma grows_zIndex (k : nat) (e : element) (v : string) :
  grows allowed k e (set_zIndex v e).
Proof. unfold grows. auto. Qed.

Lemma grows_show (k : nat) (e : element) (v : string) :
  allowed k \/ is_modal e = false -> grows allowed k e (set_display v e).
Proof.
  unfold grows. intros [Ha | Hm]; repeat split; auto. congruence.
Qed.

Local Notation "w ~> w'" := (rel (grows allowed) w w') (at level 70).

Lemma grows_ids (w w' : world) : w ~> w' -> id <$> elements w' = id <$> elements w.
Proof.
  intros [H _]. apply list_eq. intros k. rewrite !list_lookup_fmap.
  specialize (H k).
  destruct (elements w !! k), (elements w' !! k); try done.
  cbn. f_equal. apply H.
Qed.

Lemma grows_emergency_not_modal (w w' : world) :
  w ~> w' -> emergency_not_modal w' = emergency_not_modal w.
Proof.
  intros Hrel. unfold emergency_not_modal.
  rewrite (getElementById_elements _ w w') by by apply grows_ids.
  destruct (getElementById _ w) as [j |]; [| done].
  destruct Hrel as [H _]. specialize (H j).
  destruct (elements w !! j), (elements w' !! j); try done.
  destruct H as (_ & -> & _). done.
Qed.

Lemma grows_registry_consistent (w w' : world) :
  w ~> w' -> registry_consistent w = true -> registry_consistent w' = true.
Proof.
  intros Hrel. unfold registry_consistent.
  pose proof (grows_ids _ _ Hrel) as Hids.
  destruct Hrel as [_ (_ & -> & _ & Hc)].
  rewrite !forallb_forall. intros H p Hp. specialize (H p Hp).
  assert (Hk : element_of <$> components w' !! p.2
               = element_of <$> components w !! p.2).
  { by rewrite <- !list_lookup_fmap, Hc. }
  destruct (components w' !! p.2) as [c' |], (components w !! p.2) as [c |];
    cbn in Hk; try done.
  injection Hk as Hk. rewrite Hk.
  by rewrite (getElementById_elements _ w w').
Qed.

Lemma grows_well_formed (w w' : world) :
  w ~> w' -> well_formed w = true -> well_formed w' = true.
Proof.
  intros Hrel. unfold well_formed. rewrite !andb_true_iff.
  intros [He Hr]. split.
  - by rewrite (grows_emergency_not_modal w w').
  - by eapply grows_registry_consistent.
Qed.

(** Modals that are Open afterwards were Open before or are allowed. *)
Lemma grows_open_modals (w w' : world) (i : nat) :
  w ~> w' -> i ∈ Page.open_modals w' -> i ∈ Page.open_modals w \/ allowed i.
Proof.
  intros Hrel. rewrite !elem_of_open_modals. intros (e' & Hk & Hm & Ho).
  destruct (rel_lookup_inv _ w w' i e' Hrel Hk) as (e & He & Hid & Hmod & Hopen).
  destruct Hopen as [Hopen | Ha]; [congruence | done | | by right].
  left. exists e. repeat split; congruence.
Qed.

#[local] Instance grows_shows : Shows (grows allowed) allowed.
Proof.
  split.
  - apply grows_refl.
  - apply grows_trans.
  - apply grows_panel.
  - intros. apply grows_show. by left.
  - intros. apply grows_aria.
Qed.

Ltac grows_leaf :=
  idtac;
  lazymatch goal with
  | |- rel _ _ (update_element _ (set_aria_hidden _) _) =>
      apply (rel_update _ grows_refl); intros; apply grows_aria
  | |- rel _ _ (update_element _ (set_opacity _) _) =>
      apply (rel_update _ grows_refl); intros; apply grows_opacity
  | |- rel _ _ (update_element _ (set_zIndex _) _) =>
      apply (rel_update _ grows_refl); intros; apply grows_zIndex
  | |- _ => idtac
  end.

Ltac grows_peel := peel_gen grows_refl grows_trans ltac:(grows_leaf).

Lemma rel_emergency (v : string) (w : world) :
  emergency_not_modal w = true -> w ~> Basic.emergency_button v w.
Proof.
  unfold emergency_not_modal, Basic.emergency_button. intros H.
  destruct (getElementById _ w) as [j |]; [| apply (rel_refl _ grows_refl)].
  apply (rel_update _ grows_refl). intros e He. rewrite He in H.
  apply grows_show. right. by destruct (is_modal e).
Qed.

Lemma rel_basic_nav_click (href : option string) (w : world) :
  emergency_not_modal w = true -> links_allowed allowed href w ->
  w ~> Basic.nav_click href w.
Proof.
  intros Hwf Hl. unfold Basic.nav_click.
  destruct href as [h |]; [| apply (rel_refl _ grows_refl)].
  destruct (negb _); [apply (rel_refl _ grows_refl) |].
  cbv zeta.
  destruct (Basic.navMap_get _) as [t |] eqn:Et.
  - destruct (getElementById t _) as [i |] eqn:Ei; [| grows_peel].
    assert (Ha : allowed i) by (eapply Hl; eauto).
    match goal with
    | |- _ ~> setTimeout ?a ?b (set_overflow ?c (update_element ?d ?f
               (Basic.emergency_button ?v ?w5))) =>
        assert (H5 : w ~> w5)
    end.
    { grows_peel; apply (rel_update _ grows_refl); intros;
        apply grows_show; by left. }
    eapply (rel_trans _ grows_trans); [apply H5 |].
    grows_peel. apply rel_emergency.
    by rewrite (grows_emergency_not_modal _ _ H5).
  - case_bool_decide; grows_peel.
Qed.

Lemma registry_get_consistent (key : string) (ci : nat) (c : component)
    (w : world) :
  registry_consistent w = true -> Enhanced.registry_get key w = Some ci ->
  components w !! ci = Some c -> getElementById key w = Some (element_of c).
Proof.
  unfold registry_consistent, Enhanced.registry_get.
  rewrite forallb_forall. intros H Hg Hc.
  destruct (find _ _) as [[key' ci'] |] eqn:E; [| done].
  cbn in Hg. injection Hg as ->.
  apply find_some in E as [Hin Hk]. cbn in Hk.
  apply bool_decide_eq_true in Hk as ->.
  specialize (H _ Hin). cbn in H. rewrite Hc in H.
  by apply bool_decide_eq_true in H.
Qed.

End grows.

(** Activating the [n]-th navigation link shows at most the element that
    the link stands for. *)
Lemma rel_click_nav (n : nat) (w : world) :
  well_formed w = true ->
  rel (grows (fun k => target_index w n = Some k)) w
      (Page.handle (Page.ClickNav n) w).
Proof.
  unfold well_formed. rewrite andb_true_iff. intros [He Hr].
  set (allowed := fun k => target_index w n = Some k).
  cbn [Page.handle]. destruct (nav w !! n) as [href |] eqn:En;
    [| apply (rel_refl _ (grows_refl allowed))].
  assert (Hl : links_allowed allowed href w).
  { intros h t k -> Ht Hk. unfold allowed, target_index. by rewrite En, Ht. }
  cbv zeta.
  set (w1 := if match href with Some h => JS.startsWith "#" h | None => false end
             then Basic.nav_click href w else w).
  assert (H1 : rel (grows allowed) w w1).
  { unfold w1. case_match; [by apply rel_basic_nav_click |].
    apply (rel_refl _ (grows_refl allowed)). }
  assert (Hl1 : links_allowed allowed href w1).
  { intros h t k Hh Ht Hk. apply (Hl h t k Hh Ht).
    by rewrite <- (getElementById_elements t w w1)
      by by apply (grows_ids allowed). }
  assert (H2 : rel (grows allowed) w (Inline.nav_click href w1)).
  { eapply (rel_trans _ (grows_trans allowed)); [apply H1 |].
    by apply (rel_inline_nav_click (Shows0 := grows_shows allowed)). }
  case_match; [| done].
  eapply (rel_trans _ (grows_trans allowed)); [apply H2 |].
  destruct href as [h |]; [| by rewrite andb_false_r in *].
  change (default EmptyString (Some h)) with h.
  apply (rel_handleNavigation (Shows0 := grows_shows allowed)).
  intros key ci c Hown Hg Hc. unfold allowed, target_index. rewrite En.
  pose proof (grows_registry_consistent allowed _ _ H2 Hr) as Hr2.
  pose proof (registry_get_consistent key ci c _ Hr2 Hg Hc) as Hk.
  rewrite (getElementById_elements key w _ (grows_ids allowed _ _ H2)) in Hk.
  unfold Basic.navMap_get. change Basic.navMap with Enhanced.modalMap.
  by rewrite Hown.
Qed.

Lemma step_invariant (w : world) (ev : Page.event) :
  well_formed w = true -> at_most_one_open w ->
  match ev with Page.ClickNav n => link_keeps_one w n | _ => true end = true ->
  well_formed (Page.step w ev) = true /\ at_most_one_open (Page.step w ev).
Proof.
  intros Hwf Hone Hguard.
  assert (Hcase : (exists n, ev = Page.ClickNav n) \/
                  (forall n, ev <> Page.ClickNav n))
    by (destruct ev; eauto).
  destruct Hcase as [[n ->] | Hquiet].
  - set (allowed := fun k => target_index w n = Some k).
    assert (Hrel : rel (grows allowed) w (Page.step w (Page.ClickNav n))).
    { unfold Page.step. eapply (rel_trans _ (grows_trans allowed));
        [by apply rel_click_nav | apply (rel_fixup _ (grows_refl allowed))]. }
    split; [by eapply grows_well_formed |].
    apply at_most_one_open_spec. intros i j Hi Hj.
    assert (Hwas : forall k, k ∈ Page.open_modals (Page.step w (Page.ClickNav n)) ->
                     (target_index w n = None /\ k ∈ Page.open_modals w) \/
                     target_index w n = Some k).
    { intros k Hk.
      destruct (grows_open_modals allowed _ _ k Hrel Hk) as [Hk' | Hk'];
        [| by right].
      unfold link_keeps_one in Hguard.
      destruct (target_index w n) as [t |] eqn:Et; [right | by left].
      rewrite forallb_forall in Hguard.
      apply list_elem_of_In, Hguard, bool_decide_eq_true in Hk'. by subst. }
    destruct (Hwas i Hi) as [[Hn Hi'] | Hi'], (Hwas j Hj) as [[Hn' Hj'] | Hj'];
      try congruence.
    by apply (proj1 (at_most_one_open_spec w) Hone).
  - set (allowed := fun _ : nat => False).
    assert (Hrel : rel (grows allowed) w (Page.step w ev)).
    { apply rel_step_quiet;
        eauto using grows_refl, grows_trans, grows_panel, grows_hide, grows_aria. }
    split; [by eapply grows_well_formed |].
    apply at_most_one_open_spec. intros i j Hi Hj.
    apply (proj1 (at_most_one_open_spec w) Hone).
    + by destruct (grows_open_modals allowed _ _ i Hrel Hi).
    + by destruct (grows_open_modals allowed _ _ j Hrel Hj).
Qed.

(** The handlers that hide keep the invariant: on a page whose emergency
    button is not a modal and whose component registry matches the
    document, every sequence of events (clicks on links, close controls and
    modals, key presses, focus changes, elapsing time) that activates the
    link of a modal only while no other modal is Open keeps at most one
    modal in the Open state, at every point of the sequence. *)
Lemma guarded_at_most_one_open (w : world) (evs : list Page.event) (k : nat) :
  well_formed w = true -> at_most_one_open w -> guarded evs w = true ->
  at_most_one_open (Page.run (take k evs) w).
Proof.
  revert w k. induction evs as [| ev evs IH]; intros w k Hwf Hone Hg.
  - by rewrite take_nil.
  - destruct k as [| k]; [done |].
    cbn [guarded] in Hg. apply andb_true_iff in Hg as [Hev Hg].
    destruct (step_invariant w ev Hwf Hone Hev) as [Hwf' Hone'].
    cbn [take Page.run foldl]. by apply IH.
Qed.

Lemma guarded_at_most_one_open_witness :
  let evs := [ Page.ClickNav 3; Page.Elapse 100; Page.ClickNav 3;
               Page.ClickNav 0; Page.KeyDown "Escape";
               Page.ClickNav 4; Page.ClickModal 6 (Element 6);
               Page.ClickNav 5; Page.ClickClose 4; Page.Elapse 400 ] in
  well_formed Page.index_html = true /\
  at_most_one_open Page.index_html /\
  guarded evs Page.index_html = true /\
  at_most_one_open (Page.run (take 8 evs) Page.index_html).
Proof.
  assert (H1 : well_formed Page.index_html = true)
    by (vm_compute; reflexivity).
  assert (H2 : at_most_one_open Page.index_html)
    by (unfold at_most_one_open; vm_compute; lia).
  intros evs.
  assert (H3 : guarded evs Page.index_html = true)
    by (vm_compute; reflexivity).
  repeat split; try assumption.
  exact (guarded_at_most_one_open Page.index_html evs 8 H1 H2 H3).
Defined.

(** [Modal.open] on its own does close the others: with the components
    attached and the projects modal opened by its component, [open] of the
    skills component publishes ['modal:close-all'], and once the closing
    animation has ended only the skills modal is Open. *)
Example modal_open_closes_others :
  let w := Enhanced.open 3 (Enhanced.open 2 Page.index_html_enhanced) in
  Page.open_modals (Enhanced.open 2 Page.index_html_enhanced) = [5] /\
  published "modal:close-all" w = true /\
  Page.open_modals (Page.step w (Page.Elapse 300)) = [6].
Proof. vm_compute. done. Qed.

(** C1.  On index.html, activating the link of the projects modal and then
    the link of the skills modal leaves both modals Open: the click
    listeners of main.js and of the inline script show the second modal and
    close nothing.  With the enhanced components attached the outcome is
    the same: ['modal:open'] is published, but [Modal.open], whose step
    after the [isOpen] test is to ask the other modals to close, finds its
    modal already shown by main.js and returns at the test; no
    ['modal:close-all'] is published. *)
Theorem second_open_keeps_first :
  Page.open_modals
    (Page.run [Page.ClickNav 3; Page.ClickNav 4] Page.index_html) = [5; 6] /\
  ~ at_most_one_open
      (Page.run [Page.ClickNav 3; Page.ClickNav 4] Page.index_html) /\
  Page.open_modals
    (Page.run [Page.ClickNav 3; Page.ClickNav 4] Page.index_html_enhanced)
  = [5; 6] /\
  ~ at_most_one_open
      (Page.run [Page.ClickNav 3; Page.ClickNav 4] Page.index_html_enhanced) /\
  published "modal:open"
    (Page.run [Page.ClickNav 3; Page.ClickNav 4] Page.index_html_enhanced)
  = true /\
  published "modal:close-all"
    (Page.run [Page.ClickNav 3; Page.ClickNav 4] Page.index_html_enhanced)
  = false.
Proof. unfold at_most_one_open. repeat split; vm_compute; (done || lia). Qed.

End InvariantProps.

(** ** What the handlers leave alone *)

Module FrameProps.
Import Dom DomProps Spec.

Ltac proj_simpl :=
  cbn [elements nav close_buttons overflow focused detached trace now timers
       enhanced_loaded components registry activeModal currentSection
       set_elements set_overflow set_focused set_detached set_trace set_now
       set_timers set_components set_activeModal set_currentSection
       emit console_log console_error setTimeout update_element
       Enhanced.update_component].

Lemma foldl_keeps {A B : Type} (g : world -> B) (f : world -> A -> world)
    (l : list A) (w : world) :
  (forall w a, g (f w a) = g w) -> g (foldl f w l) = g w.
Proof.
  intros Hf. revert w. induction l as [| a l IH]; intros w; cbn; [done |].
  by rewrite IH, Hf.
Qed.

Lemma overflow_emergency (v : string) (w : world) :
  overflow (Basic.emergency_button v w) = overflow w.
Proof. unfold Basic.emergency_button. by case_match. Qed.

Lemma nav_emergency (v : string) (w : world) :
  nav (Basic.emergency_button v w) = nav w.
Proof. unfold Basic.emergency_button. by case_match. Qed.

Lemma detached_emergency (v : string) (w : world) :
  detached (Basic.emergency_button v w) = detached w.
Proof. unfold Basic.emergency_button. by case_match. Qed.

Lemma nav_setTimeout (t : task) (d : nat) (w : world) :
  nav (setTimeout t d w) = nav w.
Proof. reflexivity. Qed.

Lemma nav_set_overflow (v : string) (w : world) : nav (set_overflow v w) = nav w.
Proof. reflexivity. Qed.

Lemma nav_update_element (i : nat) (f : element -> element) (w : world) :
  nav (update_element i f w) = nav w.
Proof. reflexivity. Qed.

Lemma nav_emit (x : effect) (w : world) : nav (emit x w) = nav w.
Proof. reflexivity. Qed.

Lemma nav_console_log (text : string) (w : world) : nav (console_log text w) = nav w.
Proof. reflexivity. Qed.

Lemma nav_console_error (text : string) (w : world) :
  nav (console_error text w) = nav w.
Proof. reflexivity. Qed.

Lemma detached_setTimeout (t : task) (d : nat) (w : world) :
  detached (setTimeout t d w) = detached w.
Proof. reflexivity. Qed.

Lemma detached_set_overflow (v : string) (w : world) :
  detached (set_overflow v w) = detached w.
Proof. reflexivity. Qed.

Lemma detached_update_element (i : nat) (f : element -> element) (w : world) :
  detached (update_element i f w) = detached w.
Proof. reflexivity. Qed.

Lemma detached_emit (x : effect) (w : world) : detached (emit x w) = detached w.
Proof. reflexivity. Qed.

Lemma detached_console_log (text : string) (w : world) :
  detached (console_log text w) = detached w.
Proof. reflexivity. Qed.

Lemma detached_console_error (text : string) (w : world) :
  detached (console_error text w) = detached w.
Proof. reflexivity. Qed.

Ltac frame_rewrite :=
  repeat first
    [ rewrite nav_setTimeout | rewrite nav_set_overflow
    | rewrite nav_update_element | rewrite nav_emit | rewrite nav_console_log
    | rewrite nav_console_error | rewrite nav_emergency
    | rewrite detached_setTimeout | rewrite detached_set_overflow
    | rewrite detached_update_element | rewrite detached_emit
    | rewrite detached_console_log | rewrite detached_console_error
    | rewrite detached_emergency ].

Lemma nav_nav_click (href : option string) (w : world) :
  nav (Basic.nav_click href w) = nav w.
Proof.
  unfold Basic.nav_click. destruct href as [h |]; [| reflexivity].
  destruct (negb _); [reflexivity |]. cbv zeta.
  destruct (Basic.navMap_get _);
    [destruct (getElementById _ _) | destruct (bool_decide _)];
    frame_rewrite; reflexivity.
Qed.

Lemma detached_nav_click (href : option string) (w : world) :
  detached (Basic.nav_click href w) = detached w.
Proof.
  unfold Basic.nav_click. destruct href as [h |]; [| reflexivity].
  destruct (negb _); [reflexivity |]. cbv zeta.
  destruct (Basic.navMap_get _);
    [destruct (getElementById _ _) | destruct (bool_decide _)];
    frame_rewrite; reflexivity.
Qed.

(** No handler changes an id. *)
Lemma ids_nav_click (href : option string) (w : world) :
  rel (fun _ e e' => id e' = id e) w (Basic.nav_click href w).
Proof.
  assert (Hrefl : forall (k : nat) (e : element), id e = id e) by done.
  assert (Htrans : forall (k : nat) (e1 e2 e3 : element),
            id e2 = id e1 -> id e3 = id e2 -> id e3 = id e1)
    by (intros; congruence).
  unfold Basic.nav_click. repeat case_match;
    peel_gen Hrefl Htrans ltac:(idtac);
    try (apply (rel_update _ Hrefl); intros; reflexivity).
  unfold Basic.emergency_button. case_match.
  - apply (rel_update _ Hrefl); intros; reflexivity.
  - apply (rel_refl _ Hrefl).
Qed.

Lemma overflow_applyAnimation (ci : nat) (dir : string) (b : bool) (w : world) :
  overflow (Enhanced.applyAnimation ci dir b w) = overflow w.
Proof. unfold Enhanced.applyAnimation. by repeat case_match. Qed.

Lemma overflow_close (ci : nat) (w : world) :
  overflow (Enhanced.close ci w) = overflow w.
Proof.
  unfold Enhanced.close. case_match; [apply overflow_applyAnimation | done].
Qed.

Lemma overflow_close_all_subscriber (w : world) :
  overflow (Enhanced.close_all_subscriber w) = overflow w.
Proof.
  unfold Enhanced.close_all_subscriber. apply foldl_keeps.
  intros w' p. case_match; [apply overflow_close | done].
Qed.

Lemma overflow_enhanced_keydown (ci : nat) (key : string) (w : world) :
  overflow (Enhanced.keydown ci key w) = overflow w.
Proof.
  unfold Enhanced.keydown. repeat case_match; try done. apply overflow_close.
Qed.

Lemma overflow_backdrop_click (ci : nat) (target : node) (w : world) :
  overflow (Enhanced.backdrop_click ci target w) = overflow w.
Proof.
  unfold Enhanced.backdrop_click. repeat case_match; try done.
  apply overflow_close.
Qed.

Lemma overflow_open (ci : nat) (w : world) :
  overflow (Enhanced.open ci w) = overflow w \/
  overflow (Enhanced.open ci w) = "hidden".
Proof.
  unfold Enhanced.open. repeat case_match; auto.
Qed.

Lemma overflow_handleNavigation (h : string) (w : world) :
  overflow (Enhanced.handleNavigation h w) = overflow w \/
  overflow (Enhanced.handleNavigation h w) = "hidden".
Proof.
  unfold Enhanced.handleNavigation, Enhanced.open_subscriber. cbv zeta.
  repeat case_match; auto.
  match goal with |- context [Enhanced.open ?ci ?w1] =>
    destruct (overflow_open ci w1) as [-> | ->]; auto end.
Qed.

Lemma overflow_inline_nav_click (href : option string) (w : world) :
  overflow (Inline.nav_click href w) = overflow w.
Proof. unfold Inline.nav_click. by repeat case_match. Qed.

Lemma overflow_inline_modal_click (i : nat) (target : node) (w : world) :
  overflow (Inline.modal_click i target w) = overflow w.
Proof. unfold Inline.modal_click. by case_match. Qed.

Lemma overflow_closeModal (i : nat) (w : world) :
  overflow (Basic.closeModal i w) = EmptyString.
Proof.
  unfold Basic.closeModal. cbv zeta. proj_simpl.
  case_match; rewrite ?overflow_focus, overflow_emergency; done.
Qed.

Lemma overflow_closeAllModals (w : world) :
  overflow (Basic.closeAllModals w) = EmptyString.
Proof.
  unfold Basic.closeAllModals. cbv zeta. proj_simpl.
  by rewrite overflow_emergency.
Qed.

End FrameProps.

(** ** The scenarios of the specification *)

Module ScenarioProps.
Import Dom DomProps QuietProps ShowProps FrameProps Spec.

Lemma stays_shown_refl (k : nat) (e : element) : stays_shown k e e.
Proof. by split. Qed.

Lemma stays_shown_trans (k : nat) (e1 e2 e3 : element) :
  stays_shown k e1 e2 -> stays_shown k e2 e3 -> stays_shown k e1 e3.
Proof. unfold stays_shown. intros [? ?] [? ?]. split; auto. Qed.

#[local] Instance stays_shown_shows : Shows stays_shown (fun _ => True).
Proof.
  split; try (intros; by split).
  apply stays_shown_trans.
Qed.

Lemma stays_hidden_refl (k : nat) (e : element) : stays_hidden k e e.
Proof. by split. Qed.

Lemma stays_hidden_trans (k : nat) (e1 e2 e3 : element) :
  stays_hidden k e1 e2 -> stays_hidden k e2 e3 -> stays_hidden k e1 e3.
Proof. unfold stays_hidden. intros [? ?] [? ?]. split; auto. Qed.

Lemma stays_hidden_panel (k : nat) (e : element) (v : option (list string)) :
  stays_hidden k e (set_panel v e).
Proof. by split. Qed.

Lemma stays_hidden_hide (k : nat) (e : element) :
  stays_hidden k e (set_display "none" e).
Proof. by split. Qed.

Lemma stays_hidden_aria (k : nat) (e : element) :
  stays_hidden k e (set_aria_hidden "true" e).
Proof. by split. Qed.

Lemma shown_rel (i : nat) (w w' : world) :
  rel stays_shown w w' -> shown i w -> shown i w'.
Proof.
  intros Hrel (e & He & Hd & Ha).
  destruct (rel_lookup _ w w' i e Hrel He) as (e' & He' & Hd' & Ha').
  exists e'. auto.
Qed.

Lemma hidden_rel (i : nat) (w w' : world) :
  rel stays_hidden w w' -> hidden i w -> hidden i w'.
Proof.
  intros Hrel (e & He & Hd & Ha).
  destruct (rel_lookup _ w w' i e Hrel He) as (e' & He' & Hd' & Ha').
  exists e'. auto.
Qed.

Lemma shown_fixup (i : nat) (w : world) : shown i w -> shown i (fixup w).
Proof. unfold shown. by rewrite elements_fixup. Qed.

Lemma hidden_fixup (i : nat) (w : world) : hidden i w -> hidden i (fixup w).
Proof. unfold hidden. by rewrite elements_fixup. Qed.

(** The basic handler on a link whose modal is in the document. *)
Lemma basic_nav_click_found (w : world) (h target : string) (i : nat) :
  JS.startsWith "#" h = true ->
  Basic.navMap_get (JS.replace_first "#" h) = Some target ->
  getElementById target w = Some i ->
  shown i (Basic.nav_click (Some h) w) /\
  overflow (Basic.nav_click (Some h) w) = "hidden".
Proof.
  intros Hs Ht Hi. unfold Basic.nav_click. rewrite Hs. cbn [negb]. cbv zeta.
  rewrite Ht.
  change (getElementById target (emit PreventDefault (console_log _ w)))
    with (getElementById target w).
  rewrite Hi. split; [| done].
  destruct (getElementById_Some _ _ _ Hi) as (e & He & _).
  match goal with
  | |- shown i (setTimeout _ _ (set_overflow _ (update_element _ _ ?X))) =>
      match X with
      | Basic.emergency_button _ (console_log _ (console_log _ (update_element _ _
          (update_element _ _ ?wa)))) =>
          assert (Hrel : rel stays_shown wa X);
          [| assert (Hwa : elements wa !! i = Some (set_display "flex" e))
               by (proj_simpl; by rewrite list_lookup_alter_eq, He);
             destruct (rel_lookup _ wa X i _ Hrel Hwa) as (eX & HX & Hd & _) ]
      end
  end.
  { peel_gen stays_shown_refl stays_shown_trans ltac:(idtac);
      try (apply (rel_update _ stays_shown_refl); intros; by split).
    unfold Basic.emergency_button. case_match.
    - apply (rel_update _ stays_shown_refl); intros; by split.
    - apply (rel_refl _ stays_shown_refl). }
  exists (set_aria_hidden "false" eX). repeat split; [| by apply Hd].
  proj_simpl. by rewrite list_lookup_alter_eq, HX.
Qed.

Lemma navMap_get_projects :
  Basic.navMap_get (JS.replace_first "#" "#projects") = Some "modal-projects".
Proof. vm_compute. reflexivity. Qed.

(** C4.  On any page that has a navigation link to [#projects] and an
    element with id [modal-projects], activating the link (the listeners of
    main.js, of the inline script and, once loaded, of the enhanced layer
    run in this order) leaves that element with [display: flex] and
    [aria-hidden="false"], and the body with [overflow: hidden]. *)
Theorem projects_link_shows_modal (w : world) (n i : nat) :
  nav w !! n = Some (Some "#projects") ->
  getElementById "modal-projects" w = Some i ->
  shown i (Page.step w (Page.ClickNav n)) /\
  overflow (Page.step w (Page.ClickNav n)) = "hidden".
Proof.
  intros Hn Hi. unfold Page.step. cbn [Page.handle]. rewrite Hn.
  change (JS.startsWith "#" "#projects") with true. cbv zeta.
  destruct (basic_nav_click_found w "#projects" "modal-projects" i eq_refl
              navMap_get_projects Hi) as [Hs1 Ho1].
  set (w1 := Basic.nav_click (Some "#projects") w) in *.
  assert (Hs2 : shown i (Inline.nav_click (Some "#projects") w1)).
  { eapply shown_rel; [| exact Hs1].
    apply (rel_inline_nav_click (Shows0 := stays_shown_shows)). by intros ?. }
  assert (Ho2 : overflow (Inline.nav_click (Some "#projects") w1) = "hidden")
    by by rewrite overflow_inline_nav_click.
  set (w2 := Inline.nav_click (Some "#projects") w1) in *.
  rewrite overflow_fixup. split; [apply shown_fixup |].
  - case_match; [| done]. eapply shown_rel; [| exact Hs2].
    apply (rel_handleNavigation (Shows0 := stays_shown_shows)). by intros ?.
  - case_match; [| done].
    change (default EmptyString (Some "#projects")) with "#projects".
    destruct (overflow_handleNavigation "#projects" w2) as [-> | ->]; done.
Qed.

Lemma projects_link_shows_modal_witness :
  nav Page.index_html_enhanced !! 3 = Some (Some "#projects") /\
  getElementById "modal-projects" Page.index_html_enhanced = Some 5 /\
  shown 5 (Page.step Page.index_html_enhanced (Page.ClickNav 3)) /\
  overflow (Page.step Page.index_html_enhanced (Page.ClickNav 3)) = "hidden".
Proof.
  assert (H1 : nav Page.index_html_enhanced !! 3 = Some (Some "#projects"))
    by reflexivity.
  assert (H2 : getElementById "modal-projects" Page.index_html_enhanced = Some 5)
    by (vm_compute; reflexivity).
  split; [exact H1 |]. split; [exact H2 |].
  exact (projects_link_shows_modal Page.index_html_enhanced 3 5 H1 H2).
Defined.

Lemma closeAllModals_hidden (w : world) (i : nat) (e : element) :
  elements w !! i = Some e -> is_modal e = true ->
  hidden i (Basic.closeAllModals w).
Proof.
  intros He Hm. unfold Basic.closeAllModals. cbv zeta.
  match goal with
  | |- hidden i (console_log _ (Basic.emergency_button _ (set_overflow _ ?wa))) =>
      assert (Ha : hidden i wa)
  end.
  { exists (set_aria_hidden "true" (set_display "none" e)).
    proj_simpl. rewrite list_lookup_fmap, He. cbn. by rewrite Hm. }
  eapply hidden_rel; [| exact Ha].
  peel_gen stays_hidden_refl stays_hidden_trans ltac:(idtac).
  apply (rel_emergency_none _ stays_hidden_refl stays_hidden_trans
           stays_hidden_hide).
Qed.

(** C5.  Whatever the state of the page, pressing Escape leaves every
    modal (so also an open [modal-projects]) with [display: none] and
    [aria-hidden="true"], and the body with its [overflow] reset: the
    [keydown] listener of main.js closes all modals at once, and the
    listeners of the enhanced components find nothing left to hide. *)
Theorem escape_closes_modal (w : world) (i : nat) (e : element) :
  elements w !! i = Some e -> is_modal e = true ->
  hidden i (Page.step w (Page.KeyDown "Escape")) /\
  overflow (Page.step w (Page.KeyDown "Escape")) = EmptyString.
Proof.
  intros He Hm. unfold Page.step. cbn [Page.handle]. cbv zeta.
  unfold Basic.keydown. cbv zeta.
  change (bool_decide ("Escape" = "Escape")) with true. cbv iota.
  match goal with
  | |- context [Basic.closeAllModals ?w0] => set (w1 := Basic.closeAllModals w0)
  end.
  assert (Hh : hidden i w1) by by apply (closeAllModals_hidden _ i e).
  assert (Ho : overflow w1 = EmptyString) by apply overflow_closeAllModals.
  rewrite overflow_fixup. split; [apply hidden_fixup |]; case_match; try done.
  - eapply hidden_rel; [| exact Hh].
    apply (rel_foldl _ stays_hidden_refl stays_hidden_trans). intros w' ci.
    apply (rel_enhanced_keydown _ stays_hidden_refl stays_hidden_trans
             stays_hidden_panel).
  - rewrite foldl_keeps; [done |]. intros. apply overflow_enhanced_keydown.
Qed.

Lemma escape_closes_modal_witness :
  let w := Page.step Page.index_html_enhanced (Page.ClickNav 3) in
  elements w !! 5
  = Some (set_aria_hidden "false"
            (set_zIndex "10000" (set_opacity "1" (set_display "flex"
               (set_display "none" (set_aria_hidden "true"
                  (set_aria_modal "true" (set_role "dialog"
                     (Page.modal_element "modal-projects"
                        "align-items: flex-start;" []))))))))) /\
  hidden 5 (Page.step w (Page.KeyDown "Escape")) /\
  overflow (Page.step w (Page.KeyDown "Escape")) = EmptyString.
Proof.
  intros w.
  assert (H1 : elements w !! 5
    = Some (set_aria_hidden "false"
              (set_zIndex "10000" (set_opacity "1" (set_display "flex"
                 (set_display "none" (set_aria_hidden "true"
                    (set_aria_modal "true" (set_role "dialog"
                       (Page.modal_element "modal-projects"
                          "align-items: flex-start;" [])))))))))).
  { vm_compute. reflexivity. }
  split; [exact H1 |].
  exact (escape_closes_modal w 5 _ H1 eq_refl).
Defined.

Lemma closeModal_hidden (w : world) (i : nat) (e : element) :
  elements w !! i = Some e -> hidden i (Basic.closeModal i w).
Proof.
  intros He. unfold Basic.closeModal. cbv zeta.
  match goal with
  | |- hidden i (console_log _ (match _ with
                                | Some n => focus _ ?X
                                | None => _ end)) =>
      match X with
      | Basic.emergency_button _ (set_overflow _ ?wa) =>
          assert (Ha : hidden i wa); [| assert (Hrel : rel stays_hidden wa X) ]
      end
  end.
  - exists (set_aria_hidden "true" (set_display "none" e)).
    proj_simpl. rewrite !list_lookup_alter_eq, He. done.
  - peel_gen stays_hidden_refl stays_hidden_trans ltac:(idtac).
    apply (rel_emergency_none _ stays_hidden_refl stays_hidden_trans
             stays_hidden_hide).
  - pose proof (hidden_rel i _ _ Hrel Ha) as Hx.
    unfold hidden in *. proj_simpl. case_match; [| done].
    by rewrite elements_focus.
Qed.

(** C6.  In a modal [i] of any page, a click whose target is the modal
    root itself leaves the modal hidden ([display: none],
    [aria-hidden="true"]) and the body's [overflow] reset; a click whose
    target is a descendant of the modal (inside the content panel, the close
    control having a listener of its own) changes no element and not the
    body's [overflow]. *)
Theorem backdrop_click_closes (w : world) (i : nat) (e : element) :
  elements w !! i = Some e -> is_modal e = true ->
  (hidden i (Page.step w (Page.ClickModal i (Element i))) /\
   overflow (Page.step w (Page.ClickModal i (Element i))) = EmptyString) /\
  (forall k,
     elements (Page.step w (Page.ClickModal i (Inside i k))) = elements w /\
     overflow (Page.step w (Page.ClickModal i (Inside i k))) = overflow w /\
     timers (Page.handle (Page.ClickModal i (Inside i k)) w) = timers w).
Proof.
  intros He Hm. split.
  - unfold Page.step. cbn [Page.handle]. rewrite He, Hm. cbv zeta.
    unfold Basic.modal_click. cbv zeta. rewrite bool_decide_eq_true_2 by done.
    match goal with
    | |- context [Basic.closeModal i ?w0] => set (w1 := Basic.closeModal i w0)
    end.
    assert (Hh : hidden i w1) by by apply (closeModal_hidden _ i e).
    assert (Ho : overflow w1 = EmptyString) by apply overflow_closeModal.
    assert (Hh2 : hidden i (Inline.modal_click i (Element i) w1)).
    { eapply hidden_rel; [| exact Hh].
      apply (rel_inline_modal_click _ stays_hidden_refl stays_hidden_trans
               stays_hidden_hide). }
    rewrite overflow_fixup. split; [apply hidden_fixup |]; case_match; try done.
    + eapply hidden_rel; [| exact Hh2].
      apply (rel_foldl _ stays_hidden_refl stays_hidden_trans). intros w' ci.
      repeat case_match; try apply (rel_refl _ stays_hidden_refl).
      apply (rel_backdrop_click _ stays_hidden_refl stays_hidden_trans
               stays_hidden_panel).
    + rewrite foldl_keeps; [by rewrite overflow_inline_modal_click |].
      intros. repeat case_match; try done. apply overflow_backdrop_click.
    + by rewrite overflow_inline_modal_click.
  - intros k. unfold Page.step. rewrite elements_fixup, overflow_fixup.
    cbn [Page.handle]. rewrite He, Hm. cbv zeta.
    unfold Basic.modal_click, Inline.modal_click. cbv zeta.
    rewrite !bool_decide_eq_false_2 by done.
    assert (Hfold : forall w0,
      foldl (fun w ci =>
               match components w !! ci with
               | Some c => if bool_decide (element_of c = i)
                           then Enhanced.backdrop_click ci (Inside i k) w
                           else w
               | None => w
               end) w0 (seq 0 (length (components w0))) = w0).
    { intros w0. generalize (seq 0 (length (components w0))). intros l.
      apply (foldl_keeps (fun w => w)). intros w' ci.
      unfold Enhanced.backdrop_click. repeat case_match; try done.
      exfalso. match goal with H : _ && _ = true |- _ =>
        apply andb_true_iff in H as [_ H]; by apply bool_decide_eq_true in H end. }
    case_match; [rewrite Hfold |]; done.
Qed.

Lemma backdrop_click_closes_witness :
  let w := Page.step Page.index_html_enhanced (Page.ClickNav 5) in
  (is_modal <$> elements w !! 7) = Some true /\
  (hidden 7 (Page.step w (Page.ClickModal 7 (Element 7))) /\
   overflow (Page.step w (Page.ClickModal 7 (Element 7))) = EmptyString) /\
  (forall k,
     elements (Page.step w (Page.ClickModal 7 (Inside 7 k))) = elements w /\
     overflow (Page.step w (Page.ClickModal 7 (Inside 7 k))) = overflow w /\
     timers (Page.handle (Page.ClickModal 7 (Inside 7 k)) w) = timers w).
Proof.
  intros w.
  destruct (elements w !! 7) as [e |] eqn:He; [| by vm_compute in He].
  assert (Hm : is_modal e = true).
  { vm_compute in He. injection He as <-. reflexivity. }
  split; [cbn; by rewrite Hm |].
  exact (backdrop_click_closes w 7 e He Hm).
Defined.

(** When the link's key is in the navigation map but no element carries
    the mapped id, the click listener of main.js changes nothing of the page
    (no element, no attribute, not the body's [overflow], no timer, no
    focus): it only adds to the trace its log line, the suppression of the
    default action and the diagnostic [console.error("Modal not found:", id)];
    no exception is among its effects. *)
Lemma missing_modal_is_logged (w : world) (h target : string) :
  JS.startsWith "#" h = true ->
  Basic.navMap_get (JS.replace_first "#" h) = Some target ->
  getElementById target w = None ->
  Basic.nav_click (Some h) w
  = set_trace
      (trace w ++
       [ Console "log" ("Navigation clicked: " +:+ JS.replace_first "#" h);
         PreventDefault;
         Console "error" ("Modal not found: " +:+ target) ]) w.
Proof.
  intros Hs Ht Hi. unfold Basic.nav_click. rewrite Hs. cbn [negb]. cbv zeta.
  rewrite Ht.
  change (getElementById target (emit PreventDefault (console_log _ w)))
    with (getElementById target w).
  rewrite Hi. unfold console_error, console_log, emit, set_trace.
  cbn [trace elements nav close_buttons overflow focused detached now timers
       enhanced_loaded components registry activeModal currentSection].
  by rewrite <- !app_assoc.
Qed.

Lemma missing_modal_is_logged_witness :
  let w := set_elements [] Page.index_html in
  JS.startsWith "#" "#projects" = true /\
  Basic.navMap_get (JS.replace_first "#" "#projects") = Some "modal-projects" /\
  getElementById "modal-projects" w = None /\
  Basic.nav_click (Some "#projects") w
  = set_trace
      (trace w ++
       [ Console "log" ("Navigation clicked: " +:+ JS.replace_first "#" "#projects");
         PreventDefault;
         Console "error" ("Modal not found: " +:+ "modal-projects") ]) w.
Proof.
  intros w.
  assert (H1 : JS.startsWith "#" "#projects" = true) by reflexivity.
  assert (H3 : getElementById "modal-projects" w = None) by reflexivity.
  split; [exact H1 |]. split; [exact navMap_get_projects |].
  split; [exact H3 |].
  exact (missing_modal_is_logged w "#projects" "modal-projects" H1
           navMap_get_projects H3).
Defined.

Lemma timers_step_fixup (w : world) : timers (fixup w) = timers w.
Proof.
  unfold fixup. destruct (focused w); try done; by destruct (can_focus w _).
Qed.

Lemma open_modals_elements (w w' : world) :
  elements w' = elements w -> Page.open_modals w' = Page.open_modals w.
Proof. intros H. unfold Page.open_modals. by rewrite H. Qed.

(** C8.  On the page as it is served (the components of app.js are not
    attached), when the key of the activated link is in the navigation map
    but no element carries the mapped id, the listener of main.js logs
    [Modal not found] and changes nothing, and the inline listener of
    index.html, which lacks that test, then reads [style] of the null
    lookup: the click ends with an uncaught TypeError.  No element, not the
    body's [overflow] and no timer changes. *)
Theorem missing_modal_throws (w : world) (n : nat) (h target : string) :
  enhanced_loaded w = false ->
  nav w !! n = Some (Some h) ->
  JS.startsWith "#" h = true ->
  Basic.navMap_get (JS.replace_first "#" h) = Some target ->
  getElementById target w = None ->
  added w (Page.step w (Page.ClickNav n))
  = [ Console "log" ("Navigation clicked: " +:+ JS.replace_first "#" h);
      PreventDefault;
      Console "error" ("Modal not found: " +:+ target);
      PreventDefault;
      Uncaught "TypeError: Cannot read properties of null (reading 'style')" ] /\
  elements (Page.step w (Page.ClickNav n)) = elements w /\
  overflow (Page.step w (Page.ClickNav n)) = overflow w /\
  timers (Page.step w (Page.ClickNav n)) = timers w.
Proof.
  intros Hen Hn Hs Ht Hi.
  assert (Hh : Page.handle (Page.ClickNav n) w
               = emit (Uncaught "TypeError: Cannot read properties of null (reading 'style')")
                   (emit PreventDefault (Basic.nav_click (Some h) w))).
  { cbn [Page.handle]. rewrite Hn, Hs. cbv zeta.
    rewrite (missing_modal_is_logged w h target Hs Ht Hi).
    unfold Inline.nav_click. change Inline.navMap_get with Basic.navMap_get.
    rewrite Ht. cbv zeta.
    change (getElementById target (emit PreventDefault (set_trace ?t w)))
      with (getElementById target w).
    rewrite Hi. proj_simpl. by rewrite Hen. }
  unfold added, Page.step.
  rewrite trace_fixup, elements_fixup, overflow_fixup, timers_step_fixup, Hh.
  rewrite (missing_modal_is_logged w h target Hs Ht Hi). proj_simpl.
  rewrite <- !app_assoc. by rewrite drop_app_length.
Qed.

Lemma missing_modal_throws_witness :
  let w := set_elements
             (filter (fun e => id e <> "modal-projects")
                     (elements Page.index_html)) Page.index_html in
  (enhanced_loaded w = false /\
   nav w !! 3 = Some (Some "#projects") /\
   getElementById "modal-projects" w = None) /\
  added w (Page.step w (Page.ClickNav 3))
  = [ Console "log" "Navigation clicked: projects"; PreventDefault;
      Console "error" "Modal not found: modal-projects"; PreventDefault;
      Uncaught "TypeError: Cannot read properties of null (reading 'style')" ] /\
  elements (Page.step w (Page.ClickNav 3)) = elements w /\
  overflow (Page.step w (Page.ClickNav 3)) = overflow w /\
  timers (Page.step w (Page.ClickNav 3)) = timers w.
Proof.
  intros w.
  assert (H0 : enhanced_loaded w = false) by reflexivity.
  assert (H1 : nav w !! 3 = Some (Some "#projects")) by reflexivity.
  assert (H2 : JS.startsWith "#" "#projects" = true) by reflexivity.
  assert (H3 : getElementById "modal-projects" w = None)
    by (vm_compute; reflexivity).
  split; [by repeat split |].
  exact (missing_modal_throws w 3 "#projects" "modal-projects" H0 H1 H2
           navMap_get_projects H3).
Defined.

Lemma navMap_get_hero : Basic.navMap_get (JS.replace_first "#" "#hero") = None.
Proof. vm_compute. reflexivity. Qed.

Lemma modalMap_hero :
  JS.get Enhanced.modalMap (JS.replace_first "#" "#hero") = JS.Undefined.
Proof. vm_compute. reflexivity. Qed.

Lemma basic_hero (w : world) :
  Basic.nav_click (Some "#hero") w
  = emit (ScrollTo 0 "smooth")
      (emit PreventDefault (console_log "Navigation clicked: hero" w)).
Proof.
  unfold Basic.nav_click. change (JS.startsWith "#" "#hero") with true.
  cbn [negb]. cbv zeta. rewrite navMap_get_hero. reflexivity.
Qed.

Lemma enhanced_hero (w : world) :
  Enhanced.handleNavigation "#hero" w
  = match getElementById "hero" w with
    | Some j =>
        set_currentSection "hero"
          (emit (ScrollIntoView j "smooth") (emit PreventDefault w))
    | None => emit PreventDefault w
    end.
Proof.
  unfold Enhanced.handleNavigation. cbv zeta. rewrite modalMap_hero.
  reflexivity.
Qed.

Lemma inline_hero (w : world) : Inline.nav_click (Some "#hero") w = w.
Proof.
  unfold Inline.nav_click. change Inline.navMap_get with Basic.navMap_get.
  by rewrite navMap_get_hero.
Qed.

(** The two handlers side by side.  For the fragment [hero] the click
    listener of main.js suppresses the default action and scrolls the window
    to the top, without any element lookup; [Navigation.handleNavigation]
    has no special case: it looks the element [#hero] up and, when it
    exists, scrolls it into view.  With or without the components of app.js
    the activation changes no element and not the body's [overflow], sets
    no timer, and the scroll to the top is among its effects. *)
Lemma hero_link_scrolls (w : world) :
  Basic.nav_click (Some "#hero") w
  = emit (ScrollTo 0 "smooth")
      (emit PreventDefault (console_log "Navigation clicked: hero" w)) /\
  Enhanced.handleNavigation "#hero" w
  = match getElementById "hero" w with
    | Some j =>
        set_currentSection "hero"
          (emit (ScrollIntoView j "smooth") (emit PreventDefault w))
    | None => emit PreventDefault w
    end /\
  forall n, nav w !! n = Some (Some "#hero") ->
    elements (Page.step w (Page.ClickNav n)) = elements w /\
    overflow (Page.step w (Page.ClickNav n)) = overflow w /\
    timers (Page.step w (Page.ClickNav n)) = timers w /\
    ScrollTo 0 "smooth" ∈ added w (Page.step w (Page.ClickNav n)).
Proof.
  split; [apply basic_hero |]. split; [apply enhanced_hero |].
  intros n Hn. unfold Page.step.
  rewrite elements_fixup, overflow_fixup, timers_step_fixup. unfold added.
  rewrite trace_fixup. cbn [Page.handle]. rewrite Hn.
  change (JS.startsWith "#" "#hero") with true. cbv zeta.
  rewrite basic_hero, inline_hero.
  change (default EmptyString (Some "#hero")) with "#hero".
  rewrite enhanced_hero.
  set (t3 := [Console "log" "Navigation clicked: hero"; PreventDefault;
              ScrollTo 0 "smooth"]).
  assert (Ht : forall x, trace w ++ [Console "log" "Navigation clicked: hero"]
                         ++ [PreventDefault] ++ [ScrollTo 0 "smooth"] ++ x
                         = trace w ++ (t3 ++ x)) by done.
  repeat case_match; proj_simpl; repeat split; try done;
    rewrite <- ?app_assoc;
    rewrite ?(Ht []), ?(Ht [_]), ?(Ht [_; _]); cbn [app];
    rewrite drop_app_length; set_solver.
Qed.

Lemma hero_link_scrolls_witness :
  nav Page.index_html !! 0 = Some (Some "#hero") /\
  elements (Page.step Page.index_html (Page.ClickNav 0))
  = elements Page.index_html /\
  ScrollTo 0 "smooth"
    ∈ added Page.index_html (Page.step Page.index_html (Page.ClickNav 0)).
Proof.
  assert (H1 : nav Page.index_html !! 0 = Some (Some "#hero")) by reflexivity.
  split; [exact H1 |].
  destruct (hero_link_scrolls Page.index_html) as (_ & _ & H).
  destruct (H 0 H1) as (He & _ & _ & Hs). by split.
Defined.

(** Were the components of app.js attached, [Navigation.handleNavigation]
    would look [#hero] up and scroll it into view, besides the scroll to
    the top of main.js. *)
Lemma hero_is_looked_up :
  ~ scrolls_to_top_only Page.index_html_enhanced
      (Enhanced.handleNavigation "#hero" Page.index_html_enhanced) /\
  ~ scrolls_to_top_only Page.index_html_enhanced
      (Page.step Page.index_html_enhanced (Page.ClickNav 0)).
Proof.
  split.
  - intros [H _]. vm_compute in H.
    repeat (apply elem_of_cons in H as [H | H]; [discriminate |]).
    by apply elem_of_nil in H.
  - intros [_ H]. apply (H 0 "smooth"). vm_compute.
    repeat first [apply list_elem_of_here | apply list_elem_of_further].
Qed.

(** C7.  On the page as it is served (the import of app.js is rejected, so
    the listeners of main.js and of the inline script are the only ones),
    activating a link whose fragment is [hero] has exactly three effects:
    the log line of main.js, the suppression of the default action and
    [window.scrollTo] with top 0 and smooth behaviour.  No element is
    looked up or scrolled into view, no element changes, the body's
    [overflow] and the timers are as before: no modal opens. *)
Theorem hero_link_scrolls_to_top (w : world) (n : nat) :
  enhanced_loaded w = false ->
  nav w !! n = Some (Some "#hero") ->
  Page.handle (Page.ClickNav n) w
  = emit (ScrollTo 0 "smooth")
      (emit PreventDefault (console_log "Navigation clicked: hero" w)) /\
  added w (Page.step w (Page.ClickNav n))
  = [ Console "log" "Navigation clicked: hero"; PreventDefault;
      ScrollTo 0 "smooth" ] /\
  scrolls_to_top_only w (Page.step w (Page.ClickNav n)) /\
  elements (Page.step w (Page.ClickNav n)) = elements w /\
  overflow (Page.step w (Page.ClickNav n)) = overflow w /\
  timers (Page.step w (Page.ClickNav n)) = timers w /\
  Page.open_modals (Page.step w (Page.ClickNav n)) = Page.open_modals w.
Proof.
  intros Hen Hn.
  assert (Hh : Page.handle (Page.ClickNav n) w
               = emit (ScrollTo 0 "smooth")
                   (emit PreventDefault
                      (console_log "Navigation clicked: hero" w))).
  { cbn [Page.handle]. rewrite Hn.
    change (JS.startsWith "#" "#hero") with true. cbv zeta.
    rewrite basic_hero, inline_hero. proj_simpl. by rewrite Hen. }
  assert (Ha : added w (Page.step w (Page.ClickNav n))
               = [ Console "log" "Navigation clicked: hero"; PreventDefault;
                   ScrollTo 0 "smooth" ]).
  { unfold added, Page.step. rewrite trace_fixup, Hh. proj_simpl.
    rewrite <- !app_assoc. by rewrite drop_app_length. }
  assert (He : elements (Page.step w (Page.ClickNav n)) = elements w).
  { unfold Page.step. by rewrite elements_fixup, Hh. }
  split; [exact Hh |]. split; [exact Ha |]. split.
  { unfold scrolls_to_top_only. rewrite Ha. split.
    - repeat first [apply list_elem_of_here | apply list_elem_of_further].
    - intros j b Hin.
      repeat (apply elem_of_cons in Hin as [Hin | Hin]; [discriminate |]).
      by apply elem_of_nil in Hin. }
  split; [exact He |].
  split; [unfold Page.step; by rewrite overflow_fixup, Hh |].
  split; [unfold Page.step; by rewrite timers_step_fixup, Hh |].
  by apply open_modals_elements.
Qed.

Lemma hero_link_scrolls_to_top_witness :
  enhanced_loaded Page.index_html = false /\
  nav Page.index_html !! 0 = Some (Some "#hero") /\
  added Page.index_html (Page.step Page.index_html (Page.ClickNav 0))
  = [ Console "log" "Navigation clicked: hero"; PreventDefault;
      ScrollTo 0 "smooth" ] /\
  scrolls_to_top_only Page.index_html
    (Page.step Page.index_html (Page.ClickNav 0)) /\
  Page.open_modals (Page.step Page.index_html (Page.ClickNav 0)) = [].
Proof.
  assert (H0 : enhanced_loaded Page.index_html = false) by reflexivity.
  assert (H1 : nav Page.index_html !! 0 = Some (Some "#hero")) by reflexivity.
  destruct (hero_link_scrolls_to_top Page.index_html 0 H0 H1)
    as (_ & Ha & Hs & _ & _ & _ & Ho).
  split; [exact H0 |]. split; [exact H1 |]. split; [exact Ha |].
  split; [exact Hs |]. rewrite Ho. vm_compute. reflexivity.
Defined.

(** [Modal.close] on a modal that is not Open returns the page as it is:
    nothing is written, no timer is set, the focus is not touched.
    [closeModal] of main.js has no such guard: whatever the state of the
    modal, it writes [display: none] and [aria-hidden="true"] and resets the
    body's [overflow]. *)
Lemma closed_modal_close (w : world) :
  (forall ci, Enhanced.isOpen ci w = false -> Enhanced.close ci w = w) /\
  (forall i e, elements w !! i = Some e ->
     hidden i (Basic.closeModal i w) /\
     overflow (Basic.closeModal i w) = EmptyString).
Proof.
  split.
  - intros ci H. unfold Enhanced.close. by rewrite H.
  - intros i e He. split; [by apply (closeModal_hidden _ i e) |].
    apply overflow_closeModal.
Qed.

Lemma closed_modal_close_witness :
  Enhanced.isOpen 2 Page.index_html_enhanced = false /\
  Enhanced.close 2 Page.index_html_enhanced = Page.index_html_enhanced /\
  hidden 5 (Basic.closeModal 5 Page.index_html_enhanced).
Proof.
  assert (H1 : Enhanced.isOpen 2 Page.index_html_enhanced = false)
    by (vm_compute; reflexivity).
  destruct (closed_modal_close Page.index_html_enhanced) as [Hc Hb].
  split; [exact H1 |]. split; [exact (Hc 2 H1) |].
  destruct (elements Page.index_html_enhanced !! 5) as [e |] eqn:He;
    [| by vm_compute in He].
  exact (proj1 (Hb 5 e He)).
Defined.

(** C3.  On index.html, with the contact modal Open, a click on the close
    control of the contact modal is resolved by the listener of main.js,
    through the selector [.modal[style*="flex"]], to the projects modal
    (its markup has [align-items: flex-start]), which is Closed.  The close
    of that Closed modal is no no-op: [closeModal] rewrites its [display]
    from the empty value to [none], releases the scroll lock of the page and
    moves the focus to the link of the projects; the contact modal, whose
    control was clicked, is still Open. *)
Theorem close_of_closed_modal_writes :
  let w := Page.run [Page.UserFocus (Elsewhere 0); Page.ClickNav 5]
             Page.index_html in
  let w' := Page.step w (Page.ClickClose 4) in
  Page.open_modals w = [7] /\
  (is_open <$> elements w !! 5) = Some false /\
  Page.handle (Page.ClickClose 4) w
  = Basic.closeModal 5
      (console_log "Force closing open modal: modal-projects"
         (console_log "Button element:" (console_log "Event target:"
            (console_log "Close button clicked"
               (emit StopImmediatePropagation (emit StopPropagation
                  (emit PreventDefault w))))))) /\
  ~ (elements w' = elements w /\ overflow w' = overflow w /\
     focused w' = focused w) /\
  overflow w = "hidden" /\ overflow w' = EmptyString /\
  focused w = Elsewhere 0 /\ focused w' = NavLink 3 /\
  (display <$> elements w !! 5) = Some EmptyString /\
  (display <$> elements w' !! 5) = Some "none" /\
  Page.open_modals w' = [7].
Proof.
  cbv zeta.
  split; [vm_compute; reflexivity |].
  split; [vm_compute; reflexivity |]. split; [vm_compute; reflexivity |].
  split; [intros (_ & H & _); vm_compute in H; discriminate |].
  split; [vm_compute; reflexivity |]. split; [vm_compute; reflexivity |].
  split; [vm_compute; reflexivity |]. split; [vm_compute; reflexivity |].
  split; [vm_compute; reflexivity |].
  split; vm_compute; reflexivity.
Qed.

End ScenarioProps.

(** ** Opening and then closing a modal *)

Module RoundTripProps.
Import Dom DomProps QuietProps ShowProps FrameProps ScenarioProps Spec.

(** *** The order in which timers fire *)

Lemma elem_of_insert_by_due (q p : nat * task) (l : list (nat * task)) :
  q ∈ insert_by_due p l <-> q = p \/ q ∈ l.
Proof.
  induction l as [| r l IH]; cbn.
  - rewrite list_elem_of_singleton, elem_of_nil. tauto.
  - case_match; rewrite ?elem_of_cons, ?IH; rewrite ?elem_of_cons; tauto.
Qed.

Lemma elem_of_foldl_insert (q : nat * task) (l acc : list (nat * task)) :
  q ∈ foldl (fun acc p => insert_by_due p acc) acc l <-> q ∈ acc \/ q ∈ l.
Proof.
  revert acc. induction l as [| p l IH]; intros acc; cbn.
  - rewrite elem_of_nil. tauto.
  - rewrite IH, elem_of_insert_by_due, elem_of_cons. tauto.
Qed.

Lemma elem_of_order_by_due (q : nat * task) (l : list (nat * task)) :
  q ∈ order_by_due l <-> q ∈ l.
Proof.
  unfold order_by_due. rewrite elem_of_foldl_insert, elem_of_nil. tauto.
Qed.

Lemma insert_by_due_last (p : nat * task) (l : list (nat * task)) :
  Forall (fun q => q.1 <= p.1) l -> insert_by_due p l = l ++ [p].
Proof.
  induction 1 as [| q l Hq _ IH]; cbn [insert_by_due]; [done |].
  cbn in Hq. destruct (Nat.ltb_spec p.1 q.1); [exfalso; lia |]. by rewrite IH.
Qed.

Lemma order_by_due_snoc (p : nat * task) (l : list (nat * task)) :
  Forall (fun q => q.1 <= p.1) l ->
  order_by_due (l ++ [p]) = order_by_due l ++ [p].
Proof.
  intros Hl.
  assert (Hs : order_by_due (l ++ [p]) = insert_by_due p (order_by_due l))
    by (unfold order_by_due; by rewrite foldl_app).
  rewrite Hs. apply insert_by_due_last. apply Forall_forall. intros q Hq.
  apply (proj1 (elem_of_order_by_due q l)) in Hq.
  by apply (proj1 (Forall_forall _ _) Hl).
Qed.

(** The timer set last and due last is the last to fire. *)
Lemma advance_last (w : world) (pending : list (nat * task)) (dur : nat)
    (t : task) :
  timers w = pending ++ [(now w + dur, t)] ->
  Page.advance dur w
  = fixup (Page.run_task t
      (foldl (fun w p => fixup (Page.run_task p.2 w))
         (set_now (now w + dur)
            (set_timers (filter (fun p => ~ p.1 <= now w + dur) pending) w))
         (order_by_due (filter (fun p => p.1 <= now w + dur) pending)))).
Proof.
  intros Ht. unfold Page.advance. rewrite Ht. rewrite !filter_app.
  rewrite (filter_cons_True (fun p : nat * task => p.1 <= now w + dur))
    by (cbn; lia).
  rewrite (filter_cons_False (fun p : nat * task => ~ p.1 <= now w + dur))
    by (cbn; lia).
  rewrite !filter_nil, app_nil_r.
  rewrite order_by_due_snoc.
  - by rewrite foldl_app.
  - apply Forall_forall. intros q Hq. apply list_elem_of_filter in Hq as [Hq _].
    done.
Qed.

(** *** The enhanced layer *)

Section enhanced.

Variables (ci : nat) (c0 : component) (prev : node).
Variables (D : list node) (N : list (option string)).

Local Abbreviation steady := (steady ci c0 prev D N).

Lemma steady_focus (n : node) (w : world) : steady w -> steady (focus n w).
Proof. unfold focus. by destruct (can_focus w n). Qed.

Lemma steady_fixup (w : world) : steady w -> steady (fixup w).
Proof. unfold fixup. destruct (focused w); try done; by destruct (can_focus w _). Qed.

Lemma timers_focus (n : node) (w : world) : timers (focus n w) = timers w.
Proof. unfold focus. by destruct (can_focus w n). Qed.

Lemma timers_fixup (w : world) : timers (fixup w) = timers w.
Proof. unfold fixup. destruct (focused w); try done; by destruct (can_focus w _). Qed.

Lemma steady_panel (j : nat) (f : list string -> list string) (w : world) :
  steady w ->
  steady (update_element j (fun e => set_panel (f <$> panel e) e) w).
Proof.
  intros ((Hc & e & He & Hd & Hp) & HD & HN). repeat split; try done.
  proj_simpl. destruct (decide (j = element_of c0)) as [-> | Hne].
  - exists (set_panel (f <$> panel e) e).
    rewrite list_lookup_alter_eq, He. repeat split; [done |].
    cbn. destruct Hp as [x ->]. by eexists.
  - exists e. by rewrite list_lookup_alter_ne.
Qed.

Lemma now_focus (n : node) (w : world) : now (focus n w) = now w.
Proof. unfold focus. by destruct (can_focus w n). Qed.

Lemma now_fixup (w : world) : now (fixup w) = now w.
Proof. unfold fixup. destruct (focused w); try done; by destruct (can_focus w _). Qed.

Lemma run_task_calm (t : task) (w : world) :
  calm_task t -> steady w ->
  steady (Page.run_task t w) /\ timers (Page.run_task t w) = timers w /\
  now (Page.run_task t w) = now w.
Proof.
  intros Ht Hs. destruct t as [i | cj | cj cls [|]]; [| | done |];
    cbn [Page.run_task].
  - unfold Basic.focus_first_focusable. repeat case_match; try done.
    split; [by apply steady_focus |]. by rewrite timers_focus, now_focus.
  - unfold Enhanced.focusFirstElement. repeat case_match; try done.
    split; [by apply steady_focus |]. by rewrite timers_focus, now_focus.
  - unfold Enhanced.animation_end. case_match; [| done].
    split; [by apply steady_panel | done].
Qed.

Lemma foldl_calm (l : list (nat * task)) (w : world) :
  Forall (fun p => calm_task p.2) l -> steady w ->
  steady (foldl (fun w p => fixup (Page.run_task p.2 w)) w l) /\
  timers (foldl (fun w p => fixup (Page.run_task p.2 w)) w l) = timers w /\
  now (foldl (fun w p => fixup (Page.run_task p.2 w)) w l) = now w.
Proof.
  intros Hl. revert w. induction Hl as [| p l Hp _ IH]; intros w Hs; [done |].
  cbn [foldl]. destruct (run_task_calm p.2 w Hp Hs) as (Hs' & Ht' & Hn').
  destruct (IH (fixup (Page.run_task p.2 w)) (steady_fixup _ Hs'))
    as (Hs2 & Ht2 & Hn2).
  split; [done |]. by rewrite Ht2, Hn2, timers_fixup, now_fixup.
Qed.

Lemma calm_due (P : nat * task -> Prop) `{forall p, Decision (P p)}
    (l : list (nat * task)) :
  Forall (fun p => calm_task p.2) l ->
  Forall (fun p => calm_task p.2) (order_by_due (filter P l)).
Proof.
  intros Hl. apply Forall_forall. intros q Hq.
  apply (proj1 (elem_of_order_by_due q _)) in Hq.
  apply list_elem_of_filter in Hq as [_ Hq].
  by apply (proj1 (Forall_forall _ _) Hl).
Qed.

Lemma advance_calm (dt : nat) (w : world) :
  calm w -> steady w ->
  steady (Page.advance dt w) /\ calm (Page.advance dt w) /\
  now (Page.advance dt w) = now w + dt.
Proof.
  intros Hc Hs. unfold Page.advance.
  match goal with
  | |- context [foldl ?f ?w0 ?l] =>
      destruct (foldl_calm l w0) as (Hs' & Ht' & Hn')
  end.
  - by apply calm_due.
  - done.
  - split; [done |]. split; [| by rewrite Hn'].
    unfold calm. rewrite Ht'. cbn [timers set_now set_timers].
    apply Forall_forall. intros q Hq.
    apply list_elem_of_filter in Hq as [_ Hq].
    by apply (proj1 (Forall_forall _ _) Hc).
Qed.

(** [Modal.open] on a page where nothing is shown and no timer is pending. *)
Lemma isOpen_none (cj : nat) (w : world) :
  (forall k e, elements w !! k = Some e -> is_open e = false) ->
  Enhanced.isOpen cj w = false.
Proof.
  intros H. unfold Enhanced.isOpen. repeat case_match; try done. eauto.
Qed.

Lemma close_all_none (w : world) :
  (forall k e, elements w !! k = Some e -> is_open e = false) ->
  Enhanced.close_all_subscriber w = w.
Proof.
  intros H. unfold Enhanced.close_all_subscriber.
  generalize (registry w). intros l. induction l as [| p l IH]; [done |].
  cbn [foldl]. rewrite (isOpen_none p.2 w H), andb_false_r. apply IH.
Qed.

Lemma open_steady (w : world) (e : element) (classes : list string) :
  components w !! ci = Some c0 ->
  elements w !! element_of c0 = Some e -> panel e = Some classes ->
  (forall k e, elements w !! k = Some e -> is_open e = false) ->
  timers w = [] -> prev = focused w -> D = detached w -> N = nav w ->
  steady (Enhanced.open ci w) /\ calm (Enhanced.open ci w) /\
  now (Enhanced.open ci w) = now w.
Proof.
  intros Hc He Hp Hnone Ht Hprev HD HN. unfold Enhanced.open.
  rewrite Hc, (isOpen_none ci w Hnone). cbv zeta.
  rewrite (close_all_none (emit _ w)) by exact Hnone.
  unfold Enhanced.applyAnimation, Enhanced.trackModalUsage. proj_simpl.
  rewrite list_lookup_alter_eq, Hc. cbn [fmap option_fmap option_map element_of
    set_previouslyFocused].
  rewrite !list_lookup_alter_eq, He.
  cbn [fmap option_fmap option_map panel set_aria_hidden set_display]. rewrite Hp.
  unfold steady, opened, calm. proj_simpl. rewrite Ht, Hprev, HD, HN.
  repeat split.
  - by rewrite list_lookup_alter_eq, Hc.
  - rewrite !list_lookup_alter_eq, He. cbn. eauto.
  - by repeat constructor.
Qed.

Lemma close_steady (w : world) :
  steady w ->
  exists cls w',
    Enhanced.close ci w
    = setTimeout (AnimationEnd ci cls true) (animationDuration c0) w' /\
    steady w' /\ timers w' = timers w /\ now w' = now w.
Proof.
  intros ((Hc & e & He & Hd & [classes Hp]) & HD & HN).
  unfold Enhanced.close, Enhanced.isOpen, Enhanced.applyAnimation.
  rewrite Hc. cbn [element_of set_previouslyFocused animation animationDuration].
  rewrite He. unfold is_open. rewrite bool_decide_eq_true_2 by done.
  rewrite Hp. cbv zeta. eexists _, _. split; [reflexivity |].
  repeat split; try done. proj_simpl.
  eexists. rewrite list_lookup_alter_eq, He. cbn. eauto.
Qed.

Lemma can_focus_ext (w w' : world) (n : node) :
  elements w' = elements w -> detached w' = detached w -> nav w' = nav w ->
  can_focus w' n = can_focus w n.
Proof.
  intros He Hd Hn. unfold can_focus, element_rendered, descendant_disabled.
  by rewrite He, Hd, Hn.
Qed.

Lemma finish_steady (cls : string) (w : world) :
  steady w ->
  hidden (element_of c0) (fixup (Page.run_task (AnimationEnd ci cls true) w)) /\
  overflow (fixup (Page.run_task (AnimationEnd ci cls true) w)) = EmptyString /\
  components (fixup (Page.run_task (AnimationEnd ci cls true) w)) !! ci
  = Some (set_previouslyFocused (Some prev) c0) /\
  (can_focus (fixup (Page.run_task (AnimationEnd ci cls true) w)) prev = true ->
   focused (fixup (Page.run_task (AnimationEnd ci cls true) w)) = prev).
Proof.
  intros ((Hc & e & He & Hd & Hp) & HD & HN).
  cbn [Page.run_task]. unfold Enhanced.animation_end. rewrite Hc.
  cbn [element_of set_previouslyFocused]. cbv zeta.
  unfold Enhanced.close_finish. proj_simpl. rewrite Hc.
  cbn [element_of set_previouslyFocused previouslyFocused]. cbv zeta.
  set (i := element_of c0) in *.
  set (wb := update_element i (set_aria_hidden "true")
               (update_element i (set_display "none")
                  (update_element i
                     (fun e => set_panel (classList_remove cls <$> panel e) e) w))).
  set (wf := emit _ (set_activeModal None (set_overflow EmptyString (focus prev wb)))).
  assert (Hel : elements wf = elements wb) by (unfold wf; proj_simpl; apply elements_focus).
  assert (Hdet : detached wf = detached wb).
  { unfold wf. proj_simpl. unfold focus. by destruct (can_focus wb prev). }
  assert (Hnav : nav wf = nav wb).
  { unfold wf. proj_simpl. unfold focus. by destruct (can_focus wb prev). }
  assert (Hcomp : components wf = components w).
  { unfold wf. proj_simpl. unfold focus. by destruct (can_focus wb prev). }
  assert (Hfoc : can_focus wb prev = true -> focused wf = prev).
  { intros H. unfold wf. proj_simpl. unfold focus. by rewrite H. }
  assert (Hcf : can_focus wf prev = can_focus wb prev) by by apply can_focus_ext.
  split; [| split; [| split]].
  - apply hidden_fixup. unfold hidden. rewrite Hel. unfold wb. proj_simpl.
    rewrite !list_lookup_alter_eq, He. cbn. eauto.
  - rewrite overflow_fixup. unfold wf. by proj_simpl.
  - by rewrite components_fixup, Hcomp.
  - intros H.
    assert (Hx : can_focus wf prev = true).
    { rewrite <- H. symmetry. apply can_focus_ext;
        [apply elements_fixup | apply detached_fixup | apply nav_fixup]. }
    rewrite Hcf in Hx. specialize (Hfoc Hx).
    unfold fixup. rewrite Hfoc. destruct prev; try done; by rewrite Hcf, Hx.
Qed.

End enhanced.

(** The enhanced round trip: [open], any delay, [close], and the closing
    animation. *)
Lemma enhanced_round_trip (w : world) (ci : nat) (c : component) (e : element)
    (classes : list string) (d1 : nat) :
  components w !! ci = Some c ->
  elements w !! element_of c = Some e -> panel e = Some classes ->
  (forall k e, elements w !! k = Some e -> is_open e = false) ->
  timers w = [] ->
  let w4 := Page.advance (animationDuration c)
              (Enhanced.close ci (Page.advance d1 (Enhanced.open ci w))) in
  hidden (element_of c) w4 /\ overflow w4 = EmptyString /\
  (previouslyFocused <$> components w4 !! ci) = Some (Some (focused w)) /\
  (can_focus w4 (focused w) = true -> focused w4 = focused w).
Proof.
  intros Hc He Hp Hnone Ht.
  destruct (open_steady ci c (focused w) (detached w) (nav w) w e classes
              Hc He Hp Hnone Ht eq_refl eq_refl eq_refl) as (Hs1 & Hc1 & Hn1).
  destruct (advance_calm ci c (focused w) (detached w) (nav w) d1 _ Hc1 Hs1)
    as (Hs2 & Hc2 & Hn2).
  destruct (close_steady ci c (focused w) (detached w) (nav w) _ Hs2)
    as (cls & w3 & Heq & Hs3 & Ht3 & Hn3).
  cbv zeta. rewrite Heq.
  rewrite (advance_last _ (timers w3) (animationDuration c)
             (AnimationEnd ci cls true)) by reflexivity.
  match goal with
  | |- context [foldl ?f ?w0 ?l] =>
      destruct (foldl_calm ci c (focused w) (detached w) (nav w) l w0)
        as (Hs4 & _ & _)
  end.
  - apply calm_due. by rewrite Ht3.
  - done.
  - destruct (finish_steady ci c (focused w) (detached w) (nav w) cls _ Hs4)
      as (Hh & Ho & Hcomp & Hf).
    repeat split; try done. by rewrite Hcomp.
Qed.

(** *** The basic layer *)

Lemma basic_round_trip (w : world) (h target : string) (i : nat) :
  JS.startsWith "#" h = true ->
  Basic.navMap_get (JS.replace_first "#" h) = Some target ->
  getElementById target w = Some i ->
  let w2 := Basic.closeModal i (Basic.nav_click (Some h) w) in
  hidden i w2 /\ overflow w2 = EmptyString /\
  forall m, Basic.trigger_link (JS.replace_first "modal-" target) w = Some m ->
            NavLink m ∉ detached w -> focused w2 = NavLink m.
Proof.
  intros Hs Ht Hi. cbv zeta.
  destruct (basic_nav_click_found w h target i Hs Ht Hi) as [(e1 & He1 & _) _].
  set (w1 := Basic.nav_click (Some h) w) in *.
  split; [by apply (closeModal_hidden _ i e1) |].
  split; [apply overflow_closeModal |].
  intros m Hm Hdet.
  destruct (getElementById_Some _ _ _ Hi) as (e & He & Hid).
  assert (Hid1 : id e1 = target).
  { destruct (rel_lookup _ w w1 i e (ids_nav_click (Some h) w) He)
      as (e' & He' & Hid'). congruence. }
  unfold Basic.closeModal. cbv zeta.
  assert (Hname : element_id i w1 = target) by (unfold element_id; by rewrite He1).
  rewrite Hname.
  match goal with
  | |- context [Basic.trigger_link _ ?wY] =>
      assert (HnavY : nav wY = nav w)
        by (frame_rewrite; apply nav_nav_click);
      assert (HdetY : detached wY = detached w)
        by (frame_rewrite; apply detached_nav_click);
      assert (Htrig : Basic.trigger_link (JS.replace_first "modal-" target) wY
                      = Some m)
        by (unfold Basic.trigger_link in *; by rewrite HnavY);
      rewrite Htrig;
      assert (Hcan : can_focus wY (NavLink m) = true)
  end.
  { unfold can_focus. rewrite HdetY, HnavY, bool_decide_eq_true_2 by done.
    unfold Basic.trigger_link in Hm.
    destruct (list_find _ (nav w)) as [[m' x] |] eqn:E; [| done].
    cbn in Hm. injection Hm as ->.
    apply list_find_Some in E as (E & -> & _). by rewrite E. }
  proj_simpl. unfold focus. by rewrite Hcan.
Qed.

(** [Modal.close] on a modal without a [.modal-content] panel:
    [applyAnimation] returns at once, the callback that hides the modal is
    never run and nothing changes. *)
Lemma close_without_panel (w : world) (ci : nat) (c : component) (e : element) :
  components w !! ci = Some c -> elements w !! element_of c = Some e ->
  panel e = None -> Enhanced.close ci w = w.
Proof.
  intros Hc He Hp. unfold Enhanced.close, Enhanced.applyAnimation.
  rewrite Hc, He, Hp. by case_match.
Qed.

(** Such a modal stays Open after [open] and [close], with the scroll
    locked and no closing callback pending. *)
Example round_trip_without_panel :
  let w := update_element 5 (set_panel None) Page.index_html_enhanced in
  let w2 := Enhanced.close 2 (Enhanced.open 2 w) in
  Page.open_modals w = [] /\ overflow w = EmptyString /\
  Page.open_modals w2 = [5] /\ overflow w2 = "hidden" /\
  timers w2 = [(50, FocusFirstElement 2)] /\
  Page.open_modals (Page.advance 300 w2) = [5].
Proof. cbv zeta. repeat split; vm_compute; reflexivity. Qed.

(** C2, as the code has it.  [Modal] of UIComponents.js, for a modal with
    a [.modal-content] panel, on a page where no element is shown and no
    timer is pending: after [open], any delay, [close] and the closing
    animation, the modal is hidden, the body's [overflow] is the empty
    (unlocked) value, the component still holds the element that had the
    focus before [open] (the reference is kept), and that element has the
    focus again if it can take it.  For a modal without such a panel [close]
    changes nothing.  main.js: after the click listener of the link and
    [closeModal], the modal is hidden, the body's [overflow] is the empty
    value, and the focus is on the navigation link of the modal when the
    page has it attached (nothing was captured at opening). *)
Theorem round_trip_unlocks_and_refocuses (w : world) :
  (forall ci c e classes d1,
     components w !! ci = Some c ->
     elements w !! element_of c = Some e -> panel e = Some classes ->
     (forall k e, elements w !! k = Some e -> is_open e = false) ->
     timers w = [] ->
     let w4 := Page.advance (animationDuration c)
                 (Enhanced.close ci (Page.advance d1 (Enhanced.open ci w))) in
     hidden (element_of c) w4 /\ overflow w4 = EmptyString /\
     (previouslyFocused <$> components w4 !! ci) = Some (Some (focused w)) /\
     (can_focus w4 (focused w) = true -> focused w4 = focused w)) /\
  (forall ci c e,
     components w !! ci = Some c ->
     elements w !! element_of c = Some e -> panel e = None ->
     Enhanced.close ci w = w) /\
  (forall h target i,
     JS.startsWith "#" h = true ->
     Basic.navMap_get (JS.replace_first "#" h) = Some target ->
     getElementById target w = Some i ->
     let w2 := Basic.closeModal i (Basic.nav_click (Some h) w) in
     hidden i w2 /\ overflow w2 = EmptyString /\
     forall m, Basic.trigger_link (JS.replace_first "modal-" target) w = Some m ->
               NavLink m ∉ detached w -> focused w2 = NavLink m).
Proof.
  split; [| split].
  - intros ci c e classes d1. apply enhanced_round_trip.
  - intros ci c e. apply close_without_panel.
  - intros h target i. apply basic_round_trip.
Qed.

Lemma round_trip_unlocks_and_refocuses_witness :
  let wb := Page.step Page.index_html (Page.UserFocus (NavLink 3)) in
  let w2 := Basic.closeModal 5 (Basic.nav_click (Some "#projects") wb) in
  let w := Page.step Page.index_html_enhanced (Page.UserFocus (NavLink 3)) in
  let w4 := Page.advance 300
              (Enhanced.close 2 (Page.advance 50 (Enhanced.open 2 w))) in
  let wn := Enhanced.open 2
              (update_element 5 (set_panel None) Page.index_html_enhanced) in
  (hidden 5 w2 /\ overflow w2 = EmptyString /\ focused w2 = NavLink 3) /\
  (timers w = [] /\ focused w = NavLink 3 /\ Page.open_modals w = []) /\
  (hidden 5 w4 /\ overflow w4 = EmptyString /\
   (previouslyFocused <$> components w4 !! 2) = Some (Some (NavLink 3)) /\
   focused w4 = NavLink 3) /\
  (Page.open_modals wn = [5] /\ Enhanced.close 2 wn = wn).
Proof.
  intros wb w2 w w4 wn.
  destruct (round_trip_unlocks_and_refocuses wb) as (_ & _ & Hbasic).
  destruct (round_trip_unlocks_and_refocuses w) as (Henh & _ & _).
  destruct (round_trip_unlocks_and_refocuses wn) as (_ & Hnone' & _).
  assert (Hc : components w !! 2 = Some (Enhanced.new_Modal 5))
    by (vm_compute; reflexivity).
  destruct (elements w !! 5) as [e |] eqn:He; [| by vm_compute in He].
  assert (Hp : panel e = Some ["modal-content"]).
  { vm_compute in He. injection He as <-. reflexivity. }
  assert (Hnone : forall k e, elements w !! k = Some e -> is_open e = false).
  { intros k e' Hk. do 8 (destruct k as [| k];
      [vm_compute in Hk; injection Hk as <-; reflexivity |]).
    vm_compute in Hk. discriminate. }
  assert (Ht : timers w = []) by (vm_compute; reflexivity).
  destruct (Henh 2 (Enhanced.new_Modal 5) e ["modal-content"] 50 Hc He Hp Hnone Ht)
    as (H1 & H2 & H3 & H4).
  assert (Hg : getElementById "modal-projects" wb = Some 5)
    by (vm_compute; reflexivity).
  destruct (Hbasic "#projects" "modal-projects" 5 eq_refl navMap_get_projects Hg)
    as (H5 & H6 & H7).
  assert (Hcn : components wn !! 2
                = Some (set_previouslyFocused (Some Body) (Enhanced.new_Modal 5)))
    by (vm_compute; reflexivity).
  destruct (elements wn !! 5) as [en |] eqn:Hen; [| by vm_compute in Hen].
  assert (Hpn : panel en = None).
  { vm_compute in Hen. injection Hen as <-. reflexivity. }
  split; [| split; [| split]].
  - split; [exact H5 |]. split; [exact H6 |].
    apply (H7 3); [vm_compute; reflexivity |].
    intros Hin. vm_compute in Hin. by apply elem_of_nil in Hin.
  - repeat split; vm_compute; reflexivity.
  - split; [exact H1 |]. split; [exact H2 |]. split; [exact H3 |].
    apply H4. vm_compute. reflexivity.
  - split; [vm_compute; reflexivity |].
    exact (Hnone' 2 _ en Hcn Hen Hpn).
Defined.

(** C2 as stated fails on index.html.  The body's [overflow] is not
    restored to its value before the opening: with the contact modal Open
    (scroll locked), activating the link of the projects and closing the
    projects modal by a click on its backdrop leaves the scroll unlocked
    while the contact modal is still Open.  The focus does not go back to
    the element focused before the opening: when the link is activated while
    another element has the focus, closing the modal puts the focus on the
    link of the projects, although the former element can still take it. *)
Lemma round_trip_unlocks_and_moves_focus :
  (let w := Page.step Page.index_html (Page.ClickNav 5) in
   let w2 := Page.run [Page.ClickNav 3; Page.ClickModal 5 (Element 5)] w in
   Page.open_modals w = [7] /\ overflow w = "hidden" /\
   Page.open_modals (Page.step w (Page.ClickNav 3)) = [5; 7] /\
   Page.open_modals w2 = [7] /\ overflow w2 = EmptyString /\
   ~ overflow w2 = overflow w) /\
  (let w := Page.step Page.index_html (Page.UserFocus (Elsewhere 0)) in
   let w2 := Page.run [Page.ClickNav 3; Page.ClickModal 5 (Element 5)] w in
   focused w = Elsewhere 0 /\
   Page.open_modals (Page.step w (Page.ClickNav 3)) = [5] /\
   Page.open_modals w2 = [] /\
   can_focus w2 (Elsewhere 0) = true /\ focused w2 = NavLink 3 /\
   ~ focused w2 = focused w).
Proof.
  split; cbv zeta.
  - repeat split; try (vm_compute; reflexivity).
    intros H. vm_compute in H. discriminate.
  - repeat split; try (vm_compute; reflexivity).
    intros H. vm_compute in H. discriminate.
Qed.

End RoundTripProps.

(** * Further properties of the modules *)

(** Membership in an explicit list. *)
Ltac list_mem :=
  repeat (rewrite elem_of_cons in * );
  repeat (rewrite elem_of_nil in * );
  intuition congruence.

(** A closed decidable proposition, by evaluation. *)
Ltac by_evaluation :=
  lazymatch goal with
  | |- ?P => apply (bool_decide_eq_true_1 P); vm_compute; reflexivity
  end.


Module LoggerQueriesProps.
Import Logger LoggerQueries.

Lemma enabled_level_name (lvl : string) (s : t) :
  is_number (currentLevel s) = true -> enabled lvl s = true ->
  lvl ∈ level_names.
Proof.
  unfold enabled, JS.get. destruct (currentLevel s) as [n | name]; [| done].
  intros _. destruct (levels !! lvl) as [k |] eqn:E.
  - intros _. apply elem_of_list_to_map_2 in E.
    unfold level_names. list_mem.
  - by case_bool_decide.
Qed.

Lemma push_capped_Forall (P : entry -> Prop) (s : t) (x : entry) :
  Forall P (logs s) -> P x -> Forall P (push_capped s x).
Proof.
  intros Hl Hx. unfold push_capped.
  assert (Forall P (logs s ++ [x])) as Hall.
  { apply Forall_app. split; [done |]. by apply Forall_singleton. }
  cbv zeta. case_match; [| done].
  unfold JS.slice_from_end. case_match; [done |]. by apply Forall_drop.
Qed.

Lemma log_Forall (P : entry -> Prop) (e : env) (lvl msg : string)
    (d : option string) (s : t) :
  Forall P (logs s) -> (enabled lvl s = true -> P (logEntry e lvl msg d)) ->
  Forall P (logs (log e lvl msg d s).1).
Proof.
  intros Hl Hp. unfold log. destruct (enabled lvl s); [| done].
  pose proof (push_capped_Forall P s (logEntry e lvl msg d) Hl (Hp eq_refl)).
  by destruct (console_member_of lvl).
Qed.

Lemma step_Forall (P : entry -> Prop) (s : t) (c : call) :
  (forall e lvl msg d, enabled lvl s = true -> P (logEntry e lvl msg d)) ->
  Forall P (logs s) -> Forall P (logs (step s c).1).
Proof.
  intros Hp Hl.
  destruct c; cbn [step fst]; unfold error, warn, info, debug;
    try (apply log_Forall; [done | apply Hp]).
  - constructor.
  - unfold setLevel. by repeat case_match.
Qed.

Lemma log_currentLevel (e : env) (lvl msg : string) (d : option string) (s : t) :
  currentLevel (log e lvl msg d s).1 = currentLevel s.
Proof.
  unfold log. destruct (enabled lvl s); [| done].
  by destruct (console_member_of lvl).
Qed.

Lemma step_number (s : t) (c : call) :
  numeric_level c = true -> is_number (currentLevel s) = true ->
  is_number (currentLevel (step s c).1) = true.
Proof.
  intros Hc Hs.
  destruct c; cbn [step fst]; unfold error, warn, info, debug;
    rewrite ?log_currentLevel; try done.
  cbn [numeric_level] in Hc. apply negb_true_iff, bool_decide_eq_false in Hc.
  unfold setLevel, JS.get. destruct (levels !! lvl); [done |].
  by rewrite bool_decide_eq_false_2.
Qed.

Lemma run_levels (cs : list call) (s : t) :
  forallb numeric_level cs = true -> is_number (currentLevel s) = true ->
  Forall (fun e => level e ∈ level_names) (logs s) ->
  Forall (fun e => level e ∈ level_names) (logs (run cs s)).
Proof.
  revert s. induction cs as [| c cs IH]; intros s Hcs Hs Hl; [done |].
  cbn [forallb] in Hcs. apply andb_prop in Hcs as [Hc Hcs].
  cbn [run foldl]. apply IH; [done | by apply step_number |].
  apply step_Forall; [| done].
  intros e lvl msg d He. by apply (enabled_level_name lvl s).
Qed.

Lemma run_Forall (P : entry -> Prop) (cs : list call) (s : t) :
  (forall e lvl msg d, P (logEntry e lvl msg d)) ->
  Forall P (logs s) -> Forall P (logs (run cs s)).
Proof.
  intros Hp. revert s. induction cs as [| c cs IH]; intros s Hl; [done |].
  cbn [run foldl]. apply IH. apply step_Forall; [| done].
  intros e lvl msg d _. apply Hp.
Qed.

Lemma level_counts (l : list entry) :
  Forall (fun e => level e ∈ level_names) l ->
  length (filter (fun e => level e = "ERROR") l)
  + (length (filter (fun e => level e = "WARN") l)
     + (length (filter (fun e => level e = "INFO") l)
        + (length (filter (fun e => level e = "DEBUG") l) + 0)))
  = length l.
Proof.
  induction 1 as [| e l He _ IH]; [done |].
  rewrite !filter_cons. unfold level_names in He.
  repeat case_decide; cbn [length]; try lia; list_mem.
Qed.

(** X1.  [getStats] after any sequence of calls on a fresh logger in which
    [setLevel] is never given a name inherited from [Object.prototype]: the
    four counts of [byLevel] add up to [total]. *)
Theorem stats_add_up (cs : list call) :
  forallb numeric_level cs = true ->
  sum_list ((byLevel (getStats (run cs constructor))).*2)
  = total (getStats (run cs constructor)).
Proof.
  intros Hcs. unfold getStats.
  cbn [byLevel total level_names fmap list_fmap snd sum_list].
  apply level_counts. apply run_levels; [done | done | constructor].
Qed.

Lemma stats_add_up_witness :
  let e := Env "2025-01-01T00:00:00.000Z" "Error at main" in
  let cs := [ CInfo e "ready" None; CSetLevel "DEBUG"; CDebug e "detail" None;
              CError e "failed" None; CSetLevel "verbose";
              CLog e "toString" "ignored" None ] in
  forallb numeric_level cs = true /\
  getStats (run cs constructor)
  = Stats 3 [("ERROR", 1); ("WARN", 0); ("INFO", 1); ("DEBUG", 1)] /\
  sum_list ((byLevel (getStats (run cs constructor))).*2)
  = total (getStats (run cs constructor)).
Proof.
  intros e cs.
  assert (forallb numeric_level cs = true) as Hcs by (vm_compute; reflexivity).
  split; [exact Hcs |]. split; [vm_compute; reflexivity |].
  exact (stats_add_up cs Hcs).
Defined.

(** Once the level is a value inherited from [Object.prototype], an entry
    under an inherited name is stored and [getStats] counts it in [total]
    only. *)
Example stats_miss_inherited_levels :
  let e := Env "2025-01-01T00:00:00.000Z" "Error at main" in
  getStats (run [CSetLevel "toString"; CLog e "hasOwnProperty" "a" None]
              constructor)
  = Stats 1 [("ERROR", 0); ("WARN", 0); ("INFO", 0); ("DEBUG", 0)].
Proof. vm_compute. reflexivity. Qed.

(** X2.  After any sequence of calls on a fresh logger, the entries that
    carry a stack are exactly the entries of level [ERROR]:
    [getLogs('ERROR')] is the list of the entries with a stack. *)
Theorem stack_marks_errors (cs : list call) :
  Forall (fun e => stack e <> None <-> level e = "ERROR")
         (logs (run cs constructor)) /\
  getLogs (Some "ERROR") (run cs constructor)
  = filter (fun e => stack e <> None) (logs (run cs constructor)).
Proof.
  assert (Forall (fun e => stack e <> None <-> level e = "ERROR")
                 (logs (run cs constructor))) as Hall.
  { apply run_Forall; [| constructor].
    intros e lvl msg d. unfold logEntry. cbn [stack level].
    by case_bool_decide. }
  split; [done |]. cbn [getLogs]. rewrite bool_decide_eq_false_2 by done.
  induction Hall as [| e l He _ IH]; [done |].
  rewrite !filter_cons, IH. repeat case_decide; tauto.
Qed.

Lemma inherited_level (name : string) (s : t) :
  name ∈ JS.object_prototype ->
  currentLevel (setLevel name s) = InheritedValue name.
Proof.
  intros Hn. unfold setLevel, JS.get.
  destruct (levels !! name) as [n |] eqn:E.
  - apply elem_of_list_to_map_2 in E. unfold JS.object_prototype in Hn.
    list_mem.
  - by rewrite bool_decide_eq_true_2.
Qed.

Lemma silent_step (name : string) (s : t) (c : call) :
  currentLevel s = InheritedValue name -> level_method_or_clear c = true ->
  step s c = (if is_clear c then clear s else s, Returned).
Proof.
  intros Hs Hk.
  assert (forall e lvl n msg d,
            JS.get levels lvl = JS.Own n -> log e lvl msg d s = (s, Returned))
    as Hlog.
  { intros e lvl n msg d Hl. apply LoggerProps.log_rejected.
    unfold enabled. by rewrite Hl, Hs. }
  destruct c; cbn [step is_clear]; unfold error, warn, info, debug;
    try done; [apply (Hlog _ _ 0) | apply (Hlog _ _ 1) | apply (Hlog _ _ 2)
              | apply (Hlog _ _ 3)]; reflexivity.
Qed.

(** X3.  [setLevel] with a name that every object inherits
    ([toString], [constructor], ...) stores the inherited value as the
    level; from then on [error], [warn], [info] and [debug] store nothing
    and print nothing, and every call returns: the entries are the ones
    held before, or none after a [clear]. *)
Theorem inherited_level_name_silences (name : string) (cs : list call) (s : t) :
  name ∈ JS.object_prototype -> forallb level_method_or_clear cs = true ->
  console (run cs (setLevel name s)) = console s /\
  logs (run cs (setLevel name s)) = (if existsb is_clear cs then [] else logs s) /\
  Forall (fun o => o = Returned) (outcomes cs (setLevel name s)).
Proof.
  intros Hn Hcs.
  assert (console (setLevel name s) = console s /\
          logs (setLevel name s) = logs s) as [Hc Hl].
  { unfold setLevel. by repeat case_match. }
  rewrite <- Hc. clear Hc.
  pose proof (inherited_level name s Hn) as Hlvl.
  revert Hlvl Hl Hcs. generalize (setLevel name s) as s'. generalize (logs s) as l0.
  induction cs as [| c cs IH]; intros l0 s' Hlvl Hl Hcs.
  - by repeat split.
  - cbn [forallb] in Hcs. apply andb_prop in Hcs as [Hk Hcs].
    pose proof (silent_step name s' c Hlvl Hk) as Hstep.
    cbn [run foldl existsb outcomes]. rewrite Hstep. cbn [fst snd].
    destruct (IH (if is_clear c then [] else l0)
                 (if is_clear c then clear s' else s'))
      as (IHc & IHl & IHo); [by destruct (is_clear c) | | done |].
    { destruct (is_clear c); [done | by rewrite Hl]. }
    unfold run in IHc, IHl. rewrite IHc, IHl. split; [| split].
    + by destruct (is_clear c).
    + destruct (is_clear c); cbn [orb]; [by destruct (existsb is_clear cs) | done].
    + by constructor.
Qed.

Lemma inherited_level_name_silences_witness :
  let e := Env "2025-01-01T00:00:00.000Z" "Error at main" in
  let cs := [CError e "failed" None; CInfo e "ready" None] in
  "toString" ∈ JS.object_prototype /\
  forallb level_method_or_clear cs = true /\
  console (run cs (setLevel "toString" constructor)) = [] /\
  logs (run cs (setLevel "toString" constructor)) = [] /\
  outcomes cs (setLevel "toString" constructor) = [Returned; Returned].
Proof.
  intros e cs.
  assert ("toString" ∈ JS.object_prototype) as Hn by by_evaluation.
  assert (forallb level_method_or_clear cs = true) as Hcs by reflexivity.
  destruct (inherited_level_name_silences "toString" cs constructor Hn Hcs)
    as (Hc & Hl & _).
  split; [exact Hn |]. split; [exact Hcs |]. split; [exact Hc |].
  split; [exact Hl |]. vm_compute. reflexivity.
Defined.

End LoggerQueriesProps.

Module EventBusQueriesProps.
Import EventBus EventBusQueries.

Section bus.

Context {D W : Type}.
Variable behaviour : callback -> D -> state W -> state W * outcome.







End bus.



End EventBusQueriesProps.

Module ErrorHandlerProps.
Import ErrorHandler.

Lemma addToQueue_refines (M : nat) (e : error) (s : t) (h : list error) :
  0 < M -> maxQueueSize s = M -> errorQueue s = Logger.most_recent M h ->
  maxQueueSize (addToQueue e s) = M /\
  errorQueue (addToQueue e s) = Logger.most_recent M (h ++ [e]).
Proof.
  intros HM Hs Hq. split; [done |].
  unfold addToQueue. cbn [set_errorQueue errorQueue].
  rewrite <- (LoggerProps.most_recent_snoc M h e HM), <- Hq, Hs.
  pose proof (LoggerProps.most_recent_length M h) as Hlen. rewrite <- Hq in Hlen.
  unfold Logger.most_recent. rewrite length_app. cbn [length].
  destruct (Nat.ltb_spec M (length (errorQueue s) + 1)) as [Hlt | Hge].
  - replace (length (errorQueue s) + 1 - M) with 1 by lia.
    by destruct (errorQueue s).
  - replace (length (errorQueue s) + 1 - M) with 0 by lia. done.
Qed.

Lemma add_all_refines (M : nat) (es : list error) (s : t) (h : list error) :
  0 < M -> maxQueueSize s = M -> errorQueue s = Logger.most_recent M h ->
  errorQueue (foldl (fun s e => addToQueue e s) s es)
  = Logger.most_recent M (h ++ es).
Proof.
  intros HM. revert s h. induction es as [| e es IH]; intros s h Hs Hq.
  - by rewrite app_nil_r.
  - cbn [foldl].
    destruct (addToQueue_refines M e s h HM Hs Hq) as [Hs' Hq'].
    rewrite (IH _ (h ++ [e]) Hs' Hq'). by rewrite <- app_assoc.
Qed.

(** X6.  After any number of [addToQueue] on a fresh handler the queue
    holds the most recent 100 errors, oldest first, and never more. *)
Theorem queue_keeps_most_recent (es : list error) :
  errorQueue (foldl (fun s e => addToQueue e s) constructor es)
  = Logger.most_recent 100 es /\
  length (errorQueue (foldl (fun s e => addToQueue e s) constructor es)) <= 100.
Proof.
  pose proof (add_all_refines 100 es constructor [] ltac:(lia) eq_refl eq_refl) as H.
  cbn [app] in H. rewrite H. split; [done |].
  rewrite LoggerProps.most_recent_length. lia.
Qed.




Lemma remove_first_snoc (h : handler) (l : list handler) :
  remove_first h (l ++ [h]) ≡ₚ l /\ (h ∉ l -> remove_first h (l ++ [h]) = l).
Proof.
  induction l as [| x l [IHp IHe]]; cbn [remove_first app].
  - by rewrite bool_decide_eq_true_2.
  - case_bool_decide as Hx.
    + subst x. split.
      * symmetry. apply Permutation_cons_append.
      * intros Hn. exfalso. apply Hn. left.
    + split.
      * by constructor.
      * intros Hn. f_equal. apply IHe. intros Hl. apply Hn. by right.
Qed.

(** X8.  [registerHandler] followed by [unregisterHandler] of the same
    handler under the same code leaves under that code the handlers it had,
    up to their order (in their order when the handler was not registered
    before), and leaves the other codes alone. *)
Theorem register_then_unregister (errorCode : string) (h : handler) (s : t) :
  let before := default [] (handlers s !! errorCode) in
  let s' := unregisterHandler errorCode h (registerHandler errorCode h s) in
  (exists after, handlers s' !! errorCode = Some after /\ after ≡ₚ before /\
                 (h ∉ before -> after = before)) /\
  forall other, other <> errorCode -> handlers s' !! other = handlers s !! other.
Proof.
  cbv zeta. unfold unregisterHandler, registerHandler.
  cbn [set_handlers handlers]. rewrite lookup_insert_eq. cbn [set_handlers handlers].
  rewrite insert_insert_eq. split.
  - eexists. rewrite lookup_insert_eq. split; [done |]. apply remove_first_snoc.
  - intros other Hne. by rewrite lookup_insert_ne.
Qed.

End ErrorHandlerProps.

Module BaseComponentProps.
Import BaseComponent.

Lemma lower_not_upper (c : ascii) : is_upper c = false -> JS.lower_ascii c = c.
Proof. unfold is_upper, JS.lower_ascii. cbv zeta. by intros ->. Qed.

Lemma lower_upper (c : ascii) :
  is_upper c = true ->
  is_lower (JS.lower_ascii c) = true /\ upper_ascii (JS.lower_ascii c) = c /\
  JS.lower_ascii c <> "-"%char.
Proof.
  unfold is_upper, is_lower, upper_ascii, JS.lower_ascii. cbv zeta. intros H.
  rewrite H. apply andb_prop in H as [H1 H2].
  apply Nat.leb_le in H1, H2.
  pose proof (Ascii.ascii_nat_embedding c) as Hc.
  assert (Ascii.nat_of_ascii (Ascii.ascii_of_nat (Ascii.nat_of_ascii c + 32))
          = Ascii.nat_of_ascii c + 32) as Hn.
  { apply Ascii.nat_ascii_embedding. lia. }
  unfold is_lower. rewrite Hn.
  assert ((97 <=? Ascii.nat_of_ascii c + 32)%nat
          && (Ascii.nat_of_ascii c + 32 <=? 122)%nat = true) as ->.
  { apply andb_true_intro. split; apply Nat.leb_le; lia. }
  split; [done |]. split.
  - replace (Ascii.nat_of_ascii c + 32 - 32) with (Ascii.nat_of_ascii c) by lia.
    done.
  - intros Heq. rewrite Heq in Hn.
    change (Ascii.nat_of_ascii "-") with 45 in Hn. lia.
Qed.

Lemma upper_lower (d : ascii) :
  is_lower d = true ->
  is_upper (upper_ascii d) = true /\ JS.lower_ascii (upper_ascii d) = d.
Proof.
  unfold is_upper, is_lower, upper_ascii, JS.lower_ascii. cbv zeta. intros H.
  unfold is_lower. rewrite H. apply andb_prop in H as [H1 H2].
  apply Nat.leb_le in H1, H2.
  pose proof (Ascii.ascii_nat_embedding d) as Hd.
  assert (Ascii.nat_of_ascii (Ascii.ascii_of_nat (Ascii.nat_of_ascii d - 32))
          = Ascii.nat_of_ascii d - 32) as Hn.
  { apply Ascii.nat_ascii_embedding. lia. }
  rewrite Hn.
  assert ((65 <=? Ascii.nat_of_ascii d - 32)%nat
          && (Ascii.nat_of_ascii d - 32 <=? 90)%nat = true) as ->.
  { apply andb_true_intro. split; apply Nat.leb_le; lia. }
  split; [done |].
  replace (Ascii.nat_of_ascii d - 32 + 32) with (Ascii.nat_of_ascii d) by lia.
  done.
Qed.

Lemma dash_not_upper : is_upper "-"%char = false.
Proof. reflexivity. Qed.

Lemma dash_not_lower : is_lower "-"%char = false.
Proof. reflexivity. Qed.

Lemma upper_not_lower (c : ascii) : is_upper c = true -> is_lower c = false.
Proof.
  unfold is_upper, is_lower. cbv zeta. intros H.
  apply andb_prop in H as [H1 H2]. apply Nat.leb_le in H1, H2.
  apply andb_false_intro1. apply Nat.leb_gt. lia.
Qed.

(** The key survives the trip through the attribute name. *)
Lemma camel_dash_upper (key : string) :
  no_dash_lower key = true ->
  camel (JS.toLowerCase (dash_upper key)) = key.
Proof.
  induction key as [| c key IH]; [done |].
  cbn [no_dash_lower]. intros H. apply andb_prop in H as [Hc Hk].
  specialize (IH Hk). cbn [dash_upper].
  destruct (is_upper c) eqn:Hu.
  - destruct (lower_upper c Hu) as (Hl & Hul & _).
    cbn [JS.toLowerCase camel].
    change (JS.lower_ascii "-") with "-"%char.
    rewrite bool_decide_eq_true_2 by done. by rewrite Hl, Hul, IH.
  - cbn [JS.toLowerCase]. rewrite (lower_not_upper c Hu). cbn [camel].
    case_bool_decide as Hd; [| by rewrite IH].
    subst c. destruct key as [| d key'].
    + done.
    + cbn [dash_upper] in *. destruct (is_upper d) eqn:Hud.
      * cbn [JS.toLowerCase] in *.
        change (JS.lower_ascii "-") with "-"%char in *.
        rewrite dash_not_lower. by rewrite IH.
      * cbn [JS.toLowerCase] in *. rewrite (lower_not_upper d Hud) in *.
        cbn [andb] in Hc. apply negb_true_iff in Hc. rewrite Hc. by rewrite IH.
Qed.

(** The attribute name survives the trip through the key. *)
Lemma dash_upper_camel (n : nat) (s : string) :
  String.length s <= n -> no_upper s = true ->
  JS.toLowerCase (dash_upper (camel s)) = s.
Proof.
  revert s. induction n as [| n IH]; intros s Hlen Hs.
  - destruct s; [done | cbn in Hlen; lia].
  - destruct s as [| c s']; [done |].
    cbn [no_upper] in Hs. apply andb_prop in Hs as [Hc Hs'].
    apply negb_true_iff in Hc. cbn [String.length] in Hlen.
    assert (JS.toLowerCase (dash_upper (camel s')) = s') as IH'
      by (apply IH; [lia | done]).
    cbn [camel]. case_bool_decide as Hd.
    + subst c. destruct s' as [| d s''].
      * done.
      * cbn [no_upper] in Hs'. apply andb_prop in Hs' as [Hdu Hs''].
        destruct (is_lower d) eqn:Hl.
        -- destruct (upper_lower d Hl) as [Hu Hlu].
           cbn [dash_upper]. rewrite Hu. cbn [JS.toLowerCase].
           change (JS.lower_ascii "-") with "-"%char. rewrite Hlu.
           f_equal. f_equal. apply IH; [cbn [String.length] in Hlen; lia | done].
        -- cbn [dash_upper]. rewrite dash_not_upper. cbn [JS.toLowerCase].
           change (JS.lower_ascii "-") with "-"%char. by rewrite IH'.
    + cbn [dash_upper]. rewrite Hc. cbn [JS.toLowerCase].
      by rewrite (lower_not_upper c Hc), IH'.
Qed.

Lemma append_String (c : ascii) (s t : string) :
  String c s +:+ t = String c (s +:+ t).
Proof. reflexivity. Qed.

Lemma startsWith_skip (p s : string) :
  JS.startsWith p s = true -> s = p +:+ JS.skip (String.length p) s.
Proof.
  unfold JS.startsWith. revert s. induction p as [| c p IH]; intros s H.
  - by destruct s.
  - destruct s as [| d s]; [done |]. cbn [String.prefix] in H.
    destruct (Ascii.ascii_dec c d) as [-> | ?]; [| done].
    cbn [String.length JS.skip]. rewrite append_String. f_equal. by apply IH.
Qed.

Lemma startsWith_append (p s : string) : JS.startsWith p (p +:+ s) = true.
Proof.
  unfold JS.startsWith. induction p as [| c p IH]; [by destruct s |].
  rewrite append_String. cbn [String.prefix].
  by destruct (Ascii.ascii_dec c c).
Qed.

Lemma skip_append (p s : string) : JS.skip (String.length p) (p +:+ s) = s.
Proof.
  induction p as [| c p IH]; [by destruct s |].
  by rewrite append_String.
Qed.

Lemma no_upper_skip (n : nat) (s : string) :
  no_upper s = true -> no_upper (JS.skip n s) = true.
Proof.
  revert s. induction n as [| n IH]; intros s Hs; [by destruct s |].
  destruct s as [| c s]; [done |]. cbn [JS.skip]. apply IH.
  cbn [no_upper] in Hs. by apply andb_prop in Hs as [_ Hs].
Qed.

Lemma data_key_attribute (key : string) :
  no_dash_lower key = true -> data_key (data_attribute key) = Some key.
Proof.
  intros Hk. unfold data_key, data_attribute.
  rewrite startsWith_append.
  change 5 with (String.length "data-"). by rewrite skip_append, camel_dash_upper.
Qed.

Lemma data_key_inj (name name' key : string) :
  no_upper name = true -> no_upper name' = true ->
  data_key name = Some key -> data_key name' = Some key -> name = name'.
Proof.
  unfold data_key. intros Hn Hn' H H'.
  destruct (JS.startsWith "data-" name) eqn:E; [| done].
  destruct (JS.startsWith "data-" name') eqn:E'; [| done].
  pose proof (no_upper_skip 5 _ Hn) as Ha.
  pose proof (no_upper_skip 5 _ Hn') as Hb.
  etrans; [apply (startsWith_skip _ _ E) |].
  symmetry. etrans; [apply (startsWith_skip _ _ E') |]. symmetry.
  change (String.length "data-") with 5.
  set (a := JS.skip 5 name) in *. set (b := JS.skip 5 name') in *.
  assert (camel a = camel b) as Hab by congruence.
  f_equal.
  rewrite <- (dash_upper_camel _ a (le_n _) Ha).
  rewrite <- (dash_upper_camel _ b (le_n _) Hb).
  by rewrite Hab.
Qed.

Lemma getData_of_attribute (attributes : list (string * string))
    (key value : string) :
  no_dash_lower key = true -> key <> "__proto__" ->
  NoDup attributes.*1 -> Forall (fun a => no_upper a.1 = true) attributes ->
  (data_attribute key, value) ∈ attributes ->
  getData attributes !! key = Some value.
Proof.
  intros Hk Hp. unfold getData.
  induction attributes as [| a l IH] using rev_ind; intros Hnd Hup Hin.
  - by apply elem_of_nil in Hin.
  - rewrite foldl_app. cbn [foldl].
    rewrite fmap_app in Hnd. apply NoDup_app in Hnd as (Hnd & Hdis & _).
    apply Forall_app in Hup as [Hup Ha]. rewrite Forall_singleton in Ha.
    apply elem_of_app in Hin as [Hin | Hin].
    + specialize (IH Hnd Hup Hin).
      assert (data_key a.1 <> Some key) as Hne.
      { intros Heq. apply (Hdis (data_attribute key)).
        - apply list_elem_of_fmap. by exists (data_attribute key, value).
        - cbn [fmap list_fmap]. apply list_elem_of_singleton.
          apply (data_key_inj _ _ key); [| done | by apply data_key_attribute | done].
          by apply (proj1 (Forall_forall _ _) Hup (data_attribute key, value)). }
      destruct (data_key a.1) as [k |]; [| done].
      case_bool_decide; [done |]. rewrite lookup_insert_ne; [done | congruence].
    + apply list_elem_of_singleton in Hin. subst a. cbn [fst snd].
      rewrite data_key_attribute by done.
      rewrite bool_decide_eq_false_2 by done. by rewrite lookup_insert_eq.
Qed.

Lemma alphanumeric_no_dash_lower (key : string) :
  alphanumeric key = true -> no_dash_lower key = true.
Proof.
  induction key as [| c key IH]; [done |].
  cbn [alphanumeric no_dash_lower]. intros H. apply andb_prop in H as [Hc Hk].
  rewrite (IH Hk), andb_true_r. destruct key as [| d key']; [done |].
  apply negb_true_iff, andb_false_intro1, bool_decide_eq_false_2.
  intros ->. by vm_compute in Hc.
Qed.

Lemma alphanumeric_not_proto (key : string) :
  alphanumeric key = true -> key <> "__proto__".
Proof. intros H ->. by vm_compute in H. Qed.

Lemma no_upper_lower_ascii (c : ascii) : is_upper (JS.lower_ascii c) = false.
Proof.
  destruct (is_upper c) eqn:Hu.
  - destruct (lower_upper c Hu) as (Hl & _ & _).
    destruct (is_upper (JS.lower_ascii c)) eqn:E; [| done].
    apply upper_not_lower in E. congruence.
  - by rewrite (lower_not_upper c Hu).
Qed.

Lemma no_upper_toLowerCase (s : string) : no_upper (JS.toLowerCase s) = true.
Proof.
  induction s as [| c s IH]; [done |].
  cbn [JS.toLowerCase no_upper]. by rewrite no_upper_lower_ascii, IH.
Qed.

Lemma no_upper_data_attribute (key : string) :
  no_upper (data_attribute key) = true.
Proof.
  unfold data_attribute. rewrite !append_String. cbn [no_upper].
  change (is_upper "d") with false. change (is_upper "a") with false.
  change (is_upper "t") with false. change (is_upper "-") with false.
  cbn [negb andb]. apply no_upper_toLowerCase.
Qed.

Lemma setAttribute_spec (name value : string)
    (attributes : list (string * string)) :
  NoDup attributes.*1 -> Forall (fun a => no_upper a.1 = true) attributes ->
  no_upper name = true ->
  NoDup (setAttribute name value attributes).*1 /\
  Forall (fun a => no_upper a.1 = true) (setAttribute name value attributes) /\
  (name, value) ∈ setAttribute name value attributes.
Proof.
  intros Hnd Hup Hn. unfold setAttribute. case_bool_decide as Hin.
  - set (f := fun a : string * string =>
                if bool_decide (a.1 = name) then (name, value) else a).
    assert (forall a, (f a).1 = a.1) as Hf.
    { intros a. unfold f. by case_bool_decide. }
    assert ((f <$> attributes).*1 = attributes.*1) as Hnames.
    { rewrite <- list_fmap_compose. apply list_fmap_ext. intros i a _. apply Hf. }
    split; [by rewrite Hnames |]. split.
    + apply Forall_fmap. eapply Forall_impl; [apply Hup |].
      intros a Ha. unfold compose. by rewrite Hf.
    + apply list_elem_of_fmap in Hin as (a & Ha & Hin).
      apply list_elem_of_fmap. exists a. split; [| done].
      unfold f. by rewrite bool_decide_eq_true_2.
  - split; [| split].
    + rewrite fmap_app. apply NoDup_app. split; [done |]. split.
      * intros x Hx Hx'. apply list_elem_of_singleton in Hx'. by subst.
      * apply NoDup_singleton.
    + apply Forall_app. split; [done |]. by apply Forall_singleton.
    + apply elem_of_app. right. by apply list_elem_of_singleton.
Qed.

(** X9.  On an element whose attributes have distinct lower-case names,
    as those of an HTML element are, [setData(key, value)] with a key made
    of ASCII letters and digits is read back by [getData]: the object it
    returns has [value] under [key]. *)
Theorem getData_reports_setData (attributes : list (string * string))
    (key value : string) :
  alphanumeric key = true ->
  NoDup attributes.*1 -> Forall (fun a => no_upper a.1 = true) attributes ->
  getData (setData key value attributes) !! key = Some value.
Proof.
  intros Hk Hnd Hup. unfold setData.
  destruct (setAttribute_spec (data_attribute key) value attributes Hnd Hup
              (no_upper_data_attribute key)) as (Hnd' & Hup' & Hin).
  apply getData_of_attribute; try done.
  - by apply alphanumeric_no_dash_lower.
  - by apply alphanumeric_not_proto.
Qed.

Lemma getData_reports_setData_witness :
  let attributes := [("id", "modal-projects"); ("data-modal-id", "contact");
                     ("data-component", "modal")] in
  alphanumeric "modalId" = true /\ NoDup attributes.*1 /\
  Forall (fun a => no_upper a.1 = true) attributes /\
  setData "modalId" "projects" attributes
  = [("id", "modal-projects"); ("data-modal-id", "projects");
     ("data-component", "modal")] /\
  getData (setData "modalId" "projects" attributes) !! "modalId"
  = Some "projects".
Proof.
  intros attributes.
  assert (NoDup attributes.*1) as Hnd by by_evaluation.
  assert (Forall (fun a : string * string => no_upper a.1 = true) attributes)
    as Hup by by_evaluation.
  split; [reflexivity |]. split; [exact Hnd |]. split; [exact Hup |].
  split; [vm_compute; reflexivity |].
  exact (getData_reports_setData attributes "modalId" "projects" eq_refl Hnd Hup).
Defined.

(** X10.  Every attribute name of an element that starts with [data-]
    is the name [setData] makes from the key under which [getData] reports
    it. *)
Theorem data_attribute_of_key (name : string) :
  ascii_only name = true -> no_upper name = true ->
  JS.startsWith "data-" name = true ->
  exists key, data_key name = Some key /\ data_attribute key = name.
Proof.
  intros _ Hn Hs. unfold data_key. rewrite Hs. eexists. split; [done |].
  unfold data_attribute.
  rewrite (dash_upper_camel _ (JS.skip 5 name) (le_n _) (no_upper_skip 5 _ Hn)).
  symmetry. apply (startsWith_skip "data-" name Hs).
Qed.

Lemma data_attribute_of_key_witness :
  ascii_only "data-component-options" = true /\
  no_upper "data-component-options" = true /\
  JS.startsWith "data-" "data-component-options" = true /\
  exists key, data_key "data-component-options" = Some key /\
              data_attribute key = "data-component-options".
Proof.
  split; [reflexivity |]. split; [reflexivity |]. split; [reflexivity |].
  apply (data_attribute_of_key "data-component-options" eq_refl eq_refl eq_refl).
Defined.

End BaseComponentProps.

Module NavigationProps.
Import Navigation.

Local Open Scope Z_scope.









(** X12.  [updateActiveNavigation] keeps every link and every class other
    than [active]; a link with a fragment [href] ends with the class
    [active] exactly when its fragment is the active section, and the other
    links are unchanged. *)
Theorem active_link_is_exact (active : string) (ls : list link) :
  Forall2 (fun l l' =>
             href l' = href l /\
             (forall c, c <> "active" -> c ∈ classes l' <-> c ∈ classes l) /\
             if hash_link l
             then "active" ∈ classes l'
                  <-> JS.skip 1 (default EmptyString (href l)) = active
             else l' = l)
          ls (updateActiveNavigation active ls).
Proof.
  unfold updateActiveNavigation. apply Forall2_fmap_r, Forall_Forall2_diag.
  apply Forall_forall. intros l _. unfold compose.
  destruct (hash_link l); [| by split; [| split; [tauto |]]].
  unfold Dom.classList_add, Dom.classList_remove.
  case_bool_decide as Hact; cbn [href classes].
  - split; [done |]. case_bool_decide as Hin.
    + split; [done |]. tauto.
    + split.
      * intros c Hc. rewrite elem_of_app, list_elem_of_singleton. tauto.
      * rewrite elem_of_app, list_elem_of_singleton. tauto.
  - split; [done |]. split.
    + intros c Hc. rewrite list_elem_of_filter. tauto.
    + rewrite list_elem_of_filter. tauto.
Qed.

End NavigationProps.

Module FocusTrapProps.
Import Dom FocusTrap.

Lemma focusable_can_focus (i : nat) (w : world) (t : focus_target) :
  descendants_attached i w -> t ∈ Enhanced.getFocusableElements i w ->
  can_focus w (Inside i (ft_index t)) = true.
Proof.
  unfold descendants_attached, Enhanced.getFocusableElements, can_focus,
    element_rendered, descendant_disabled.
  destruct (elements w !! i) as [e |]; [| by intros _ ?%elem_of_nil].
  intros [Hnd Hat] Ht. apply list_elem_of_filter in Ht as [[Hdis Hr] Ht].
  apply andb_prop in Hr as [Hr _].
  rewrite bool_decide_eq_true_2
    by by apply (proj1 (Forall_forall _ _) Hat).
  rewrite Hr. cbn [andb]. apply negb_true_iff, bool_decide_eq_false_2.
  intros Hex. apply Exists_exists in Hex as (t' & Ht' & Hidx & Hd').
  assert (t' = t) as ->; [| congruence].
  apply list_elem_of_lookup in Ht as [k Hk], Ht' as [k' Hk'].
  assert (k' = k) as ->; [| congruence].
  apply (NoDup_lookup _ k' k (ft_index t) Hnd); rewrite list_lookup_fmap.
  - rewrite Hk'. cbn. by rewrite Hidx.
  - by rewrite Hk.
Qed.

(** X13.  The focus trap of a modal whose focusable descendants are in
    the document: Tab on the last of them moves the focus to the first,
    Shift+Tab on the first moves it to the last, both with the default
    action suppressed; from any other element, and for any other key, the
    handler changes nothing. *)
Theorem focus_trap_wraps (ci : nat) (c : component) (w : world)
    (firstElement : focus_target) (rest : list focus_target) :
  components w !! ci = Some c -> descendants_attached (element_of c) w ->
  Enhanced.getFocusableElements (element_of c) w = firstElement :: rest ->
  let i := element_of c in
  let lastElement := default firstElement (last rest) in
  (focused w = Inside i (ft_index lastElement) ->
   focused (handleFocusTrap ci "Tab" false w) = Inside i (ft_index firstElement) /\
   trace (handleFocusTrap ci "Tab" false w) = trace w ++ [PreventDefault]) /\
  (focused w = Inside i (ft_index firstElement) ->
   focused (handleFocusTrap ci "Tab" true w) = Inside i (ft_index lastElement) /\
   trace (handleFocusTrap ci "Tab" true w) = trace w ++ [PreventDefault]) /\
  (focused w <> Inside i (ft_index lastElement) ->
   handleFocusTrap ci "Tab" false w = w) /\
  (focused w <> Inside i (ft_index firstElement) ->
   handleFocusTrap ci "Tab" true w = w) /\
  forall key shiftKey, key <> "Tab" -> handleFocusTrap ci key shiftKey w = w.
Proof.
  intros Hc Hat Hf. cbv zeta. unfold handleFocusTrap. rewrite Hc, Hf.
  assert (can_focus w (Inside (element_of c) (ft_index firstElement)) = true)
    as Hfirst.
  { apply focusable_can_focus; [done |]. rewrite Hf. left. }
  assert (can_focus w
            (Inside (element_of c) (ft_index (default firstElement (last rest))))
          = true) as Hlast.
  { apply focusable_can_focus; [done |]. rewrite Hf.
    destruct (last rest) as [t |] eqn:E; cbn [default].
    - right. apply last_Some in E as [l' ->]. apply elem_of_app. right. left.
    - left. }
  rewrite bool_decide_eq_true_2 by done. cbv zeta.
  repeat split.
  - rewrite bool_decide_eq_true_2 by done. unfold focus.
    change (can_focus (emit PreventDefault w) ?n) with (can_focus w n).
    by rewrite Hfirst.
  - rewrite bool_decide_eq_true_2 by done. unfold focus.
    change (can_focus (emit PreventDefault w) ?n) with (can_focus w n).
    by rewrite Hfirst.
  - rewrite bool_decide_eq_true_2 by done. unfold focus.
    change (can_focus (emit PreventDefault w) ?n) with (can_focus w n).
    by rewrite Hlast.
  - rewrite bool_decide_eq_true_2 by done. unfold focus.
    change (can_focus (emit PreventDefault w) ?n) with (can_focus w n).
    by rewrite Hlast.
  - intros Hne. by rewrite bool_decide_eq_false_2.
  - intros Hne. by rewrite bool_decide_eq_false_2.
  - intros key shiftKey Hk. by rewrite bool_decide_eq_false_2.
Qed.

Lemma focus_trap_wraps_witness :
  let w := Page.run [Page.ClickNav 5; Page.UserFocus (Inside 7 8)]
             Page.index_html_enhanced in
  components w !! 4 = Some (Enhanced.new_Modal 7) /\
  descendants_attached 7 w /\
  Enhanced.getFocusableElements 7 w
  = [FocusTarget 3 false true; FocusTarget 6 false true; FocusTarget 8 false true] /\
  focused w = Inside 7 8 /\
  focused (handleFocusTrap 4 "Tab" false w) = Inside 7 3 /\
  trace (handleFocusTrap 4 "Tab" false w) = trace w ++ [PreventDefault].
Proof.
  cbv zeta.
  set (w := Page.run [Page.ClickNav 5; Page.UserFocus (Inside 7 8)]
              Page.index_html_enhanced).
  assert (components w !! 4 = Some (Enhanced.new_Modal 7)) as Hc
    by (vm_compute; reflexivity).
  assert (descendants_attached 7 w) as Hat.
  { unfold descendants_attached.
    let x := eval vm_compute in (elements w !! 7) in
    change (elements w !! 7) with x.
    split; by_evaluation. }
  assert (Enhanced.getFocusableElements 7 w
          = [FocusTarget 3 false true; FocusTarget 6 false true;
             FocusTarget 8 false true]) as Hf by (vm_compute; reflexivity).
  assert (focused w = Inside 7 8) as Hw by (vm_compute; reflexivity).
  split; [done |]. split; [done |]. split; [done |]. split; [done |].
  destruct (focus_trap_wraps 4 (Enhanced.new_Modal 7) w _ _ Hc Hat Hf)
    as (Hwrap & _).
  apply Hwrap. exact Hw.
Defined.

End FocusTrapProps.

Module BasicProps.
Import Dom DomProps FrameProps Spec.

Lemma ids_alter (f : element -> element) (j : nat) (l : list element) :
  (forall e, id (f e) = id e) -> id <$> alter f j l = id <$> l.
Proof.
  intros Hf. apply list_eq. intros k. rewrite !list_lookup_fmap.
  destruct (decide (k = j)) as [-> | Hne].
  - rewrite list_lookup_alter_eq. destruct (l !! j); cbn; [by rewrite Hf | done].
  - by rewrite list_lookup_alter_ne.
Qed.

Lemma emergency_lookup (v : string) (w : world) (i : nat) :
  getElementById "emergency-close" w <> Some i ->
  elements (Basic.emergency_button v w) !! i = elements w !! i.
Proof.
  intros Hne. unfold Basic.emergency_button.
  destruct (getElementById "emergency-close" w) as [j |] eqn:E; [| done].
  proj_simpl. rewrite list_lookup_alter_ne; [done | congruence].
Qed.

Lemma closeModal_other (j i : nat) (w : world) :
  i <> j -> getElementById "emergency-close" w <> Some i ->
  elements (Basic.closeModal j w) !! i = elements w !! i.
Proof.
  intros Hij Hem. unfold Basic.closeModal. cbv zeta.
  match goal with
  | |- elements (console_log _ ?X) !! _ = _ =>
      change (elements (console_log _ X)) with (elements X)
  end.
  match goal with
  | |- elements (match ?t with Some n => focus (NavLink n) ?X | None => _ end) !! _
       = _ =>
      assert (elements (match t with Some n => focus (NavLink n) X | None => X end)
              = elements X) as ->
        by (destruct t; [apply elements_focus | done])
  end.
  rewrite emergency_lookup.
  - proj_simpl. by rewrite !list_lookup_alter_ne.
  - rewrite (getElementById_elements _ w); [done |]. proj_simpl.
    rewrite !ids_alter; done.
Qed.

(** X14.  A click on a close control closes the first modal that the
    selector [.modal[style*="flex"]] finds and no other: every other
    element of the page, the modal of the control included, is as it was,
    provided it is not the emergency button. *)
Theorem close_control_ignores_its_modal (w : world) (b : nat) (btn : close_button)
    (j i : nat) (e : element) :
  close_buttons w !! b = Some btn ->
  Basic.open_modal_by_style w = Some j ->
  i <> j -> elements w !! i = Some e ->
  getElementById "emergency-close" w <> Some i ->
  elements (Page.step w (Page.ClickClose b)) !! i = Some e.
Proof.
  intros Hb Hj Hij He Hem. unfold Page.step, Page.handle.
  rewrite elements_fixup, Hb. unfold Basic.close_click. cbv zeta.
  match goal with
  | |- context [Basic.open_modal_by_style ?X] =>
      change (Basic.open_modal_by_style X) with (Basic.open_modal_by_style w)
  end.
  rewrite Hj. rewrite closeModal_other; [done | done |].
  by erewrite getElementById_elements.
Qed.

Lemma close_control_ignores_its_modal_witness :
  let w := Page.step Page.index_html (Page.ClickNav 5) in
  let e := {| id := "modal-contact"; is_modal := true;
              markup_style := EmptyString; display := "flex"; opacity := "1";
              zIndex := "10000"; aria_hidden := Some "false"; role := None;
              aria_modal := None; panel := Some ["modal-content"];
              focusables := [ FocusTarget 3 false true; FocusTarget 6 false true;
                              FocusTarget 8 false true ] |} in
  close_buttons w !! 4 = Some (CloseButton (Some "modal-contact") (Some 7)) /\
  Basic.open_modal_by_style w = Some 5 /\ 7 <> 5 /\
  elements w !! 7 = Some e /\
  getElementById "emergency-close" w <> Some 7 /\
  elements (Page.step w (Page.ClickClose 4)) !! 7 = Some e.
Proof.
  cbv zeta.
  assert (close_buttons (Page.step Page.index_html (Page.ClickNav 5)) !! 4
          = Some (CloseButton (Some "modal-contact") (Some 7))) as Hb
    by (vm_compute; reflexivity).
  assert (Basic.open_modal_by_style (Page.step Page.index_html (Page.ClickNav 5))
          = Some 5) as Hj by (vm_compute; reflexivity).
  assert (7 <> 5) as Hij by lia.
  assert (getElementById "emergency-close"
            (Page.step Page.index_html (Page.ClickNav 5)) <> Some 7) as Hem
    by (vm_compute; discriminate).
  split; [done |]. split; [done |]. split; [done |].
  split; [vm_compute; reflexivity |]. split; [done |].
  apply (close_control_ignores_its_modal _ 4 _ 5 7 _ Hb Hj Hij); [| done].
  vm_compute. reflexivity.
Defined.

End BasicProps.
